(** * Persona-driven section prioritizer: a shallow embedding

    The development follows [src/section_prioritizer.py]: the text
    normalizer [clean_text], the segmenter [extract_sections], the persona
    scorer [calculate_section_score], the ranker [prioritize_sections], the
    two validators and [process_document].

    Python values are modelled as the code has them:
    - [str] is a list of characters.  A character is a code point below 256
      (the Latin-1 range of Python's [str]); the character classes of
      [str.isspace], [str.strip], [str.lower], [str.isupper] and of the
      regular-expression classes [\s], [\w] and [\d] are written out for
      that range;
    - [float] is Rocq's primitive binary64 [float], the format of a Python
      float, with the same round-to-nearest-even operations;
    - a [dict] is a finite map from string keys to values, and dicts live in
      a heap of objects, so that copies and in-place updates are visible. *)

From Stdlib Require Import ZArith List Ascii String Bool Lia.
From Stdlib Require Import Floats Sorting.Sorted Sorting.Permutation.
From stdpp Require Import gmap strings.

Local Open Scope Z_scope.
Local Open Scope list_scope.

(* Decimal literals such as 0.3 denote the nearest binary64 value, as in
   the source. *)
#[global] Set Warnings "-inexact-float,-register-all,-clear-no-such-hyp".

(** ** Characters and character classes *)

Module Chars.

Definition code (c : ascii) : N := N_of_ascii c.

Definition between (lo hi : N) (c : ascii) : bool :=
  (N.leb lo (code c) && N.leb (code c) hi)%bool.

Definition is_code (n : N) (c : ascii) : bool := N.eqb (code c) n.

(** [str.isspace] on one character, which is also the regular-expression
    class [\s] on [str] patterns: TAB, LF, VT, FF, CR, the separators
    0x1c..0x1f, SPACE, NEL (0x85) and NBSP (0xa0). *)
Definition is_space (c : ascii) : bool :=
  (between 9 13 c || between 28 32 c || is_code 133 c || is_code 160 c)%bool.

Definition is_ascii_upper (c : ascii) : bool := between 65 90 c.
Definition is_ascii_lower (c : ascii) : bool := between 97 122 c.
Definition is_digit (c : ascii) : bool := between 48 57 c.

(** Upper-case and lower-case letters of the Latin-1 range. *)
Definition is_upper (c : ascii) : bool :=
  (is_ascii_upper c || between 192 214 c || between 216 222 c)%bool.

Definition is_lower (c : ascii) : bool :=
  (is_ascii_lower c || is_code 170 c || is_code 181 c || is_code 186 c
   || between 223 246 c || between 248 255 c)%bool.

(** The class [\w]: alphanumeric characters ([str.isalnum]) and the
    underscore. *)
Definition is_word (c : ascii) : bool :=
  (is_digit c || is_upper c || is_lower c || is_code 95 c
   || between 178 179 c || is_code 185 c || between 188 190 c)%bool.

(** [str.lower] on one character. *)
Definition lower (c : ascii) : ascii :=
  if is_upper c then ascii_of_N (code c + 32) else c.

Definition eqb (a b : ascii) : bool := Ascii.eqb a b.

Definition dot : ascii := "."%char.
Definition comma : ascii := ","%char.
Definition semicolon : ascii := ";"%char.
Definition colon : ascii := ":"%char.
Definition bang : ascii := "!"%char.
Definition question : ascii := "?"%char.
Definition space : ascii := " "%char.
Definition newline : ascii := "010"%char.

(** The class [[\.\,\;\:\!\?]]. *)
Definition is_punct (c : ascii) : bool :=
  (eqb c dot || eqb c comma || eqb c semicolon || eqb c colon
   || eqb c bang || eqb c question)%bool.

(** The other characters kept by the normalizer: hyphen, round, square and
    curly brackets, double quote (code 34) and apostrophe (code 39). *)
Definition is_bracket_or_quote (c : ascii) : bool :=
  (is_code 45 c || is_code 40 c || is_code 41 c || is_code 91 c
   || is_code 93 c || is_code 123 c || is_code 125 c || is_code 34 c
   || is_code 39 c)%bool.

(** The characters outside the negated class of the normalizer's second
    substitution: word characters, whitespace, the six punctuation marks and
    the brackets and quotes above. *)
Definition is_allowed (c : ascii) : bool :=
  (is_word c || is_space c || is_punct c || is_bracket_or_quote c)%bool.

End Chars.

(** ** Strings *)

Abbreviation str := (list ascii).

Definition lit (s : string) : str := list_ascii_of_string s.

Module Str.

(** [s.lstrip()], [s.rstrip()] and [s.strip()]. *)
Fixpoint lstrip (s : str) : str :=
  match s with
  | [] => []
  | c :: s' => if Chars.is_space c then lstrip s' else s
  end.

Fixpoint rstrip (s : str) : str :=
  match s with
  | [] => []
  | c :: s' =>
      match rstrip s' with
      | [] => if Chars.is_space c then [] else [c]
      | r => c :: r
      end
  end.

Definition strip (s : str) : str := rstrip (lstrip s).

(** Truth value of a string: [not s] holds of the empty string only. *)
Definition is_empty (s : str) : bool :=
  match s with [] => true | _ => false end.

(** [s.lower()]. *)
Definition lower (s : str) : str := List.map Chars.lower s.

(** [s.startswith(p)]. *)
Fixpoint startswith (p s : str) : bool :=
  match p, s with
  | [], _ => true
  | _ :: _, [] => false
  | a :: p', b :: s' => (Chars.eqb a b && startswith p' s')%bool
  end.

(** [p in s]: [p] occurs in [s] as a contiguous substring. *)
Fixpoint contains (p s : str) : bool :=
  (startswith p s ||
   match s with
   | [] => false
   | _ :: s' => contains p s'
   end)%bool.

(** [s.count(p)]: the number of non-overlapping occurrences of [p] in [s],
    scanning from the left; after a match the scan resumes behind it.  For
    the empty pattern Python counts [len(s) + 1] positions.  [skip] is the
    number of characters still covered by the last match. *)
Fixpoint count_from (p : str) (skip : nat) (s : str) : nat :=
  match s with
  | [] => 0
  | _ :: s' =>
      match skip with
      | S k => count_from p k s'
      | O => if startswith p s
             then S (count_from p (Nat.pred (List.length p)) s')
             else count_from p 0 s'
      end
  end.

Definition count (p s : str) : nat :=
  match p with
  | [] => S (List.length s)
  | _ => count_from p 0 s
  end.

(** [s.endswith(":")]. *)
Definition ends_with_colon (s : str) : bool :=
  match rev s with
  | c :: _ => Chars.eqb c Chars.colon
  | [] => false
  end.

(** [s.rstrip(':')]: all trailing colons removed. *)
Fixpoint rstrip_colons (s : str) : str :=
  match s with
  | [] => []
  | c :: s' =>
      match rstrip_colons s' with
      | [] => if Chars.eqb c Chars.colon then [] else [c]
      | r => c :: r
      end
  end.

(** [s.split('\n')]: the pieces between line feeds; always at least one
    piece.  [cur] is the piece being read, reversed. *)
Fixpoint split_lines_from (cur : str) (s : str) : list str :=
  match s with
  | [] => [rev cur]
  | c :: s' =>
      if Chars.eqb c Chars.newline
      then rev cur :: split_lines_from [] s'
      else split_lines_from (c :: cur) s'
  end.

Definition split_lines (s : str) : list str := split_lines_from [] s.

(** [s.isupper()]: at least one cased character, and no lower-case one. *)
Definition isupper (s : str) : bool :=
  (List.existsb Chars.is_upper s && negb (List.existsb Chars.is_lower s))%bool.

End Str.

(** ** Text normalizer ([clean_text], lines 103-134) *)

Module Normalizer.

(** [re.sub(r'\s+', ' ', s)]: every maximal run of whitespace is replaced by
    one space.  [in_run] tells that the previous character was whitespace,
    so that the run's replacement has been written already. *)
Fixpoint sub_ws_runs (in_run : bool) (s : str) : str :=
  match s with
  | [] => []
  | c :: s' =>
      if Chars.is_space c
      then if in_run then sub_ws_runs true s'
           else Chars.space :: sub_ws_runs true s'
      else c :: sub_ws_runs false s'
  end.

(** The second substitution deletes every character outside the allow-list. *)
Definition remove_disallowed (s : str) : str :=
  List.filter Chars.is_allowed s.

(** [re.sub(r'\.{2,}', '.', s)] and its two siblings for [!] and [?]: a run
    of two or more marks [m] is replaced by one [m]; a single mark stays.
    [in_run] tells that the previous character was [m]. *)
Fixpoint collapse_marks (m : ascii) (in_run : bool) (s : str) : str :=
  match s with
  | [] => []
  | c :: s' =>
      if Chars.eqb c m
      then if in_run then collapse_marks m true s'
           else m :: collapse_marks m true s'
      else c :: collapse_marks m false s'
  end.

(** The first character behind the whitespace at the head of [s] is one of
    the six punctuation marks. *)
Definition punct_follows (s : str) : bool :=
  match Str.lstrip s with
  | c :: _ => Chars.is_punct c
  | [] => false
  end.

(** [re.sub(r'\s+([\.\,\;\:\!\?])', r'\1', s)]: a maximal run of whitespace
    that is directly followed by a punctuation mark is deleted, the mark is
    kept.  A whitespace character is deleted exactly when the first
    character behind its run is a punctuation mark. *)
Fixpoint remove_ws_before_punct (s : str) : str :=
  match s with
  | [] => []
  | c :: s' =>
      if (Chars.is_space c && punct_follows s')%bool
      then remove_ws_before_punct s'
      else c :: remove_ws_before_punct s'
  end.

(** [re.sub(r'\s{2,}', ' ', s)]: a run of two or more whitespace characters
    is replaced by one space; a single whitespace character stays as it is.
    [in_run] tells that the previous character belongs to a run that has
    been replaced already. *)
Fixpoint limit_spaces (in_run : bool) (s : str) : str :=
  match s with
  | [] => []
  | c :: s' =>
      if Chars.is_space c
      then if in_run then limit_spaces true s'
           else match s' with
                | c' :: _ =>
                    if Chars.is_space c'
                    then Chars.space :: limit_spaces true s'
                    else c :: limit_spaces false s'
                | [] => [c]
                end
      else c :: limit_spaces false s'
  end.

(** The three substitutions that remove excessive punctuation. *)
Definition collapse_all (s : str) : str :=
  collapse_marks Chars.question false
    (collapse_marks Chars.bang false
       (collapse_marks Chars.dot false s)).

Definition clean_text (text : str) : str :=
  if Str.is_empty text then []
  else
    let text := sub_ws_runs false (Str.strip text) in
    let text := remove_disallowed text in
    let text := collapse_all text in
    let text := remove_ws_before_punct text in
    let text := limit_spaces false text in
    Str.strip text.

End Normalizer.

(** ** Section segmenter ([extract_sections], lines 136-193) *)

Module Segmenter.

(** The dictionary [{"title": .., "content": .., "page_number": ..}] the
    segmenter builds; the three keys are fixed, so it is a record here. *)
Record section := mk_section {
  title : str;
  content : str;
  page_number : Z
}.

(** [re.match(r'^\d+\.\s+[A-Z]', line)]: digits, a dot, whitespace, then an
    upper-case ASCII letter.  No character belongs to two neighbouring
    classes, so the greedy match is the only one. *)
Fixpoint skip_digits (s : str) : str :=
  match s with
  | [] => []
  | c :: s' => if Chars.is_digit c then skip_digits s' else s
  end.

Definition numbered_heading (line : str) : bool :=
  match line with
  | d :: rest =>
      (Chars.is_digit d &&
       match skip_digits rest with
       | p :: w :: rest' =>
           (Chars.eqb p Chars.dot && Chars.is_space w &&
            match Str.lstrip rest' with
            | u :: _ => Chars.is_ascii_upper u
            | [] => false
            end)
       | _ => false
       end)%bool
  | [] => false
  end.

(** [re.match(r'^[A-Z][a-z]+.*:$', line)]: an upper-case ASCII letter, a
    lower-case one, anything, and a colon at the end.  A line holds no line
    feed, so [.] matches each of its characters and [$] only its end. *)
Definition capitalized_colon (line : str) : bool :=
  match line with
  | u :: l :: rest =>
      (Chars.is_ascii_upper u && Chars.is_ascii_lower l
       && Str.ends_with_colon rest)%bool
  | _ => false
  end.

(** The header heuristic of lines 159-162; [and] binds tighter than [or]. *)
Definition is_header (line : str) : bool :=
  (Str.isupper line
   || numbered_heading line
   || capitalized_colon line
   || (Nat.ltb (List.length line) 100 && Str.ends_with_colon line))%bool.

Definition initial_section : section :=
  mk_section (lit "Introduction") [] 1.

(** Lines 165-168 and 180-183: the accumulator is normalized and appended
    when its content is not blank. *)
Definition flush (sections : list section) (cur : section) : list section :=
  if Str.is_empty (Str.strip (content cur)) then sections
  else sections ++
       [mk_section (Normalizer.clean_text (title cur))
                   (Normalizer.clean_text (content cur))
                   (page_number cur)].

(** The loop of lines 153-177 over [enumerate(lines)], from index [i]. *)
Fixpoint scan_lines (i : nat) (lines : list str)
    (sections : list section) (cur : section) : list section * section :=
  match lines with
  | [] => (sections, cur)
  | raw :: rest =>
      let line := Str.strip raw in
      if Str.is_empty line then scan_lines (S i) rest sections cur
      else if is_header line then
        scan_lines (S i) rest (flush sections cur)
          (mk_section (Str.rstrip_colons line) [] (Z.of_nat i / 50 + 1))
      else
        scan_lines (S i) rest sections
          (mk_section (title cur)
                      (content cur ++ line ++ [Chars.newline])
                      (page_number cur))
  end.

(** The candidate sections, before the filter of lines 185-191. *)
Definition candidate_sections (text : str) : list section :=
  let '(sections, cur) :=
    scan_lines 0 (Str.split_lines text) [] initial_section in
  flush sections cur.

(** The condition of lines 188-190. *)
Definition is_valid (s : section) : bool :=
  (negb (Str.is_empty (Str.strip (title s)))
   && negb (Str.is_empty (Str.strip (content s)))
   && Nat.ltb 10 (List.length (content s)))%bool.

Definition extract_sections (text : str) : list section :=
  List.filter is_valid (candidate_sections text).

End Segmenter.

(** ** Python values, dictionaries and exceptions *)

(** The values a section dictionary or a result record holds. *)
Inductive pyval :=
  | VNone
  | VBool (b : bool)
  | VInt (z : Z)
  | VFloat (f : float)
  | VStr (s : str).

Abbreviation dict := (gmap string pyval).

(** JSON documents, as the schema validator sees a result record. *)
Inductive json :=
  | JNull
  | JBool (b : bool)
  | JInt (z : Z)
  | JFloat (f : float)
  | JStr (s : str)
  | JArr (items : list json)
  | JObj (fields : list (string * json)).

(** One violation of a schema: where it is, and the keyword violated. *)
Inductive keyword :=
  | KwType
  | KwRequired (name : string)
  | KwEnum
  | KwMinimum
  | KwMaximum
  | KwMinLength.

Inductive path_step :=
  | InProperty (name : string)
  | InItem (index : nat).

Record schema_error := mk_schema_error {
  error_path : list path_step;
  error_keyword : keyword
}.

Inductive exn :=
  | KeyError (key : string)
  | AttributeError (attr : string)
  | TypeError
  | DanglingReference
  | ValidationError (e : schema_error).

(** The outcome of a call: a value, or a raised exception. *)
Inductive result (A : Type) :=
  | Ok (a : A)
  | Raise (e : exn).

Arguments Ok {A} a.
Arguments Raise {A} e.

(** Sequencing: an exception ends the computation. *)
#[global] Instance result_bind : MBind result :=
  fun A B (k : A -> result B) (r : result A) =>
    match r with
    | Ok a => k a
    | Raise e => Raise e
    end.

(** [d[key]]. *)
Definition getitem (d : dict) (key : string) : result pyval :=
  match d !! key with
  | Some v => Ok v
  | None => Raise (KeyError key)
  end.

(** [v.lower()] and [v.strip()]: only a [str] has the method. *)
Definition method_lower (v : pyval) : result str :=
  match v with
  | VStr s => Ok (Str.lower s)
  | _ => Raise (AttributeError "lower")
  end.

Definition method_strip (v : pyval) : result str :=
  match v with
  | VStr s => Ok (Str.strip s)
  | _ => Raise (AttributeError "strip")
  end.

(** [len(v)]: of the values modelled, only a [str] has a length. *)
Definition len (v : pyval) : result nat :=
  match v with
  | VStr s => Ok (List.length s)
  | _ => Raise TypeError
  end.

(** ** Floats *)

Module Float64.

(** [float(n)] for a count [n]: counts are lengths, below [2^63]. *)
Definition of_nat (n : nat) : float :=
  PrimFloat.of_uint63 (Uint63.of_Z (Z.of_nat n)).

(** Python's [min(a, b)]: the first argument unless the second is smaller. *)
Definition min (a b : float) : float :=
  if PrimFloat.ltb b a then b else a.

(** The integer nearest to [num / den], ties to the even one ([den > 0]). *)
Definition div_half_even (num den : Z) : Z :=
  let q := num / den in
  let r := num mod den in
  match 2 * r ?= den with
  | Lt => q
  | Gt => q + 1
  | Eq => if Z.even q then q else q + 1
  end.

(** The integer nearest to [100 * m * 2^e], ties to even: the digits of the
    shortest decimal with two places that rounds the exact value. *)
Definition hundredths (m : positive) (e : Z) : Z :=
  match e with
  | Zneg p => div_half_even (100 * Zpos m) (2 ^ Zpos p)
  | _ => 100 * Zpos m * 2 ^ e
  end.

(** [round(x, 2)] on a float: the exact value is rounded to two decimal
    places, ties to even, and the decimal [n / 100] is converted back to
    the nearest float.  Zeros, infinities and NaN are returned as they are. *)
Definition round2 (x : float) : float :=
  match Prim2SF x with
  | S754_finite s m e =>
      match hundredths m e with
      | Zpos n =>
          SF2Prim (SFdiv prec emax (S754_finite s n 0)
                                   (S754_finite false 100 0))
      | _ => if s then PrimFloat.neg_zero else PrimFloat.zero
      end
  | _ => x
  end.

End Float64.

(** ** Persona scorer ([calculate_section_score], lines 195-237) *)

Module Scorer.

Record persona_config := mk_persona {
  keywords : list str;
  priority_sections : list str
}.

(** [self.personas], lines 36-53. *)
Definition executive : persona_config :=
  mk_persona
    (List.map lit ["strategy"; "business"; "revenue"; "growth"; "market";
                   "leadership"; "vision"]%string)
    (List.map lit ["executive summary"; "business model"; "market analysis";
                   "financial projections"]%string).

Definition technical : persona_config :=
  mk_persona
    (List.map lit ["technology"; "implementation"; "architecture"; "code";
                   "development"; "technical"; "api"]%string)
    (List.map lit ["technical architecture"; "implementation details";
                   "code examples"; "system design"]%string).

Definition marketing : persona_config :=
  mk_persona
    (List.map lit ["marketing"; "brand"; "customer"; "user"; "growth";
                   "acquisition"; "engagement"]%string)
    (List.map lit ["marketing strategy"; "user acquisition";
                   "customer journey"; "brand positioning"]%string).

Definition investor : persona_config :=
  mk_persona
    (List.map lit ["investment"; "funding"; "financial"; "roi"; "valuation";
                   "exit"; "returns"]%string)
    (List.map lit ["financial projections"; "business model";
                   "market opportunity"; "investment thesis"]%string).

Definition personas : gmap string persona_config :=
  <["executive" := executive]>
    (<["technical" := technical]>
       (<["marketing" := marketing]>
          (<["investor" := investor]> ∅))).

(** Lines 215-219: 0.3 for every keyword found in the lower-cased title. *)
Definition title_score (kws : list str) (title_lower : str) : float :=
  fold_left
    (fun score keyword =>
       if Str.contains (Str.lower keyword) title_lower
       then (score + 0.3)%float else score)
    kws 0%float.

(** Lines 223-227: per keyword, a tenth per occurrence, capped at 0.5. *)
Definition content_score (kws : list str) (content_lower : str) : float :=
  fold_left
    (fun score keyword =>
       let count := Str.count (Str.lower keyword) content_lower in
       (score + Float64.min (Float64.of_nat count * 0.1) 0.5)%float)
    kws 0%float.

(** Lines 230-234: the loop leaves at the first phrase found in the title. *)
Fixpoint priority_bonus (phrases : list str) (title_lower : str) : float :=
  match phrases with
  | [] => 0%float
  | phrase :: rest =>
      if Str.contains (Str.lower phrase) title_lower
      then 0.2%float
      else priority_bonus rest title_lower
  end.

Definition total_score (cfg : persona_config) (title_lower content_lower : str)
    : float :=
  Float64.min
    (title_score (keywords cfg) title_lower
     + content_score (keywords cfg) content_lower
     + priority_bonus (priority_sections cfg) title_lower)%float
    1%float.

Definition calculate_section_score (section : dict) (persona : string)
    : result float :=
  match personas !! persona with
  | None => Ok 0%float
  | Some cfg =>
      title ← getitem section "title";
      title_lower ← method_lower title;
      content ← getitem section "content";
      content_lower ← method_lower content;
      Ok (total_score cfg title_lower content_lower)
  end.

End Scorer.

(** ** Ranker ([prioritize_sections], lines 239-267) *)

(** Dictionaries are objects: a list of sections holds references, and
    [section.copy()] makes a new object.  The heap is the sequence of all
    dictionaries allocated so far; a reference is an index into it. *)
Abbreviation heap := (list dict).
Abbreviation ref := nat.

Module Heap.

Definition read (h : heap) (r : ref) : result dict :=
  match h !! r with
  | Some d => Ok d
  | None => Raise DanglingReference
  end.

(** A new object holding [d]; its reference is the next free index. *)
Definition alloc (h : heap) (d : dict) : ref * heap :=
  (List.length h, h ++ [d]).

(** [h[r][key] = v]. *)
Definition setitem (h : heap) (r : ref) (key : string) (v : pyval)
    : result heap :=
  d ← read h r;
  Ok (<[r := <[key := v]> d]> h).

End Heap.

Module Ranker.

(** Lines 252-256: score each section, copy it, store the score in the copy
    and append the copy. *)
Fixpoint score_loop (persona : string) (sections : list ref)
    (scored : list ref) (h : heap) : result (list ref * heap) :=
  match sections with
  | [] => Ok (scored, h)
  | section :: rest =>
      d ← Heap.read h section;
      score ← Scorer.calculate_section_score d persona;
      let '(scored_section, h) := Heap.alloc h d in
      h ← Heap.setitem h scored_section "relevance_score" (VFloat score);
      score_loop persona rest (scored ++ [scored_section]) h
  end.

(** The sort key [lambda x: x["relevance_score"]], also read by
    [float(section["relevance_score"])] in line 265.  The scores are
    floats; Python compares them with [<]. *)
Definition sort_key (h : heap) (r : ref) : result float :=
  d ← Heap.read h r;
  v ← getitem d "relevance_score";
  match v with
  | VFloat f => Ok f
  | _ => Raise TypeError
  end.

Fixpoint sort_keys (h : heap) (rs : list ref) : result (list (float * ref)) :=
  match rs with
  | [] => Ok []
  | r :: rest =>
      k ← sort_key h r;
      ks ← sort_keys h rest;
      Ok ((k, r) :: ks)
  end.

(** [list.sort(key=..., reverse=True)] is a stable sort by decreasing key
    that compares keys with [<] only: an element stays behind the earlier
    elements that are not smaller than it.  The keys of this program are
    never NaN, [<] is then a strict weak order and every stable sort returns
    the same list; it is written here as a stable insertion sort (the
    algorithm the interpreter itself uses on short lists). *)
Fixpoint insert_desc (x : float * ref) (sorted : list (float * ref))
    : list (float * ref) :=
  match sorted with
  | [] => [x]
  | y :: rest =>
      if PrimFloat.ltb (fst y) (fst x)
      then x :: y :: rest
      else y :: insert_desc x rest
  end.

Definition sort_desc (l : list (float * ref)) : list (float * ref) :=
  fold_left (fun sorted x => insert_desc x sorted) l [].

(** Lines 262-265: rank and rounded score, written into each object. *)
Fixpoint rank_loop (i : nat) (scored : list ref) (h : heap) : result heap :=
  match scored with
  | [] => Ok h
  | section :: rest =>
      h ← Heap.setitem h section "importance_rank" (VInt (Z.of_nat i + 1));
      score ← sort_key h section;
      h ← Heap.setitem h section "relevance_score"
            (VFloat (Float64.round2 score));
      rank_loop (S i) rest h
  end.

Definition prioritize_sections (sections : list ref) (persona : string)
    (h : heap) : result (list ref * heap) :=
  '(scored, h) ← score_loop persona sections [] h;
  keyed ← sort_keys h scored;
  let scored := List.map snd (sort_desc keyed) in
  h ← rank_loop 0 scored h;
  Ok (scored, h).

End Ranker.

(** ** Result validator ([validate_sections], lines 269-320) *)

Module Validator.

(** The messages of the two validators; [i] is the section number [i+1]
    the message prints.  Each constructor stands for one f-string. *)
Inductive message :=
  | MissingField (i : nat) (field : string)
  | RankNotInteger (i : nat)
  | ScoreNotNumber (i : nat)
  | ScoreOutOfRange (i : nat)
  | PageNotPositiveInteger (i : nat)
  | TitleTooShort (i : nat)
  | ContentTooShort (i : nat)
  | RanksNotSequential
  | JsonSchemaValidationError (e : schema_error)
  | OtherValidationError (e : exn).

Definition required_fields : list string :=
  ["title"; "content"; "page_number"; "importance_rank"; "relevance_score"]%string.

Definition has_key (d : dict) (key : string) : bool :=
  match d !! key with Some _ => true | None => false end.

(** [isinstance(v, int)] holds of integers and of booleans; the value is
    the integer a set of ranks stores for it. *)
Definition as_int (v : pyval) : option Z :=
  match v with
  | VInt z => Some z
  | VBool b => Some (Z.b2z b)
  | _ => None
  end.

(** Lines 288-290. *)
Definition check_required (i : nat) (section : dict) : list message :=
  List.map (MissingField i)
    (List.filter (fun field => negb (has_key section field)) required_fields).

(** Lines 293-297. *)
Definition check_rank (i : nat) (section : dict) (actual_ranks : gset Z)
    : list message * gset Z :=
  match section !! "importance_rank" with
  | None => ([], actual_ranks)
  | Some v =>
      match as_int v with
      | None => ([RankNotInteger i], actual_ranks)
      | Some z => ([], {[ z ]} ∪ actual_ranks)
      end
  end.

(** Lines 299-303. *)
Definition check_score (i : nat) (section : dict) : list message :=
  match section !! "relevance_score" with
  | None => []
  | Some v =>
      match v with
      | VFloat f =>
          if (PrimFloat.leb 0 f && PrimFloat.leb f 1)%bool then []
          else [ScoreOutOfRange i]
      | _ =>
          match as_int v with
          | Some z => if (Z.leb 0 z && Z.leb z 1)%bool then []
                      else [ScoreOutOfRange i]
          | None => [ScoreNotNumber i]
          end
      end
  end.

(** Lines 305-307. *)
Definition check_page (i : nat) (section : dict) : list message :=
  match section !! "page_number" with
  | None => []
  | Some v =>
      match as_int v with
      | Some z => if Z.ltb z 1 then [PageNotPositiveInteger i] else []
      | None => [PageNotPositiveInteger i]
      end
  end.

(** Lines 310-314: [v.strip()] is called on whatever the field holds. *)
Definition check_text (key : string) (min_len : nat) (msg : message)
    (section : dict) : result (list message) :=
  match section !! key with
  | None => Ok []
  | Some v =>
      stripped ← method_strip v;
      length ← len v;
      if (Str.is_empty stripped || Nat.ltb length min_len)%bool
      then Ok [msg] else Ok []
  end.

(** The body of the loop of lines 285-314 for section number [i]. *)
Definition check_section (i : nat) (section : dict) (actual_ranks : gset Z)
    : result (list message * gset Z) :=
  let missing := check_required i section in
  let '(rank_errors, actual_ranks) := check_rank i section actual_ranks in
  let score_errors := check_score i section in
  let page_errors := check_page i section in
  title_errors ← check_text "title" 2 (TitleTooShort i) section;
  content_errors ← check_text "content" 10 (ContentTooShort i) section;
  Ok (missing ++ rank_errors ++ score_errors ++ page_errors
      ++ title_errors ++ content_errors, actual_ranks).

Fixpoint check_sections (i : nat) (sections : list dict)
    (errors : list message) (actual_ranks : gset Z)
    : result (list message * gset Z) :=
  match sections with
  | [] => Ok (errors, actual_ranks)
  | section :: rest =>
      '(found, actual_ranks) ← check_section (S i) section actual_ranks;
      check_sections (S i) rest (errors ++ found) actual_ranks
  end.

(** [set(range(1, n + 1))]. *)
Definition expected_ranks (n : nat) : gset Z :=
  list_to_set (List.map (fun k => Z.of_nat k) (seq 1 n)).

Definition validate_sections (sections : list dict) : result (list message) :=
  '(errors, actual_ranks) ← check_sections 0 sections [] ∅;
  if bool_decide (expected_ranks (List.length sections) = actual_ranks)
  then Ok errors
  else Ok (errors ++ [RanksNotSequential]).

End Validator.

(** ** Schema validation ([validate_json_structure], lines 322-341) *)

Module JsonSchema.

Inductive jtype := TObject | TString | TInteger | TNumber | TArray.

(** The keywords [self.json_schema] uses (lines 56-80).  [format] is an
    annotation only: the call passes no format checker. *)
Inductive schema :=
  | Schema (type : option jtype)
           (required : list string)
           (properties : list (string * schema))
           (items : option schema)
           (enum : option (list str))
           (minimum maximum : option Z)
           (min_length : option nat).

Definition leaf (type : jtype) : schema :=
  Schema (Some type) [] [] None None None None None.

Definition section_schema : schema :=
  Schema (Some TObject)
    ["title"; "content"; "page_number"; "importance_rank"; "relevance_score"]%string
    [("title", Schema (Some TString) [] [] None None None None (Some 1%nat));
     ("content", Schema (Some TString) [] [] None None None None (Some 1%nat));
     ("page_number", Schema (Some TInteger) [] [] None None (Some 1) None None);
     ("importance_rank",
       Schema (Some TInteger) [] [] None None (Some 1) None None);
     ("relevance_score",
       Schema (Some TNumber) [] [] None None (Some 0) (Some 1) None)]%string
    None None None None None.

Definition json_schema : schema :=
  Schema (Some TObject)
    ["document"; "persona"; "job_to_be_done"; "processing_timestamp";
     "total_sections"; "sections"]%string
    [("document", leaf TString);
     ("persona",
       Schema (Some TString) [] [] None
         (Some (List.map lit
                  ["executive"; "technical"; "marketing"; "investor"]%string))
         None None None);
     ("job_to_be_done", leaf TString);
     ("processing_timestamp", leaf TString);
     ("total_sections",
       Schema (Some TInteger) [] [] None None (Some 0) None None);
     ("sections",
       Schema (Some TArray) [] [] (Some section_schema) None None None None)
    ]%string
    None None None None None.

Fixpoint lookup_field (name : string) (fields : list (string * json))
    : option json :=
  match fields with
  | [] => None
  | (k, v) :: rest => if String.eqb k name then Some v else lookup_field name rest
  end.

(** [f.is_integer()]: a finite float without fractional part. *)
Definition float_is_integer (f : float) : bool :=
  match Prim2SF f with
  | S754_zero _ => true
  | S754_finite _ m (Zneg p) => Z.eqb (Zpos m mod 2 ^ Zpos p) 0
  | S754_finite _ _ _ => true
  | _ => false
  end.

(** The type checks of the validator: a boolean is neither an integer nor
    a number; a float without fractional part is an integer. *)
Definition has_type (t : jtype) (v : json) : bool :=
  match t, v with
  | TObject, JObj _ => true
  | TString, JStr _ => true
  | TInteger, JInt _ => true
  | TInteger, JFloat f => float_is_integer f
  | TNumber, JInt _ => true
  | TNumber, JFloat _ => true
  | TArray, JArr _ => true
  | _, _ => false
  end.

Definition below (bound : Z) (v : json) : bool :=
  match v with
  | JInt z => Z.ltb z bound
  | JFloat f => PrimFloat.ltb f (PrimFloat.of_uint63 (Uint63.of_Z bound))
  | _ => false
  end.

Definition above (bound : Z) (v : json) : bool :=
  match v with
  | JInt z => Z.ltb bound z
  | JFloat f => PrimFloat.ltb (PrimFloat.of_uint63 (Uint63.of_Z bound)) f
  | _ => false
  end.

Definition str_eqb (a b : str) : bool :=
  bool_decide (a = b).

Definition when {A : Type} (b : bool) (x : A) : list A :=
  if b then [x] else [].

(** All violations of schema [s] by [v], each with its path: what
    [iter_errors] yields, keyword by keyword in the order of the schema. *)
Fixpoint iter_errors (s : schema) (path : list path_step) (v : json)
    {struct s} : list schema_error :=
  match s with
  | Schema type required properties items enum minimum maximum min_length =>
      let err := mk_schema_error path in
      match type with
      | Some t => when (negb (has_type t v)) (err KwType)
      | None => []
      end
      ++ match v with
         | JObj fields =>
             List.map (fun name => err (KwRequired name))
               (List.filter
                  (fun name =>
                     match lookup_field name fields with
                     | Some _ => false
                     | None => true
                     end)
                  required)
             ++ (fix in_properties (ps : list (string * schema)) :=
                   match ps with
                   | [] => []
                   | (name, sub) :: ps' =>
                       match lookup_field name fields with
                       | Some v' =>
                           iter_errors sub (path ++ [InProperty name]) v'
                       | None => []
                       end ++ in_properties ps'
                   end) properties
         | _ => []
         end
      ++ match items, v with
         | Some sub, JArr elements =>
             (fix in_items (i : nat) (vs : list json) :=
                match vs with
                | [] => []
                | v' :: vs' =>
                    iter_errors sub (path ++ [InItem i]) v'
                    ++ in_items (S i) vs'
                end) 0%nat elements
         | _, _ => []
         end
      ++ match enum, v with
         | Some allowed, JStr x =>
             when (negb (List.existsb (str_eqb x) allowed)) (err KwEnum)
         | Some _, _ => [err KwEnum]
         | None, _ => []
         end
      ++ match minimum with
         | Some bound => when (below bound v) (err KwMinimum)
         | None => []
         end
      ++ match maximum with
         | Some bound => when (above bound v) (err KwMaximum)
         | None => []
         end
      ++ match min_length, v with
         | Some n, JStr x => when (Nat.ltb (List.length x) n) (err KwMinLength)
         | _, _ => []
         end
  end.

Section Validate.

(** [jsonschema.validate] raises one error, the one its relevance
    heuristic ranks best among all violations; the heuristic is the
    library's and is left open here. *)
Variable best_match : schema_error -> list schema_error -> schema_error.

Definition validate (instance : json) (s : schema) : result unit :=
  match iter_errors s [] instance with
  | [] => Ok tt
  | e :: es => Raise (ValidationError (best_match e es))
  end.

(** Lines 332-341: the [try] with its two handlers. *)
Definition validate_json_structure (data : json)
    : result (list Validator.message) :=
  match validate data json_schema with
  | Ok _ => Ok []
  | Raise (ValidationError e) => Ok [Validator.JsonSchemaValidationError e]
  | Raise e => Ok [Validator.OtherValidationError e]
  end.

End Validate.

End JsonSchema.

(** ** The pipeline for one document ([process_document], lines 343-394) *)

Module Pipeline.

Record result_record := mk_record {
  document : str;
  persona : string;
  job_to_be_done : str;
  processing_timestamp : str;
  total_sections : Z;
  sections : list ref
}.

(** What [process_document] returns: the error dictionary of line 359, or
    the result record of lines 378-385.  [warnings] are the validation
    messages it prints. *)
Inductive outcome :=
  | ErrorResult (document : str)
  | ResultRecord (r : result_record) (warnings : list Validator.message).

(** The dictionary object of a segmenter section. *)
Definition section_dict (s : Segmenter.section) : dict :=
  <["title" := VStr (Segmenter.title s)]>
    (<["content" := VStr (Segmenter.content s)]>
       (<["page_number" := VInt (Segmenter.page_number s)]> ∅)).

(** The segmenter's sections as objects of the heap, in order. *)
Fixpoint alloc_all (h : heap) (ds : list dict) : list ref * heap :=
  match ds with
  | [] => ([], h)
  | d :: rest =>
      let '(r, h) := Heap.alloc h d in
      let '(rs, h) := alloc_all h rest in
      (r :: rs, h)
  end.

Fixpoint read_all (h : heap) (rs : list ref) : result (list dict) :=
  match rs with
  | [] => Ok []
  | r :: rest =>
      d ← Heap.read h r;
      ds ← read_all h rest;
      Ok (d :: ds)
  end.

Definition value_json (v : pyval) : json :=
  match v with
  | VNone => JNull
  | VBool b => JBool b
  | VInt z => JInt z
  | VFloat f => JFloat f
  | VStr s => JStr s
  end.

Definition dict_json (d : dict) : json :=
  JObj (List.map (fun kv => (fst kv, value_json (snd kv))) (map_to_list d)).

Definition record_json (r : result_record) (section_dicts : list dict) : json :=
  JObj [("document", JStr (document r));
        ("persona", JStr (lit (persona r)));
        ("job_to_be_done", JStr (job_to_be_done r));
        ("processing_timestamp", JStr (processing_timestamp r));
        ("total_sections", JInt (total_sections r));
        ("sections", JArr (List.map dict_json section_dicts))]%string.

Section Process.

Variable best_match : schema_error -> list schema_error -> schema_error.

(** [name] is [pdf_path.name], [text] what the reader extracted from the
    file and [now] the timestamp [datetime.now().isoformat()]. *)
Definition process_document (name text now : str) (persona : string)
    (h : heap) : result (outcome * heap) :=
  if Str.is_empty text then Ok (ErrorResult name, h)
  else
    let sections := Segmenter.extract_sections text in
    let '(section_refs, h) := alloc_all h (List.map section_dict sections) in
    '(prioritized_sections, h) ←
      Ranker.prioritize_sections section_refs persona h;
    let top_sections := take 10 prioritized_sections in
    top_dicts ← read_all h top_sections;
    section_errors ← Validator.validate_sections top_dicts;
    let results :=
      mk_record name persona
        (lit "Prioritize document sections for " ++ lit persona
         ++ lit " persona based on relevance and importance")
        now
        (Z.of_nat (List.length sections))
        top_sections in
    json_errors ←
      JsonSchema.validate_json_structure best_match
        (record_json results top_dicts);
    Ok (ResultRecord results (section_errors ++ json_errors), h).

End Process.

End Pipeline.

(** ** Files: the reader and the batch run
    ([extract_text_from_pdf], lines 82-101; [process_document] from its
    file, lines 355-359; [process_all_documents], lines 396-431) *)

Module Files.
Import Pipeline.

(** What the PDF library gives for a file: opening it raises or yields
    its pages, and [extract_text] of a page raises or yields its text.
    [None] stands for an exception, of whatever kind. *)
Abbreviation page := (option str).
Abbreviation pdf := (option (list page)).

(** The loop of lines 95-97: the text of each page and a line feed are
    appended; an exception leaves the loop. *)
Fixpoint read_pages (pages : list page) (text : str) : option str :=
  match pages with
  | [] => Some text
  | page :: rest =>
      match page with
      | Some page_text => read_pages rest (text ++ page_text ++ [Chars.newline])
      | None => None
      end
  end.

(** Lines 92-101: every exception is caught, and the empty string is
    returned in its place. *)
Definition extract_text_from_pdf (file : pdf) : str :=
  match file with
  | Some pages =>
      match read_pages pages [] with
      | Some text => text
      | None => []
      end
  | None => []
  end.

(** An entry of the input directory: its name and what reading it gives. *)
Record pdf_file := mk_pdf_file {
  name : str;
  contents : pdf
}.

(** [name.rfind('.')], when there is a dot. *)
Fixpoint rfind_dot (s : str) : option nat :=
  match s with
  | [] => None
  | c :: s' =>
      match rfind_dot s' with
      | Some i => Some (S i)
      | None => if Chars.eqb c Chars.dot then Some 0%nat else None
      end
  end.

(** [pdf_path.stem]: the name up to its last dot, unless that dot comes
    first or last. *)
Definition stem (name : str) : str :=
  match rfind_dot name with
  | Some i =>
      if (Nat.ltb 0 i && Nat.ltb i (List.length name - 1))%bool
      then take i name else name
  | None => name
  end.

(** The two file names of lines 421 and 426, inside the output
    directory. *)
Definition output_file (pdf : pdf_file) (persona : string) : str :=
  stem (name pdf) ++ lit "_" ++ lit persona ++ lit "_prioritized.json".

Definition combined_output (persona : string) : str :=
  lit "all_documents_" ++ lit persona ++ lit "_prioritized.json".

(** The dictionary of line 359. *)
Definition error_json (name : str) : json :=
  JObj [("error"%string, JStr (lit "Could not extract text from " ++ name))].

(** The value [json.dump] writes for a result: the sections are written
    as the objects hold them at that moment. *)
Definition dump (h : heap) (res : outcome) : result json :=
  match res with
  | ErrorResult name => Ok (error_json name)
  | ResultRecord r _ =>
      section_dicts ← read_all h (sections r);
      Ok (record_json r section_dicts)
  end.

Fixpoint dump_all (h : heap) (results : list outcome)
    : result (list json) :=
  match results with
  | [] => Ok []
  | res :: rest =>
      j ← dump h res;
      js ← dump_all h rest;
      Ok (j :: js)
  end.

(** The files written, in the order of the writes: the name inside the
    output directory and the value dumped.  [open(.., 'w')] replaces a
    file of the same name. *)
Abbreviation written := (list (str * json)).

Fixpoint file_content (files : written) (path : str) : option json :=
  match files with
  | [] => None
  | (p, j) :: rest =>
      match file_content rest path with
      | Some later => Some later
      | None => if bool_decide (p = path) then Some j else None
      end
  end.

(** What ends a batch run before its [return]: an exception of the
    pipeline, or the [OSError] of a write the system refuses. *)
Inductive batch_exn :=
  | Raised (e : exn)
  | OSError (path : str).

Inductive batch (A : Type) :=
  | Done (a : A)
  | Abort (e : batch_exn).

Arguments Done {A} a.
Arguments Abort {A} e.

Section Run.

Variable best_match : schema_error -> list schema_error -> schema_error.

(** [clock i] is what [datetime.now().isoformat()] gives while the file
    at position [i] is processed. *)
Variable clock : nat -> str.

(** The file system decides whether [open(path, 'w')] and the
    [json.dump] into the file succeed: a name it cannot create (a persona
    with a slash in it, a name that is too long), a directory that is
    gone or a full disk make them raise [OSError], and the source has no
    handler.  [can_write files path j] tells whether, after the writes
    [files], the write of [j] to [path] succeeds. *)
Variable can_write : written -> str -> json -> bool.

(** [process_document] as the source has it, from the file: the text is
    what the reader extracts (lines 355-359). *)
Definition process_document (pdf : pdf_file) (now : str) (persona : string)
    (h : heap) : result (outcome * heap) :=
  Pipeline.process_document best_match (name pdf)
    (extract_text_from_pdf (contents pdf)) now persona h.

(** Lines 421-422 and 426-427: [with open(path, 'w') as f: json.dump(..)]. *)
Definition write (files : written) (path : str) (j : json) : batch written :=
  if can_write files path j then Done (files ++ [(path, j)])
  else Abort (OSError path).

(** The loop of lines 415-423 over [pdf_files], from position [i]. *)
Fixpoint documents_loop (i : nat) (pdf_files : list pdf_file)
    (persona : string) (results : list outcome) (h : heap) (files : written)
    : batch (list outcome * heap * written) :=
  match pdf_files with
  | [] => Done (results, h, files)
  | pdf_path :: rest =>
      match process_document pdf_path (clock i) persona h with
      | Raise e => Abort (Raised e)
      | Ok (res, h) =>
          let results := results ++ [res] in
          match dump h res with
          | Raise e => Abort (Raised e)
          | Ok j =>
              match write files (output_file pdf_path persona) j with
              | Abort e => Abort e
              | Done files =>
                  documents_loop (S i) rest persona results h files
              end
          end
      end
  end.

(** [pdf_files] is what [glob] found in the input directory. *)
Definition process_all_documents (pdf_files : list pdf_file)
    (persona : string) (h : heap)
    : batch (list outcome * heap * written) :=
  match pdf_files with
  | [] => Done ([], h, [])
  | _ =>
      match documents_loop 0 pdf_files persona [] h [] with
      | Abort e => Abort e
      | Done (results, h, files) =>
          match dump_all h results with
          | Raise e => Abort (Raised e)
          | Ok js =>
              match write files (combined_output persona) (JArr js) with
              | Abort e => Abort e
              | Done files => Done (results, h, files)
              end
          end
      end
  end.

End Run.

End Files.

(** * Properties *)

(** ** Characters *)

Module CharFacts.
Import Chars.

Lemma eqb_eq (a b : ascii) : eqb a b = true <-> a = b.
Proof. apply Ascii.eqb_eq. Qed.

Lemma eqb_refl (a : ascii) : eqb a a = true.
Proof. apply Ascii.eqb_refl. Qed.

Lemma punct_not_space (c : ascii) : is_punct c = true -> is_space c = false.
Proof.
  unfold is_punct. rewrite !orb_true_iff, !eqb_eq.
  intros H. repeat destruct H as [H | H]; subst c; reflexivity.
Qed.

End CharFacts.

Module NormalizerFacts.
Import Normalizer.

(** No two neighbours of [s] are related by [P]. *)
Fixpoint no_pair (P : ascii -> ascii -> bool) (s : str) : bool :=
  match s with
  | x :: s' =>
      match s' with
      | y :: _ => negb (P x y) && no_pair P s'
      | [] => true
      end
  | [] => true
  end.

(** Whitespace followed by whitespace; by whitespace or a punctuation mark;
    by a punctuation mark. *)
Definition ws_ws (x y : ascii) : bool := Chars.is_space x && Chars.is_space y.

Definition ws_mark (x y : ascii) : bool :=
  Chars.is_space x && (Chars.is_space y || Chars.is_punct y).

Definition ws_punct (x y : ascii) : bool :=
  Chars.is_space x && Chars.is_punct y.

(** A mark [m] followed by itself. *)
Definition twice (m x y : ascii) : bool := Chars.eqb x m && Chars.eqb y m.

(** A character the normalizer can leave behind: allowed, and a plain space
    when it is whitespace. *)
Definition plain (c : ascii) : bool :=
  Chars.is_allowed c && (negb (Chars.is_space c) || Chars.eqb c Chars.space).

(** The shape of a normalized text: plain characters, no whitespace at
    either end, none doubled and none in front of a punctuation mark. *)
Definition tidy (s : str) : bool :=
  forallb plain s
  && no_pair ws_ws (Chars.space :: s)
  && no_pair ws_mark (s ++ [Chars.space]).

Lemma no_pair_cons P x y s :
  no_pair P (x :: y :: s) = negb (P x y) && no_pair P (y :: s).
Proof. reflexivity. Qed.

Lemma no_pair_tail P x s : no_pair P (x :: s) = true -> no_pair P s = true.
Proof.
  destruct s as [|y s]; [reflexivity|].
  rewrite no_pair_cons, andb_true_iff. tauto.
Qed.

Lemma no_pair_app_l P a b : no_pair P (a ++ b) = true -> no_pair P a = true.
Proof.
  induction a as [|x a IH]; [reflexivity|].
  destruct a as [|y a]; [reflexivity|].
  simpl app. rewrite !no_pair_cons, !andb_true_iff.
  intros [H1 H2]. split; [exact H1|]. apply IH. exact H2.
Qed.

Lemma no_pair_app_r P a b : no_pair P (a ++ b) = true -> no_pair P b = true.
Proof.
  induction a as [|x a IH]; [tauto|].
  intros H. apply IH. eapply no_pair_tail. exact H.
Qed.

Lemma no_pair_weaken (P Q : ascii -> ascii -> bool) s :
  (forall x y, Q x y = true -> P x y = true) ->
  no_pair P s = true -> no_pair Q s = true.
Proof.
  intros HPQ. induction s as [|x s IH]; [reflexivity|].
  destruct s as [|y s]; [reflexivity|].
  rewrite !no_pair_cons, !andb_true_iff, !negb_true_iff.
  intros [H1 H2]. split; [|apply IH; exact H2].
  destruct (Q x y) eqn:E; [|reflexivity].
  apply HPQ in E. congruence.
Qed.

Lemma ws_ws_mark x y : ws_ws x y = true -> ws_mark x y = true.
Proof.
  unfold ws_ws, ws_mark. rewrite !andb_true_iff, orb_true_iff. tauto.
Qed.

Lemma ws_punct_mark x y : ws_punct x y = true -> ws_mark x y = true.
Proof.
  unfold ws_punct, ws_mark. rewrite !andb_true_iff, orb_true_iff. tauto.
Qed.

(** *** Steps that leave a tidy text alone *)

Lemma lstrip_fixed s :
  no_pair ws_ws (Chars.space :: s) = true -> Str.lstrip s = s.
Proof.
  destruct s as [|c s]; [reflexivity|].
  rewrite no_pair_cons, andb_true_iff, negb_true_iff. intros [H _].
  unfold ws_ws in H. simpl in H. simpl. rewrite H. reflexivity.
Qed.

Lemma rstrip_fixed s :
  no_pair ws_mark (s ++ [Chars.space]) = true -> Str.rstrip s = s.
Proof.
  induction s as [|c s IH]; [reflexivity|].
  intros H. simpl. rewrite IH by (eapply no_pair_tail; exact H).
  destruct s as [|y s]; [|reflexivity].
  simpl app in H. rewrite no_pair_cons, andb_true_iff, negb_true_iff in H.
  destruct H as [H _]. unfold ws_mark in H. simpl in H.
  rewrite andb_true_r in H. rewrite H. reflexivity.
Qed.

Lemma strip_fixed s : tidy s = true -> Str.strip s = s.
Proof.
  unfold tidy. rewrite !andb_true_iff. intros [[_ H1] H2].
  unfold Str.strip. rewrite (lstrip_fixed _ H1). apply rstrip_fixed, H2.
Qed.

Lemma plain_space c :
  plain c = true -> Chars.is_space c = true -> c = Chars.space.
Proof.
  unfold plain. rewrite andb_true_iff, orb_true_iff, negb_true_iff.
  intros [_ [H|H]] Hs; [congruence|]. apply CharFacts.eqb_eq, H.
Qed.

Lemma sub_ws_runs_after x s :
  forallb plain s = true -> no_pair ws_ws (x :: s) = true ->
  sub_ws_runs (Chars.is_space x) s = s.
Proof.
  revert x. induction s as [|c s IH]; [reflexivity|].
  intros x Hp Hn. simpl in Hp. apply andb_true_iff in Hp as [Hc Hp].
  rewrite no_pair_cons, andb_true_iff, negb_true_iff in Hn.
  destruct Hn as [Hxc Hn]. simpl.
  destruct (Chars.is_space c) eqn:Ec.
  - unfold ws_ws in Hxc. rewrite Ec, andb_true_r in Hxc. rewrite Hxc.
    rewrite <- (plain_space c Hc Ec) at 1.
    f_equal. rewrite <- Ec. apply IH; assumption.
  - f_equal. rewrite <- Ec. apply IH; assumption.
Qed.

Lemma sub_ws_runs_fixed s :
  forallb plain s = true -> no_pair ws_ws (Chars.space :: s) = true ->
  sub_ws_runs false s = s.
Proof.
  intros Hp Hn. destruct s as [|c s]; [reflexivity|].
  assert (Ec : Chars.is_space c = false).
  { rewrite no_pair_cons, andb_true_iff, negb_true_iff in Hn.
    destruct Hn as [Hn _]. exact Hn. }
  simpl. rewrite Ec. f_equal. rewrite <- Ec.
  simpl in Hp. apply andb_true_iff in Hp as [_ Hp].
  apply sub_ws_runs_after; [exact Hp|]. eapply no_pair_tail. exact Hn.
Qed.

Lemma remove_disallowed_fixed s :
  forallb plain s = true -> remove_disallowed s = s.
Proof.
  unfold remove_disallowed. induction s as [|c s IH]; [reflexivity|].
  simpl. rewrite andb_true_iff. intros [Hc Hs].
  unfold plain in Hc. apply andb_true_iff in Hc as [Hc _].
  rewrite Hc, IH by exact Hs. reflexivity.
Qed.

Lemma remove_ws_before_punct_fixed s :
  no_pair ws_mark s = true -> remove_ws_before_punct s = s.
Proof.
  induction s as [|c s IH]; [reflexivity|].
  intros H. simpl. rewrite IH by (eapply no_pair_tail; exact H).
  destruct (Chars.is_space c) eqn:Ec; [|reflexivity].
  destruct s as [|y s]; [reflexivity|].
  rewrite no_pair_cons, andb_true_iff, negb_true_iff in H.
  destruct H as [H _]. unfold ws_mark in H. rewrite Ec in H. simpl in H.
  apply orb_false_iff in H as [Hy Hp].
  unfold punct_follows. simpl. rewrite Hy, Hp. reflexivity.
Qed.

Lemma limit_spaces_fixed s :
  no_pair ws_ws s = true -> limit_spaces false s = s.
Proof.
  induction s as [|c s IH]; [reflexivity|].
  intros H. simpl. rewrite IH by (eapply no_pair_tail; exact H).
  destruct (Chars.is_space c) eqn:Ec; [|reflexivity].
  destruct s as [|y s]; [reflexivity|].
  rewrite no_pair_cons, andb_true_iff, negb_true_iff in H.
  destruct H as [H _]. unfold ws_ws in H. rewrite Ec in H. simpl in H.
  rewrite H. reflexivity.
Qed.

(** *** The punctuation substitutions keep a text tidy *)

Lemma collapse_marks_cons m c s :
  collapse_marks m false (c :: s) = c :: collapse_marks m (Chars.eqb c m) s.
Proof.
  simpl. destruct (Chars.eqb c m) eqn:E; [|reflexivity].
  apply CharFacts.eqb_eq in E. subst c. reflexivity.
Qed.

Lemma collapse_marks_pairs P m x s :
  no_pair P (x :: s) = true ->
  no_pair P (x :: collapse_marks m (Chars.eqb x m) s) = true.
Proof.
  revert x. induction s as [|c s IH]; [reflexivity|].
  intros x H. simpl collapse_marks.
  pose proof H as H'. rewrite no_pair_cons, andb_true_iff in H'.
  destruct H' as [Hxc Hcs]. specialize (IH c Hcs).
  destruct (Chars.eqb c m) eqn:Ec.
  - apply CharFacts.eqb_eq in Ec. subst c.
    destruct (Chars.eqb x m) eqn:Ex.
    + apply CharFacts.eqb_eq in Ex. subst x. exact IH.
    + rewrite no_pair_cons, Hxc, IH. reflexivity.
  - rewrite no_pair_cons, Hxc. simpl. exact IH.
Qed.

Lemma collapse_marks_no_pair P m s :
  no_pair P s = true -> no_pair P (collapse_marks m false s) = true.
Proof.
  destruct s as [|c s]; [reflexivity|].
  rewrite collapse_marks_cons. apply collapse_marks_pairs.
Qed.

Lemma collapse_marks_forallb (Q : ascii -> bool) m b s :
  forallb Q s = true -> forallb Q (collapse_marks m b s) = true.
Proof.
  revert b. induction s as [|c s IH]; [reflexivity|].
  intros b. simpl. rewrite andb_true_iff. intros [Hc Hs].
  destruct (Chars.eqb c m) eqn:Ec.
  - apply CharFacts.eqb_eq in Ec. subst c.
    destruct b; simpl; [|rewrite Hc]; apply IH, Hs.
  - simpl. rewrite Hc. apply IH, Hs.
Qed.

Lemma collapse_marks_snoc m b s c :
  Chars.eqb c m = false ->
  collapse_marks m b (s ++ [c]) = collapse_marks m b s ++ [c].
Proof.
  intros Hc. revert b. induction s as [|x s IH]; intros b.
  - simpl. rewrite Hc. reflexivity.
  - simpl. destruct (Chars.eqb x m); [destruct b|]; simpl; rewrite IH;
      reflexivity.
Qed.

Lemma collapse_marks_tidy m s :
  Chars.eqb Chars.space m = false ->
  tidy s = true -> tidy (collapse_marks m false s) = true.
Proof.
  intros Hm. unfold tidy. rewrite !andb_true_iff. intros [[H1 H2] H3].
  repeat split.
  - apply collapse_marks_forallb, H1.
  - rewrite <- Hm. apply collapse_marks_pairs, H2.
  - rewrite <- collapse_marks_snoc by exact Hm.
    apply collapse_marks_no_pair, H3.
Qed.

Lemma collapse_all_tidy s : tidy s = true -> tidy (collapse_all s) = true.
Proof.
  intros H. unfold collapse_all.
  repeat (apply collapse_marks_tidy; [reflexivity|]). exact H.
Qed.

Lemma collapse_marks_once m x s :
  no_pair (twice m) (x :: collapse_marks m (Chars.eqb x m) s) = true.
Proof.
  revert x. induction s as [|c s IH]; [reflexivity|].
  intros x. simpl collapse_marks. specialize (IH c).
  destruct (Chars.eqb c m) eqn:Ec.
  - apply CharFacts.eqb_eq in Ec. subst c.
    destruct (Chars.eqb x m) eqn:Ex.
    + apply CharFacts.eqb_eq in Ex. subst x. exact IH.
    + rewrite no_pair_cons, IH. unfold twice. rewrite Ex. reflexivity.
  - rewrite no_pair_cons, IH. unfold twice. rewrite Ec, andb_false_r.
    reflexivity.
Qed.

Lemma collapse_marks_no_twice m s :
  no_pair (twice m) (collapse_marks m false s) = true.
Proof.
  destruct s as [|c s]; [reflexivity|].
  rewrite collapse_marks_cons. apply collapse_marks_once.
Qed.

Lemma collapse_marks_after m x s :
  no_pair (twice m) (x :: s) = true ->
  collapse_marks m (Chars.eqb x m) s = s.
Proof.
  revert x. induction s as [|c s IH]; [reflexivity|].
  intros x H. rewrite no_pair_cons, andb_true_iff, negb_true_iff in H.
  destruct H as [Hxc Hcs]. specialize (IH c Hcs). simpl.
  destruct (Chars.eqb c m) eqn:Ec.
  - unfold twice in Hxc. rewrite Ec, andb_true_r in Hxc. rewrite Hxc.
    apply CharFacts.eqb_eq in Ec. subst c. rewrite IH. reflexivity.
  - rewrite IH. reflexivity.
Qed.

Lemma collapse_marks_fixed m s :
  no_pair (twice m) s = true -> collapse_marks m false s = s.
Proof.
  destruct s as [|c s]; [reflexivity|]. intros H.
  rewrite collapse_marks_cons, collapse_marks_after by exact H. reflexivity.
Qed.

Lemma collapse_all_fixed s : collapse_all (collapse_all s) = collapse_all s.
Proof.
  unfold collapse_all.
  set (s1 := collapse_marks Chars.dot false s).
  set (s2 := collapse_marks Chars.bang false s1).
  set (s3 := collapse_marks Chars.question false s2).
  assert (H1 : no_pair (twice Chars.dot) s3 = true).
  { do 2 apply collapse_marks_no_pair. apply collapse_marks_no_twice. }
  assert (H2 : no_pair (twice Chars.bang) s3 = true).
  { apply collapse_marks_no_pair. apply collapse_marks_no_twice. }
  assert (H3 : no_pair (twice Chars.question) s3 = true).
  { apply collapse_marks_no_twice. }
  rewrite (collapse_marks_fixed Chars.dot s3 H1).
  rewrite (collapse_marks_fixed Chars.bang s3 H2).
  apply (collapse_marks_fixed Chars.question s3 H3).
Qed.

(** *** Every normalized text is tidy *)

Definition ws_plain (c : ascii) : bool :=
  negb (Chars.is_space c) || Chars.eqb c Chars.space.

Lemma sub_ws_runs_ws_plain b s : forallb ws_plain (sub_ws_runs b s) = true.
Proof.
  revert b. induction s as [|c s IH]; [reflexivity|].
  intros b. simpl. destruct (Chars.is_space c) eqn:Ec.
  - destruct b; simpl; rewrite ?IH; reflexivity.
  - simpl. rewrite IH. unfold ws_plain. rewrite Ec. reflexivity.
Qed.

Lemma remove_disallowed_plain s :
  forallb ws_plain s = true -> forallb plain (remove_disallowed s) = true.
Proof.
  unfold remove_disallowed. induction s as [|c s IH]; [reflexivity|].
  simpl. rewrite andb_true_iff. intros [Hc Hs].
  destruct (Chars.is_allowed c) eqn:Ec; [|apply IH, Hs].
  simpl. rewrite IH by exact Hs. unfold plain. rewrite Ec.
  unfold ws_plain in Hc. rewrite Hc. reflexivity.
Qed.

Lemma remove_ws_before_punct_forallb (Q : ascii -> bool) s :
  forallb Q s = true -> forallb Q (remove_ws_before_punct s) = true.
Proof.
  induction s as [|c s IH]; [reflexivity|].
  simpl. rewrite andb_true_iff. intros [Hc Hs].
  destruct (Chars.is_space c && punct_follows s); simpl;
    rewrite ?Hc; apply IH, Hs.
Qed.

Lemma remove_ws_before_punct_head s :
  punct_follows s = false ->
  match remove_ws_before_punct s with
  | y :: _ => Chars.is_punct y = false
  | [] => True
  end.
Proof.
  destruct s as [|d s]; [exact (fun _ => I)|].
  unfold punct_follows. simpl.
  destruct (Chars.is_space d) eqn:Ed.
  - intros H. fold (punct_follows s). unfold punct_follows at 1. rewrite H.
    simpl.
    destruct (Chars.is_punct d) eqn:Ep; [|reflexivity].
    apply CharFacts.punct_not_space in Ep. congruence.
  - intros H. simpl. exact H.
Qed.

Lemma remove_ws_before_punct_pairs s :
  no_pair ws_punct (remove_ws_before_punct s) = true.
Proof.
  induction s as [|c s IH]; [reflexivity|].
  cbn [remove_ws_before_punct].
  destruct (Chars.is_space c) eqn:Ec; cbn [andb].
  - destruct (punct_follows s) eqn:Ef; [exact IH|].
    pose proof (remove_ws_before_punct_head s Ef) as Hh.
    destruct (remove_ws_before_punct s) as [|y r]; [reflexivity|].
    rewrite no_pair_cons, IH. unfold ws_punct. rewrite Hh, andb_false_r.
    reflexivity.
  - destruct (remove_ws_before_punct s) as [|y r]; [reflexivity|].
    rewrite no_pair_cons, IH. unfold ws_punct. rewrite Ec. reflexivity.
Qed.

Lemma limit_spaces_forallb (Q : ascii -> bool) b s :
  Q Chars.space = true ->
  forallb Q s = true -> forallb Q (limit_spaces b s) = true.
Proof.
  intros Hq. revert b. induction s as [|c s IH]; [reflexivity|].
  intros b. simpl forallb. rewrite andb_true_iff. intros [Hc Hs].
  simpl. destruct (Chars.is_space c).
  - destruct b; [apply IH, Hs|].
    destruct s as [|y s]; [simpl; rewrite Hc; reflexivity|].
    destruct (Chars.is_space y).
    + change (Q Chars.space && forallb Q (limit_spaces true (y :: s)) = true).
      rewrite Hq. apply IH, Hs.
    + change (Q c && forallb Q (limit_spaces false (y :: s)) = true).
      rewrite Hc. apply IH, Hs.
  - change (Q c && forallb Q (limit_spaces false s) = true).
    rewrite Hc. apply IH, Hs.
Qed.

(** [q] is the character read before [s]; behind a replaced run the text
    written so far ends in a space, otherwise in [q] itself. *)
Lemma limit_spaces_pairs s : forall q b,
  no_pair ws_punct (q :: s) = true ->
  (b = true -> Chars.is_space q = true) ->
  (b = false ->
   match s with y :: _ => ws_ws q y = false | [] => True end) ->
  no_pair ws_mark ((if b then Chars.space else q) :: limit_spaces b s) = true.
Proof.
  induction s as [|c s IH]; [reflexivity|].
  intros q b Hp Hrun Hstart.
  pose proof Hp as Hp'. rewrite no_pair_cons, andb_true_iff, negb_true_iff in Hp'.
  destruct Hp' as [Hqc Hcs].
  simpl limit_spaces. destruct (Chars.is_space c) eqn:Ec.
  - destruct b.
    + apply (IH c true); [exact Hcs|intros _; exact Ec|discriminate].
    + specialize (Hstart eq_refl). unfold ws_ws in Hstart.
      rewrite Ec, andb_true_r in Hstart.
      destruct s as [|y s].
      * simpl. unfold ws_mark. rewrite Hstart. reflexivity.
      * destruct (Chars.is_space y) eqn:Ey.
        -- rewrite no_pair_cons. unfold ws_mark at 1. rewrite Hstart.
           apply (IH c true); [exact Hcs|intros _; exact Ec|discriminate].
        -- rewrite no_pair_cons. unfold ws_mark at 1. rewrite Hstart.
           apply (IH c false); [exact Hcs|discriminate|].
           intros _. unfold ws_ws. rewrite Ey, andb_false_r. reflexivity.
  - rewrite no_pair_cons.
    assert (Hfirst : ws_mark (if b then Chars.space else q) c = false).
    { unfold ws_mark. rewrite Ec. simpl. destruct b.
      - specialize (Hrun eq_refl). unfold ws_punct in Hqc.
        rewrite Hrun in Hqc. simpl in Hqc. rewrite Hqc. reflexivity.
      - exact Hqc. }
    rewrite Hfirst.
    apply (IH c false); [exact Hcs|discriminate|].
    intros _. destruct s as [|y s]; [exact I|].
    unfold ws_ws. rewrite Ec. reflexivity.
Qed.

Lemma limit_spaces_no_ws_mark s :
  no_pair ws_punct s = true ->
  no_pair ws_mark (limit_spaces false s) = true.
Proof.
  intros H. apply no_pair_tail with (x := "a"%char).
  apply (limit_spaces_pairs s "a"%char false).
  - destruct s as [|y s]; [reflexivity|]. rewrite no_pair_cons, H. reflexivity.
  - discriminate.
  - intros _. destruct s as [|y s]; [exact I|]. reflexivity.
Qed.

Lemma lstrip_suffix s : exists p, s = p ++ Str.lstrip s.
Proof.
  induction s as [|c s [p IH]]; [exists []; reflexivity|].
  simpl. destruct (Chars.is_space c).
  - exists (c :: p). simpl. f_equal. exact IH.
  - exists []. reflexivity.
Qed.

Lemma rstrip_prefix s : exists t, s = Str.rstrip s ++ t.
Proof.
  induction s as [|c s [t IH]]; [exists []; reflexivity|].
  simpl. destruct (Str.rstrip s) as [|r0 r] eqn:Er.
  - destruct (Chars.is_space c).
    + exists (c :: s). reflexivity.
    + exists t. simpl. f_equal. exact IH.
  - exists t. simpl. f_equal. exact IH.
Qed.

Lemma lstrip_head s :
  no_pair ws_mark s = true ->
  no_pair ws_ws (Chars.space :: Str.lstrip s) = true.
Proof.
  induction s as [|c s IH]; [reflexivity|].
  intros H. simpl Str.lstrip. destruct (Chars.is_space c) eqn:Ec.
  - apply IH. eapply no_pair_tail. exact H.
  - rewrite no_pair_cons. unfold ws_ws at 1. rewrite Ec, andb_false_r.
    apply (no_pair_weaken ws_mark); [apply ws_ws_mark|exact H].
Qed.

Lemma rstrip_end s :
  no_pair ws_mark s = true ->
  no_pair ws_mark (Str.rstrip s ++ [Chars.space]) = true.
Proof.
  induction s as [|c s IH]; [reflexivity|].
  intros H. specialize (IH (no_pair_tail _ _ _ H)).
  destruct (rstrip_prefix s) as [t Ht].
  simpl Str.rstrip. destruct (Str.rstrip s) as [|r0 r] eqn:Er.
  - destruct (Chars.is_space c) eqn:Ec; [reflexivity|].
    simpl. unfold ws_mark. rewrite Ec. reflexivity.
  - simpl app. rewrite no_pair_cons. simpl app in IH. rewrite IH.
    rewrite Ht in H. simpl app in H.
    rewrite no_pair_cons, andb_true_iff in H. destruct H as [H _].
    rewrite H. reflexivity.
Qed.

Lemma strip_tidy s :
  forallb plain s = true -> no_pair ws_mark s = true ->
  tidy (Str.strip s) = true.
Proof.
  intros Hp Hn. unfold Str.strip.
  destruct (lstrip_suffix s) as [p Hs].
  destruct (rstrip_prefix (Str.lstrip s)) as [t Hz].
  set (z := Str.lstrip s) in *.
  assert (Hpz : forallb plain z = true).
  { rewrite Hs, forallb_app, andb_true_iff in Hp. tauto. }
  assert (Hnz : no_pair ws_mark z = true).
  { rewrite Hs in Hn. eapply no_pair_app_r. exact Hn. }
  unfold tidy. rewrite !andb_true_iff. repeat split.
  - rewrite Hz, forallb_app, andb_true_iff in Hpz. tauto.
  - pose proof (lstrip_head s Hn) as Hh. fold z in Hh.
    rewrite Hz in Hh. apply (no_pair_app_l _ (Chars.space :: Str.rstrip z) t).
    exact Hh.
  - apply rstrip_end, Hnz.
Qed.

Lemma clean_text_tidy s : tidy (clean_text s) = true.
Proof.
  unfold clean_text. destruct (Str.is_empty s); [reflexivity|].
  apply strip_tidy.
  - apply limit_spaces_forallb; [reflexivity|].
    apply remove_ws_before_punct_forallb.
    unfold collapse_all. do 3 apply collapse_marks_forallb.
    apply remove_disallowed_plain, sub_ws_runs_ws_plain.
  - apply limit_spaces_no_ws_mark, remove_ws_before_punct_pairs.
Qed.

(** *** Normalizing a tidy text *)

Lemma clean_text_of_tidy s :
  tidy s = true -> clean_text s = collapse_all s.
Proof.
  intros H. unfold clean_text.
  destruct s as [|c s]; [reflexivity|].
  cbn [Str.is_empty]. set (t := c :: s) in *.
  pose proof (collapse_all_tidy t H) as Hu.
  rewrite (strip_fixed t H).
  pose proof H as H'. unfold tidy in H'. rewrite !andb_true_iff in H'.
  destruct H' as [[H1 H2] H3].
  rewrite (sub_ws_runs_fixed t H1 H2), (remove_disallowed_fixed t H1).
  pose proof Hu as Hu'. unfold tidy in Hu'. rewrite !andb_true_iff in Hu'.
  destruct Hu' as [[U1 U2] U3].
  rewrite remove_ws_before_punct_fixed
    by (eapply no_pair_app_l; exact U3).
  rewrite limit_spaces_fixed
    by (apply (no_pair_weaken ws_mark); [apply ws_ws_mark|];
        eapply no_pair_app_l; exact U3).
  apply strip_fixed, Hu.
Qed.

Lemma clean_text_twice s :
  clean_text (clean_text s) = collapse_all (clean_text s).
Proof. apply clean_text_of_tidy, clean_text_tidy. Qed.

Lemma clean_text_blank s :
  forallb Chars.is_space s = true -> clean_text s = [].
Proof.
  intros H. unfold clean_text. destruct (Str.is_empty s); [reflexivity|].
  assert (Hl : Str.lstrip s = []).
  { induction s as [|c s IH]; [reflexivity|].
    simpl in H. apply andb_true_iff in H as [Hc Hs].
    simpl. rewrite Hc. apply IH, Hs. }
  unfold Str.strip. rewrite Hl. reflexivity.
Qed.

(** No run of two or more [.], [!] or [?]. *)
Definition no_repeated_marks (s : str) : bool :=
  no_pair (twice Chars.dot) s
  && no_pair (twice Chars.bang) s
  && no_pair (twice Chars.question) s.

(** How far one cleaning can be from its fixed point.  The result of
    [clean_text] can still hold a run of marks, but a second cleaning
    removes it and a third changes nothing further.  A single cleaning is
    already final on every input whose cleaned text holds no run of two or
    more [.], [!] or [?].  Empty or all-whitespace input yields the empty
    string. *)
Theorem clean_text_settles (s : str) :
  clean_text (clean_text (clean_text s)) = clean_text (clean_text s)
  /\ (no_repeated_marks (clean_text s) = true ->
      clean_text (clean_text s) = clean_text s)
  /\ (forallb Chars.is_space s = true -> clean_text s = []).
Proof.
  split; [|split].
  - rewrite (clean_text_twice s).
    rewrite clean_text_of_tidy by apply collapse_all_tidy, clean_text_tidy.
    apply collapse_all_fixed.
  - intros H. rewrite clean_text_twice.
    unfold no_repeated_marks in H. rewrite !andb_true_iff in H.
    destruct H as [[H1 H2] H3]. unfold collapse_all.
    rewrite (collapse_marks_fixed _ _ H1), (collapse_marks_fixed _ _ H2).
    apply collapse_marks_fixed, H3.
  - apply clean_text_blank.
Qed.

(** A text with irregular spacing and an all-blank text. *)
Lemma clean_text_settles_witness :
  clean_text (clean_text (lit "Hello   world !")) = clean_text (lit "Hello   world !")
  /\ clean_text (lit "   ") = [].
Proof.
  split.
  - apply (proj1 (proj2 (clean_text_settles (lit "Hello   world !")))).
    reflexivity.
  - apply (proj2 (proj2 (clean_text_settles (lit "   ")))). reflexivity.
Defined.

(** Cleaning [a. .] gives [a..] (the whitespace in front of the second
    dot is removed after the runs of dots have been collapsed), and
    cleaning [a..] gives [a.]. *)
Lemma clean_text_not_idempotent :
  clean_text (lit "a. .") = lit "a.."
  /\ clean_text (clean_text (lit "a. .")) = lit "a."
  /\ clean_text (clean_text (lit "a. .")) <> clean_text (lit "a. .").
Proof. vm_compute. repeat split. discriminate. Qed.

(** Claim C3, at the failing input.  The substitutions that remove
    excessive punctuation (lines 121-124) run before the substitution that
    removes whitespace in front of punctuation (line 127), so dots that
    are separated by spaces become a run only afterwards, and the run
    stays: cleaning [Intro . . . . 5] gives [Intro.... 5].  Cleaning that
    result gives [Intro. 5]: on this input [clean_text] is not idempotent,
    and one cleaning leaves the excessive punctuation it sets out to
    remove. *)
Lemma clean_text_leaves_dot_run :
  clean_text (lit "Intro . . . . 5") = lit "Intro.... 5"
  /\ clean_text (clean_text (lit "Intro . . . . 5")) = lit "Intro. 5"
  /\ clean_text (clean_text (lit "Intro . . . . 5"))
     <> clean_text (lit "Intro . . . . 5").
Proof. vm_compute. repeat split. discriminate. Qed.

End NormalizerFacts.

(** ** Section segmenter *)

Module SegmenterFacts.
Import Segmenter.

(** Title and content of [s] are outputs of the normalizer. *)
Definition cleaned (s : section) : Prop :=
  exists raw_title raw_content,
    title s = Normalizer.clean_text raw_title
    /\ content s = Normalizer.clean_text raw_content.

Lemma flush_cleaned sections cur :
  Forall cleaned sections -> Forall cleaned (flush sections cur).
Proof.
  intros H. unfold flush.
  destruct (Str.is_empty (Str.strip (content cur))); [exact H|].
  apply List.Forall_app. split; [exact H|].
  constructor; [|constructor].
  exists (title cur), (content cur). split; reflexivity.
Qed.

Lemma scan_lines_cleaned lines : forall i sections cur,
  Forall cleaned sections ->
  Forall cleaned (fst (scan_lines i lines sections cur)).
Proof.
  induction lines as [|raw rest IH]; intros i sections cur H; [exact H|].
  simpl. destruct (Str.is_empty (Str.strip raw)); [apply IH, H|].
  destruct (is_header (Str.strip raw)).
  - apply IH, flush_cleaned, H.
  - apply IH, H.
Qed.

Lemma candidate_sections_cleaned text :
  Forall cleaned (candidate_sections text).
Proof.
  unfold candidate_sections.
  pose proof (scan_lines_cleaned (Str.split_lines text) 0 [] initial_section
                (List.Forall_nil _)) as H.
  destruct (scan_lines 0 (Str.split_lines text) [] initial_section)
    as [sections cur].
  apply flush_cleaned, H.
Qed.

Lemma is_empty_false (s : str) : Str.is_empty s = false <-> s <> [].
Proof. destruct s; simpl; split; congruence. Qed.

(** Claim C8.  Every section the segmenter returns is a candidate whose
    title and content are normalized, whose title and content are not blank
    and whose content is longer than 10 characters (so at least 10); no
    candidate with a content of at most 10 characters is returned. *)
Theorem extract_sections_valid (text : str) :
  (forall s, In s (extract_sections text) ->
     In s (candidate_sections text)
     /\ cleaned s
     /\ Str.strip (title s) <> []
     /\ Str.strip (content s) <> []
     /\ (10 < List.length (content s))%nat
     /\ (10 <= List.length (content s))%nat)
  /\ (forall c, In c (candidate_sections text) ->
        (List.length (content c) <= 10)%nat ->
        ~ In c (extract_sections text)).
Proof.
  unfold extract_sections. split.
  - intros s Hs. apply List.filter_In in Hs as [Hin Hv].
    unfold is_valid in Hv. rewrite !andb_true_iff, !negb_true_iff in Hv.
    destruct Hv as [[Ht Hc] Hl]. apply Nat.ltb_lt in Hl.
    repeat split; try (apply is_empty_false; assumption); try lia.
    + exact Hin.
    + pose proof (candidate_sections_cleaned text) as H.
      rewrite List.Forall_forall in H. apply H, Hin.
  - intros c _ Hlen Hc. apply List.filter_In in Hc as [_ Hv].
    unfold is_valid in Hv. rewrite !andb_true_iff in Hv.
    destruct Hv as [_ Hl]. apply Nat.ltb_lt in Hl. lia.
Qed.

Definition sample_text : str :=
  lit "OVERVIEW" ++ [Chars.newline]
  ++ lit "The  market strategy ,  in brief ." ++ [Chars.newline]
  ++ lit "Notes:" ++ [Chars.newline]
  ++ lit "too short" ++ [Chars.newline].

Definition sample_section : section :=
  mk_section (lit "OVERVIEW") (lit "The market strategy, in brief.") 1.

(** Witness for C8: a text with one long section and one short one. *)
Lemma extract_sections_valid_witness :
  (10 < List.length (content sample_section))%nat
  /\ ~ In (mk_section (lit "Notes") (lit "too short") 1)
         (extract_sections sample_text).
Proof.
  split.
  - apply (proj1 (extract_sections_valid sample_text) sample_section).
    vm_compute. left. reflexivity.
  - apply (proj2 (extract_sections_valid sample_text)).
    + vm_compute. right. left. reflexivity.
    + vm_compute. lia.
Defined.

End SegmenterFacts.

(** ** Floats *)

Module FloatFacts.

(** Zero, a positive finite number or plus infinity: not NaN, not below
    zero. *)
Definition sf_nonneg (x : spec_float) : bool :=
  match x with
  | S754_zero _ => true
  | S754_infinity s => negb s
  | S754_nan => false
  | S754_finite s _ _ => negb s
  end.

Definition nonneg (x : float) : bool := sf_nonneg (Prim2SF x).

Lemma shr_1_nonneg mrs : 0 <= shr_m mrs -> 0 <= shr_m (shr_1 mrs).
Proof.
  destruct mrs as [m r s]. simpl.
  destruct m as [|p|p]; try destruct p; simpl; lia.
Qed.

Lemma iter_pos_shr_1_nonneg p : forall mrs,
  0 <= shr_m mrs -> 0 <= shr_m (SpecFloat.iter_pos shr_1 p mrs).
Proof.
  induction p as [p IH|p IH|]; intros mrs H; simpl.
  - apply IH, IH, shr_1_nonneg, H.
  - apply IH, IH, H.
  - apply shr_1_nonneg, H.
Qed.

Lemma shr_nonneg mrs e n : 0 <= shr_m mrs -> 0 <= shr_m (fst (shr mrs e n)).
Proof.
  intros H. unfold shr. destruct n; simpl; try exact H.
  apply iter_pos_shr_1_nonneg, H.
Qed.

Lemma shr_fexp_nonneg m e l :
  0 <= m -> 0 <= shr_m (fst (shr_fexp prec emax m e l)).
Proof.
  intros H. unfold shr_fexp. apply shr_nonneg.
  destruct l as [|[]]; exact H.
Qed.

Lemma round_nearest_even_nonneg m l : 0 <= m -> 0 <= round_nearest_even m l.
Proof.
  intros H. unfold round_nearest_even.
  destruct l as [|[]]; try destruct (Z.even m); lia.
Qed.

Lemma binary_round_aux_nonneg m e l :
  0 <= m -> sf_nonneg (binary_round_aux prec emax false m e l) = true.
Proof.
  intros H. unfold binary_round_aux.
  pose proof (shr_fexp_nonneg m e l H) as H1.
  destruct (shr_fexp prec emax m e l) as [mrs' e'].
  simpl in H1.
  pose proof (shr_fexp_nonneg _ e' loc_Exact
                (round_nearest_even_nonneg _ (loc_of_shr_record mrs') H1)) as H2.
  destruct (shr_fexp prec emax
              (round_nearest_even (shr_m mrs') (loc_of_shr_record mrs')) e'
              loc_Exact) as [mrs'' e''].
  simpl in H2.
  destruct (shr_m mrs'') as [|p|p]; [reflexivity| |lia].
  destruct (e'' <=? emax - prec); reflexivity.
Qed.

Lemma binary_normalize_nonneg m e :
  0 <= m -> sf_nonneg (binary_normalize prec emax m e false) = true.
Proof.
  intros H. destruct m as [|p|p]; [reflexivity| |lia].
  unfold binary_normalize, binary_round.
  destruct (shl_align p e (fexp prec emax (Z.pos (digits2_pos p) + e)))
    as [mz ez].
  apply binary_round_aux_nonneg. lia.
Qed.

Lemma SFadd_nonneg x y :
  sf_nonneg x = true -> sf_nonneg y = true ->
  sf_nonneg (SF64add x y) = true.
Proof.
  destruct x as [sx|sx| |sx mx ex], y as [sy|sy| |sy my ey];
    simpl; try discriminate; try (destruct sx, sy; simpl; congruence);
    try (destruct sx; simpl; congruence).
  destruct sx, sy; try discriminate. intros _ _.
  unfold SF64add, SFadd. apply binary_normalize_nonneg. simpl. lia.
Qed.

Lemma SFmul_nonneg x m e :
  sf_nonneg x = true ->
  sf_nonneg (SF64mul x (S754_finite false m e)) = true.
Proof.
  destruct x as [sx|sx| |sx mx ex]; simpl; try discriminate;
    try (destruct sx; simpl; congruence).
  destruct sx; try discriminate. intros _.
  unfold SF64mul, SFmul. apply binary_round_aux_nonneg. lia.
Qed.

Lemma add_nonneg (x y : float) :
  nonneg x = true -> nonneg y = true -> nonneg (x + y) = true.
Proof. unfold nonneg. rewrite add_spec. apply SFadd_nonneg. Qed.

Lemma of_nat_nonneg n : nonneg (Float64.of_nat n) = true.
Proof.
  unfold nonneg, Float64.of_nat. rewrite of_uint63_spec.
  apply binary_normalize_nonneg.
  apply Uint63.to_Z_bounded.
Qed.

Lemma tenths_nonneg n : nonneg (Float64.of_nat n * 0.1) = true.
Proof.
  unfold nonneg. rewrite mul_spec.
  change (Prim2SF 0.1) with (S754_finite false 7205759403792794 (-56)).
  apply SFmul_nonneg, of_nat_nonneg.
Qed.

Lemma min_nonneg (a b : float) :
  nonneg a = true -> nonneg b = true -> nonneg (Float64.min a b) = true.
Proof. intros Ha Hb. unfold Float64.min. destruct (b <? a)%float; assumption. Qed.

(** *** The order of small floats, read on integers *)

(** Zero or a positive finite number. *)
Definition sf_small (x : spec_float) : bool :=
  match x with
  | S754_zero _ => true
  | S754_finite s _ _ => negb s
  | _ => false
  end.

(** The value of a small float, in units of [2^-1074]. *)
Definition sf_value (x : spec_float) : Z :=
  match x with
  | S754_finite false m e => Z.pos m * 2 ^ (e + 1074)
  | _ => 0
  end.

Definition small (x : float) : bool := sf_small (Prim2SF x).
Definition value (x : float) : Z := sf_value (Prim2SF x).

Lemma digits2_pos_bounds p :
  2 ^ (Z.pos (digits2_pos p) - 1) <= Z.pos p < 2 ^ Z.pos (digits2_pos p).
Proof.
  induction p as [p IH|p IH|]; simpl digits2_pos.
  - rewrite Pos2Z.inj_succ.
    replace (Z.succ (Z.pos (digits2_pos p)) - 1) with (Z.pos (digits2_pos p)) by lia.
    rewrite Z.pow_succ_r by lia.
    assert (H : 2 ^ Z.pos (digits2_pos p)
                = 2 * 2 ^ (Z.pos (digits2_pos p) - 1)).
    { rewrite <- Z.pow_succ_r by lia. f_equal. lia. }
    lia.
  - rewrite Pos2Z.inj_succ.
    replace (Z.succ (Z.pos (digits2_pos p)) - 1) with (Z.pos (digits2_pos p)) by lia.
    rewrite Z.pow_succ_r by lia.
    assert (H : 2 ^ Z.pos (digits2_pos p)
                = 2 * 2 ^ (Z.pos (digits2_pos p) - 1)).
    { rewrite <- Z.pow_succ_r by lia. f_equal. lia. }
    lia.
  - simpl. lia.
Qed.

(** What validity says of a finite binary64 number. *)
Lemma valid_finite s m e :
  valid_binary (S754_finite s m e) = true ->
  -1074 <= e /\ Z.pos m < 2 ^ 53 /\ (e = -1074 \/ 2 ^ 52 <= Z.pos m).
Proof.
  unfold SpecFloat.valid_binary, bounded, canonical_mantissa, fexp.
  rewrite andb_true_iff, Z.eqb_eq. intros [H _].
  change (SpecFloat.emin prec emax) with (-1074) in H.
  change prec with 53 in H.
  pose proof (digits2_pos_bounds m) as [Hlo Hhi].
  set (d := Z.pos (digits2_pos m)) in *.
  assert (Hd : d <= 53) by lia.
  split; [lia|]. split.
  - eapply Z.lt_le_trans; [exact Hhi|]. apply Z.pow_le_mono_r; lia.
  - destruct (Z.eq_dec e (-1074)) as [He|He]; [left; exact He|right].
    assert (d = 53) by lia. subst d. rewrite H0 in Hlo. exact Hlo.
Qed.

Lemma finite_value_lt m1 e1 m2 e2 :
  valid_binary (S754_finite false m1 e1) = true ->
  valid_binary (S754_finite false m2 e2) = true ->
  e1 < e2 ->
  Z.pos m1 * 2 ^ (e1 + 1074) < Z.pos m2 * 2 ^ (e2 + 1074).
Proof.
  intros H1 H2 He.
  apply valid_finite in H1 as (L1 & U1 & _).
  apply valid_finite in H2 as (L2 & _ & N2).
  destruct N2 as [N2|N2]; [lia|].
  assert (P1 : 0 < 2 ^ (e1 + 1074)) by (apply Z.pow_pos_nonneg; lia).
  assert (P2 : 0 < 2 ^ (e2 + 1074)) by (apply Z.pow_pos_nonneg; lia).
  apply Z.lt_le_trans with (2 ^ 53 * 2 ^ (e1 + 1074)).
  - apply Z.mul_lt_mono_pos_r; assumption.
  - apply Z.le_trans with (2 ^ 52 * 2 ^ (e2 + 1074)).
    + rewrite <- !Z.pow_add_r by lia. apply Z.pow_le_mono_r; lia.
    + apply Z.mul_le_mono_nonneg_r; lia.
Qed.

Lemma mul_compare_r n m p : 0 < p -> (n * p ?= m * p) = (n ?= m).
Proof.
  intros Hp. destruct (Z.compare_spec n m) as [E|E|E].
  - subst m. apply Z.compare_refl.
  - apply Z.compare_lt_iff. nia.
  - apply Z.compare_gt_iff. nia.
Qed.

Lemma SFcompare_value x y :
  valid_binary x = true -> valid_binary y = true ->
  sf_small x = true -> sf_small y = true ->
  SFcompare x y = Some (sf_value x ?= sf_value y).
Proof.
  intros Vx Vy Sx Sy.
  destruct x as [sx|sx| |sx mx ex], y as [sy|sy| |sy my ey];
    try discriminate.
  - reflexivity.
  - destruct sy; [discriminate|]. unfold SFcompare, sf_value. f_equal.
    symmetry. apply Z.compare_lt_iff.
    apply valid_finite in Vy as (L & _).
    assert (0 < 2 ^ (ey + 1074)) by (apply Z.pow_pos_nonneg; lia). lia.
  - destruct sx; [discriminate|]. unfold SFcompare, sf_value. f_equal.
    symmetry. apply Z.compare_gt_iff.
    apply valid_finite in Vx as (L & _).
    assert (0 < 2 ^ (ex + 1074)) by (apply Z.pow_pos_nonneg; lia). lia.
  - destruct sx, sy; try discriminate. unfold SFcompare, sf_value. f_equal.
    destruct (Z.compare_spec ex ey) as [E|E|E].
    + subst ey. rewrite Pos.compare_cont_spec.
      apply valid_finite in Vx as (L & _).
      assert (P : 0 < 2 ^ (ex + 1074)) by (apply Z.pow_pos_nonneg; lia).
      rewrite (mul_compare_r _ _ _ P). simpl.
      destruct (mx ?= my)%positive; reflexivity.
    + symmetry. apply Z.compare_lt_iff.
      apply finite_value_lt; assumption.
    + symmetry. apply Z.compare_gt_iff.
      apply finite_value_lt; assumption.
Qed.

Lemma ltb_value (x y : float) :
  small x = true -> small y = true ->
  (x <? y)%float = (value x <? value y).
Proof.
  intros Sx Sy. rewrite ltb_spec. unfold SFltb.
  rewrite (SFcompare_value _ _ (Prim2SF_valid x) (Prim2SF_valid y) Sx Sy).
  unfold value, Z.ltb. destruct (_ ?= _); reflexivity.
Qed.

Lemma leb_value (x y : float) :
  small x = true -> small y = true ->
  (x <=? y)%float = (value x <=? value y).
Proof.
  intros Sx Sy. rewrite leb_spec. unfold SFleb.
  rewrite (SFcompare_value _ _ (Prim2SF_valid x) (Prim2SF_valid y) Sx Sy).
  unfold value, Z.leb. destruct (_ ?= _); reflexivity.
Qed.

(** A float of the closed interval from 0 to 1. *)
Definition in_unit (x : float) : bool := ((0 <=? x) && (x <=? 1))%float.

Lemma in_unit_small x : in_unit x = true -> small x = true.
Proof.
  unfold in_unit, small. rewrite andb_true_iff, !leb_spec.
  change (Prim2SF 0) with (S754_zero false).
  change (Prim2SF 1) with (S754_finite false 4503599627370496 (-52)).
  destruct (Prim2SF x) as [s|s| |s m e]; simpl; intros [H0 H1];
    try discriminate; try reflexivity.
  - destruct s; discriminate.
  - destruct s; [discriminate|reflexivity].
Qed.

(** *** Rounding to two decimals is monotone on the unit interval *)

Lemma div_half_even_scale a b k :
  0 < b -> 0 < k ->
  Float64.div_half_even (a * k) (b * k) = Float64.div_half_even a b.
Proof.
  intros Hb Hk. unfold Float64.div_half_even.
  rewrite Z.div_mul_cancel_r by lia.
  rewrite Z.mul_mod_distr_r by lia.
  replace (2 * (a mod b * k)) with (2 * (a mod b) * k) by ring.
  rewrite mul_compare_r by exact Hk. reflexivity.
Qed.

Lemma div_half_even_mono a a' d :
  0 < d -> a <= a' ->
  Float64.div_half_even a d <= Float64.div_half_even a' d.
Proof.
  intros Hd Ha. unfold Float64.div_half_even.
  pose proof (Z.div_le_mono a a' d Hd Ha) as Hq.
  pose proof (Z.mod_pos_bound a d Hd) as Hr.
  pose proof (Z.mod_pos_bound a' d Hd) as Hr'.
  pose proof (Z.div_mod a d ltac:(lia)) as Ea.
  pose proof (Z.div_mod a' d ltac:(lia)) as Ea'.
  set (q := a / d) in *. set (q' := a' / d) in *.
  set (r := a mod d) in *. set (r' := a' mod d) in *.
  destruct (Z.eq_dec q q') as [E|E].
  - rewrite <- E in *. assert (r <= r') by nia.
    destruct (Z.compare_spec (2 * r) d), (Z.compare_spec (2 * r') d);
      try destruct (Z.even q); lia.
  - assert (q + 1 <= q') by lia.
    destruct (Z.compare_spec (2 * r) d), (Z.compare_spec (2 * r') d);
      try destruct (Z.even q); try destruct (Z.even q'); lia.
Qed.

Lemma div_half_even_nonneg a d :
  0 < d -> 0 <= a -> 0 <= Float64.div_half_even a d.
Proof.
  intros Hd Ha. unfold Float64.div_half_even.
  pose proof (Z.div_pos a d Ha Hd).
  destruct (_ ?= _); try destruct (Z.even _); lia.
Qed.

(** The number of hundredths [round2] rounds a small float to. *)
Definition hundredths_of (x : float) : Z :=
  Float64.div_half_even (100 * value x) (2 ^ 1074).

(** The float [round2] returns for [n] hundredths. *)
Definition round_table (n : Z) : float :=
  match n with
  | Zpos p =>
      SF2Prim (SFdiv prec emax (S754_finite false p 0)
                               (S754_finite false 100 0))
  | _ => PrimFloat.zero
  end.

Lemma value_one : value 1 = 2 ^ 1074.
Proof. reflexivity. Qed.

Lemma in_unit_value x : in_unit x = true -> 0 <= value x <= 2 ^ 1074.
Proof.
  intros H. pose proof (in_unit_small x H) as Hs.
  unfold in_unit in H. apply andb_true_iff in H as [H0 H1].
  rewrite leb_value in H0, H1 by (assumption || reflexivity).
  apply Z.leb_le in H0, H1. rewrite value_one in H1.
  change (value 0) with 0 in H0. lia.
Qed.

Lemma hundredths_of_bounds x :
  in_unit x = true -> 0 <= hundredths_of x <= 100.
Proof.
  intros H. apply in_unit_value in H. unfold hundredths_of. split.
  - apply div_half_even_nonneg; lia.
  - change 100 with (Float64.div_half_even (100 * 2 ^ 1074) (2 ^ 1074)) at 2.
    apply div_half_even_mono; lia.
Qed.

Lemma round2_small x :
  in_unit x = true ->
  value (Float64.round2 x) = value (round_table (hundredths_of x))
  /\ small (Float64.round2 x) = small (round_table (hundredths_of x)).
Proof.
  intros H. pose proof (in_unit_small x H) as Hs.
  pose proof (in_unit_value x H) as Hv.
  pose proof (Prim2SF_valid x) as Hvalid.
  unfold Float64.round2, hundredths_of, value, small in *.
  destruct (Prim2SF x) as [s|s| |s m e] eqn:Ex; try discriminate.
  - rewrite Ex. simpl. split; reflexivity.
  - destruct s; [discriminate|]. simpl sf_value in *.
    apply valid_finite in Hvalid as (L & U & N).
    assert (Hk : 0 < 2 ^ (e + 1074)) by (apply Z.pow_pos_nonneg; lia).
    assert (He : e < 0).
    { destruct N as [N|N]; [lia|].
      destruct (Z.lt_ge_cases e 0) as [|Hge]; [assumption|exfalso].
      assert (2 ^ 1074 <= 2 ^ (e + 1074)) by (apply Z.pow_le_mono_r; lia).
      assert (2 ^ 52 * 2 ^ (e + 1074) <= Z.pos m * 2 ^ (e + 1074))
        by (apply Z.mul_le_mono_nonneg_r; lia).
      assert (2 * 2 ^ (e + 1074) <= 2 ^ 52 * 2 ^ (e + 1074))
        by (apply Z.mul_le_mono_nonneg_r; lia).
      lia. }
    destruct e as [|p|p]; try lia.
    assert (Hh : Float64.hundredths m (Z.neg p)
                 = Float64.div_half_even (100 * (Z.pos m * 2 ^ (Z.neg p + 1074)))
                     (2 ^ 1074)).
    { unfold Float64.hundredths.
      rewrite <- (div_half_even_scale (100 * Z.pos m) (2 ^ Z.pos p)
                    (2 ^ (Z.neg p + 1074)))
        by (try apply Z.pow_pos_nonneg; lia).
      f_equal; [ring|].
      rewrite <- Z.pow_add_r by lia. f_equal. lia. }
    rewrite Hh.
    destruct (Float64.div_half_even _ _); split; reflexivity.
Qed.

Definition hundred : list Z := List.map Z.of_nat (seq 0 101).

Lemma hundred_spec n : 0 <= n <= 100 -> In n hundred.
Proof.
  intros H. unfold hundred. apply in_map_iff. exists (Z.to_nat n).
  split; [lia|]. apply in_seq. lia.
Qed.

(** Each entry of the table is a small float not above 1 and not above the
    next entry. *)
Lemma round_table_checked :
  forallb
    (fun n =>
       small (round_table n)
       && (value (round_table n) <=? 2 ^ 1074)
       && ((n =? 100) || (value (round_table n) <=? value (round_table (n + 1)))))
    hundred = true.
Proof. vm_compute. reflexivity. Qed.

Lemma round_table_entry n :
  0 <= n <= 100 ->
  small (round_table n) = true
  /\ value (round_table n) <= 2 ^ 1074
  /\ (n < 100 -> value (round_table n) <= value (round_table (n + 1))).
Proof.
  intros Hn. pose proof round_table_checked as H.
  rewrite forallb_forall in H. specialize (H n (hundred_spec n Hn)).
  rewrite !andb_true_iff, orb_true_iff in H. destruct H as [[H1 H2] H3].
  split; [exact H1|]. split; [apply Z.leb_le, H2|].
  intros Hlt. destruct H3 as [H3|H3]; [apply Z.eqb_eq in H3; lia|].
  apply Z.leb_le, H3.
Qed.

Lemma round_table_mono_nat k : forall n,
  0 <= n -> n + Z.of_nat k <= 100 ->
  value (round_table n) <= value (round_table (n + Z.of_nat k)).
Proof.
  induction k as [|k IH]; intros n H0 H1.
  - rewrite Z.add_0_r. lia.
  - destruct (round_table_entry n ltac:(lia)) as (_ & _ & Hstep).
    specialize (Hstep ltac:(lia)). specialize (IH (n + 1) ltac:(lia) ltac:(lia)).
    replace (n + Z.of_nat (S k)) with (n + 1 + Z.of_nat k) by lia. lia.
Qed.

Lemma round_table_facts n n' :
  0 <= n <= 100 -> 0 <= n' <= 100 ->
  small (round_table n) = true
  /\ value (round_table n) <= 2 ^ 1074
  /\ (n <= n' -> value (round_table n) <= value (round_table n')).
Proof.
  intros Hn Hn'. destruct (round_table_entry n Hn) as (H1 & H2 & _).
  split; [exact H1|]. split; [exact H2|]. intros Hle.
  replace n' with (n + Z.of_nat (Z.to_nat (n' - n))) by lia.
  apply round_table_mono_nat; lia.
Qed.

Lemma value_nonneg x : 0 <= value x.
Proof.
  unfold value, sf_value. destruct (Prim2SF x) as [s|s| |s m e]; try lia.
  destruct s; [lia|]. apply Z.mul_nonneg_nonneg; [lia|].
  apply Z.pow_nonneg. lia.
Qed.

Lemma small_in_unit x :
  small x = true -> value x <= 2 ^ 1074 -> in_unit x = true.
Proof.
  intros Hs Hv. unfold in_unit.
  rewrite !leb_value by (assumption || reflexivity).
  rewrite value_one. change (value 0) with 0.
  apply andb_true_iff. split; apply Z.leb_le; [apply value_nonneg|exact Hv].
Qed.

Lemma nonneg_cases x :
  nonneg x = true -> small x = true \/ Prim2SF x = S754_infinity false.
Proof.
  unfold nonneg, small.
  destruct (Prim2SF x) as [s|s| |s m e]; try discriminate.
  - left. reflexivity.
  - destruct s; [discriminate|]. right. reflexivity.
  - intros H. left. exact H.
Qed.

Lemma nonneg_min_one x : nonneg x = true -> in_unit (Float64.min x 1) = true.
Proof.
  intros H. unfold Float64.min.
  destruct (nonneg_cases x H) as [Hs|Hinf].
  - rewrite ltb_value by (assumption || reflexivity).
    destruct (value 1 <? value x) eqn:E; [reflexivity|].
    apply Z.ltb_ge in E. rewrite value_one in E.
    apply small_in_unit; assumption.
  - rewrite ltb_spec, Hinf. reflexivity.
Qed.

Lemma round2_in_unit x : in_unit x = true -> in_unit (Float64.round2 x) = true.
Proof.
  intros H. destruct (round2_small x H) as [Hv Hs].
  destruct (round_table_facts _ _ (hundredths_of_bounds x H)
              (hundredths_of_bounds x H)) as (T1 & T2 & _).
  apply small_in_unit; [rewrite Hs; exact T1|rewrite Hv; exact T2].
Qed.

Lemma round2_mono x y :
  in_unit x = true -> in_unit y = true ->
  (x <=? y)%float = true ->
  (Float64.round2 x <=? Float64.round2 y)%float = true.
Proof.
  intros Hx Hy Hle.
  rewrite leb_value in Hle by (apply in_unit_small; assumption).
  apply Z.leb_le in Hle.
  destruct (round2_small x Hx) as [Vx Sx], (round2_small y Hy) as [Vy Sy].
  pose proof (hundredths_of_bounds x Hx) as Bx.
  pose proof (hundredths_of_bounds y Hy) as By'.
  destruct (round_table_facts _ _ Bx By') as (T1 & _ & T3).
  destruct (round_table_facts _ _ By' By') as (T1' & _ & _).
  rewrite leb_value by congruence.
  apply Z.leb_le. rewrite Vx, Vy. apply T3.
  unfold hundredths_of. apply div_half_even_mono; lia.
Qed.

End FloatFacts.

(** ** Persona scorer *)

Module ScorerFacts.
Import Scorer.

Lemma fold_left_nonneg {A : Type} (f : float -> A -> float) (l : list A) :
  (forall acc x, FloatFacts.nonneg acc = true ->
                 FloatFacts.nonneg (f acc x) = true) ->
  forall acc, FloatFacts.nonneg acc = true ->
              FloatFacts.nonneg (fold_left f l acc) = true.
Proof.
  intros Hf. induction l as [|x l IH]; intros acc H; [exact H|].
  simpl. apply IH, Hf, H.
Qed.

Lemma title_score_nonneg kws t :
  FloatFacts.nonneg (title_score kws t) = true.
Proof.
  unfold title_score. apply fold_left_nonneg; [|reflexivity].
  intros acc k H. destruct (Str.contains _ _); [|exact H].
  apply FloatFacts.add_nonneg; [exact H|reflexivity].
Qed.

Lemma content_score_nonneg kws c :
  FloatFacts.nonneg (content_score kws c) = true.
Proof.
  unfold content_score. apply fold_left_nonneg; [|reflexivity].
  intros acc k H. apply FloatFacts.add_nonneg; [exact H|].
  apply FloatFacts.min_nonneg; [apply FloatFacts.tenths_nonneg|reflexivity].
Qed.

(** The phrase [p] occurs in the lower-cased title. *)
Definition phrase_matches (title_lower : str) (p : str) : bool :=
  Str.contains (Str.lower p) title_lower.

Lemma priority_bonus_cases phrases t :
  priority_bonus phrases t
  = if existsb (phrase_matches t) phrases then 0.2%float else 0%float.
Proof.
  induction phrases as [|p ps IH]; [reflexivity|].
  simpl. unfold phrase_matches at 1.
  destruct (Str.contains (Str.lower p) t); [reflexivity|exact IH].
Qed.

Lemma priority_bonus_nonneg phrases t :
  FloatFacts.nonneg (priority_bonus phrases t) = true.
Proof.
  rewrite priority_bonus_cases. destruct (existsb _ _); reflexivity.
Qed.

Lemma total_score_in_unit cfg t c :
  FloatFacts.in_unit (total_score cfg t c) = true.
Proof.
  unfold total_score. apply FloatFacts.nonneg_min_one.
  repeat apply FloatFacts.add_nonneg.
  - apply title_score_nonneg.
  - apply content_score_nonneg.
  - apply priority_bonus_nonneg.
Qed.

Lemma score_of_strings section persona title content :
  section !! "title"%string = Some (VStr title) ->
  section !! "content"%string = Some (VStr content) ->
  calculate_section_score section persona
  = Ok match personas !! persona with
       | Some cfg => total_score cfg (Str.lower title) (Str.lower content)
       | None => 0%float
       end.
Proof.
  intros Ht Hc. unfold calculate_section_score, getitem.
  destruct (personas !! persona); [|reflexivity].
  rewrite Ht, Hc. reflexivity.
Qed.

Lemma score_in_unit section persona title content :
  section !! "title"%string = Some (VStr title) ->
  section !! "content"%string = Some (VStr content) ->
  exists score,
    calculate_section_score section persona = Ok score
    /\ FloatFacts.in_unit score = true.
Proof.
  intros Ht Hc. rewrite (score_of_strings _ _ _ _ Ht Hc).
  eexists. split; [reflexivity|].
  destruct (personas !! persona); [apply total_score_in_unit|reflexivity].
Qed.

(** Claim C4.  For a section with any title and content strings and for
    every persona name (the four configured ones in particular), the scorer
    returns a score, and the score lies between 0.0 and 1.0. *)
Theorem calculate_section_score_bounded
    (section : dict) (persona : string) (title content : str) :
  section !! "title"%string = Some (VStr title) ->
  section !! "content"%string = Some (VStr content) ->
  exists score,
    calculate_section_score section persona = Ok score
    /\ (0 <=? score)%float = true
    /\ (score <=? 1)%float = true.
Proof.
  intros Ht Hc.
  destruct (score_in_unit section persona title content Ht Hc)
    as (score & Hs & Hu).
  exists score. split; [exact Hs|].
  unfold FloatFacts.in_unit in Hu. apply andb_true_iff in Hu. exact Hu.
Qed.

Definition summary_section : dict :=
  <["title" := VStr (lit "Executive Summary")]>
    (<["content" := VStr (lit "strategy strategy strategy market")]>
       (<["page_number" := VInt 1]> ∅)).

(** Witness for C4: the scenario section, scored for the investor. *)
Lemma calculate_section_score_bounded_witness :
  exists score,
    calculate_section_score summary_section "investor" = Ok score
    /\ (0 <=? score)%float = true
    /\ (score <=? 1)%float = true.
Proof.
  apply (calculate_section_score_bounded summary_section "investor"
           (lit "Executive Summary") (lit "strategy strategy strategy market"));
    reflexivity.
Defined.

(** *** The scenario of the executive summary *)

(** Occurrences of keyword [k] in the lower-cased content. *)
Definition occurrences (content : str) (k : str) : nat :=
  Str.count (Str.lower k) (Str.lower content).

Lemma content_score_occurrences kws content :
  content_score kws (Str.lower content)
  = fold_left
      (fun score n =>
         (score + Float64.min (Float64.of_nat n * 0.1) 0.5)%float)
      (List.map (occurrences content) kws) 0%float.
Proof.
  unfold content_score. generalize 0%float.
  induction kws as [|k kws IH]; intros acc; [reflexivity|].
  simpl. apply IH.
Qed.

Definition scenario_section (content : str) : dict :=
  <["title" := VStr (lit "Executive Summary")]>
    (<["content" := VStr content]> (<["page_number" := VInt 1]> ∅)).

(** Claim C6, as amended.  For the title [Executive Summary] and the
    executive persona the title term is 0.0: none of the seven keywords
    occurs in the lower-cased title.  With a content that holds [strategy]
    three times, [market] once and no other keyword, the content term is
    0.4, the priority bonus 0.2 (the phrase [executive summary] matches),
    and the score 0.6000000000000001, stored as 0.6 after rounding. *)
Theorem executive_summary_scenario (content : str) :
  List.map (occurrences content) (keywords executive)
  = [3; 0; 0; 0; 1; 0; 0]%nat ->
  title_score (keywords executive) (Str.lower (lit "Executive Summary"))
  = 0%float
  /\ content_score (keywords executive) (Str.lower content) = 0.4%float
  /\ priority_bonus (priority_sections executive)
       (Str.lower (lit "Executive Summary")) = 0.2%float
  /\ calculate_section_score (scenario_section content) "executive"
     = Ok 0.6000000000000001%float
  /\ Float64.round2 0.6000000000000001%float = 0.6%float.
Proof.
  intros H.
  assert (Hc : content_score (keywords executive) (Str.lower content)
               = 0.4%float).
  { rewrite content_score_occurrences, H. reflexivity. }
  split; [reflexivity|]. split; [exact Hc|]. split; [reflexivity|].
  split; [|reflexivity].
  rewrite (score_of_strings _ "executive" (lit "Executive Summary") content)
    by reflexivity.
  change (personas !! "executive"%string) with (Some executive).
  unfold total_score. rewrite Hc. reflexivity.
Qed.

(** Witness for C6: the content [strategy strategy strategy market]. *)
Lemma executive_summary_scenario_witness :
  calculate_section_score
    (scenario_section (lit "strategy strategy strategy market")) "executive"
  = Ok 0.6000000000000001%float.
Proof.
  apply (proj1 (proj2 (proj2 (proj2
           (executive_summary_scenario
              (lit "strategy strategy strategy market") eq_refl))))).
Defined.

(** Counterexample to C6 as stated: the title term of the scenario is 0.0,
    which differs from 0.3. *)
Lemma executive_summary_title_term :
  title_score (keywords executive) (Str.lower (lit "Executive Summary"))
  = 0%float
  /\ (title_score (keywords executive) (Str.lower (lit "Executive Summary"))
      =? 0.3)%float = false
  /\ existsb (fun k => Str.contains (Str.lower k)
                         (Str.lower (lit "Executive Summary")))
       (keywords executive) = false.
Proof. repeat split; reflexivity. Qed.

(** *** Unknown personas *)

Definition known_personas : list string :=
  ["executive"; "technical"; "marketing"; "investor"]%string.

Lemma unknown_persona_lookup (persona : string) :
  ~ In persona known_personas -> personas !! persona = None.
Proof.
  intros H. unfold personas.
  rewrite !lookup_insert_ne, lookup_empty; [reflexivity| | | |];
    intros E; apply H; rewrite <- E; simpl; tauto.
Qed.

Lemma unknown_persona_score (section : dict) (persona : string) :
  ~ In persona known_personas ->
  calculate_section_score section persona = Ok 0%float.
Proof.
  intros H. unfold calculate_section_score.
  rewrite (unknown_persona_lookup persona H). reflexivity.
Qed.

End ScorerFacts.

(** ** Ranker *)

Module RankerFacts.
Import Ranker.

(** *** One step of each loop *)

Lemma bind_ok {A B : Type} (r : result A) (k : A -> result B) (b : B) :
  r ≫= k = Ok b -> exists a, r = Ok a /\ k a = Ok b.
Proof. destruct r as [a|e]; [|discriminate]. intros H. exists a. auto. Qed.

Lemma read_ok h r d : Heap.read h r = Ok d <-> h !! r = Some d.
Proof.
  unfold Heap.read. destruct (h !! r); split; intros H; congruence.
Qed.

Lemma setitem_ok h r key v h' :
  Heap.setitem h r key v = Ok h' ->
  exists d, h !! r = Some d /\ h' = <[r := <[key := v]> d]> h.
Proof.
  unfold Heap.setitem. intros H. apply bind_ok in H as (d & Hd & H).
  apply read_ok in Hd. exists d. split; [exact Hd|congruence].
Qed.

Lemma setitem_frame h r key v h' :
  Heap.setitem h r key v = Ok h' ->
  List.length h' = List.length h
  /\ forall r', r' <> r -> h' !! r' = h !! r'.
Proof.
  intros H. apply setitem_ok in H as (d & _ & ->). split.
  - apply length_insert.
  - intros r' Hr. apply list_lookup_insert_ne. congruence.
Qed.

(** *** The input objects are left alone *)

Lemma score_loop_frame persona sections : forall scored h scored' h',
  score_loop persona sections scored h = Ok (scored', h') ->
  exists copies,
    h' = h ++ copies
    /\ scored' = scored ++ seq (List.length h) (List.length copies)
    /\ List.length copies = List.length sections.
Proof.
  induction sections as [|section rest IH]; intros scored h scored' h' H.
  - simpl in H. injection H as <- <-. exists []. simpl.
    rewrite !app_nil_r. repeat split; reflexivity.
  - simpl in H. apply bind_ok in H as (d & Hd & H).
    apply bind_ok in H as (score & Hs & H).
    apply bind_ok in H as (h1 & H1 & H).
    apply setitem_ok in H1 as (d1 & Hd1 & ->).
    apply IH in H as (copies & -> & -> & Hlen).
    rewrite lookup_app_r in Hd1 by lia.
    rewrite Nat.sub_diag in Hd1. simpl in Hd1. injection Hd1 as <-.
    exists (<["relevance_score"%string := VFloat score]> d :: copies).
    rewrite length_insert, length_app. simpl.
    rewrite insert_app_r_alt by lia. rewrite Nat.sub_diag. simpl.
    rewrite <- !app_assoc. simpl. split; [reflexivity|]. split; [|lia].
    f_equal. f_equal. f_equal. lia.
Qed.

Lemma sort_keys_refs h rs keyed :
  sort_keys h rs = Ok keyed -> List.map snd keyed = rs.
Proof.
  revert keyed. induction rs as [|r rs IH]; intros keyed H.
  - simpl in H. injection H as <-. reflexivity.
  - simpl in H. apply bind_ok in H as (k & _ & H).
    apply bind_ok in H as (ks & Hks & H). injection H as <-.
    simpl. f_equal. apply IH, Hks.
Qed.

Lemma insert_desc_perm x l : Permutation (insert_desc x l) (x :: l).
Proof.
  induction l as [|y l IH]; [reflexivity|].
  simpl. destruct (PrimFloat.ltb (fst y) (fst x)); [reflexivity|].
  rewrite IH. apply perm_swap.
Qed.

Lemma sort_desc_perm l : Permutation (sort_desc l) l.
Proof.
  unfold sort_desc.
  assert (H : forall acc, Permutation
            (fold_left (fun sorted x => insert_desc x sorted) l acc)
            (acc ++ l)).
  { induction l as [|x l IH]; intros acc.
    - simpl. rewrite app_nil_r. reflexivity.
    - simpl. rewrite IH, insert_desc_perm.
      simpl. apply Permutation_middle. }
  apply (H []).
Qed.

Lemma rank_loop_frame rs : forall i h h',
  rank_loop i rs h = Ok h' ->
  List.length h' = List.length h
  /\ forall r, ~ In r rs -> h' !! r = h !! r.
Proof.
  induction rs as [|section rest IH]; intros i h h' H.
  - simpl in H. injection H as <-. split; reflexivity.
  - simpl in H. apply bind_ok in H as (h1 & H1 & H).
    apply bind_ok in H as (score & _ & H).
    apply bind_ok in H as (h2 & H2 & H).
    apply setitem_frame in H1 as [L1 F1], H2 as [L2 F2].
    apply IH in H as [L F]. split; [congruence|].
    intros r Hr. simpl in Hr.
    rewrite F, F2, F1 by intuition congruence. reflexivity.
Qed.

(** Claim C10.  When [prioritize_sections] returns, every object that
    existed before the call, and so every dictionary of the input list, is
    unchanged: it holds its original entries and no [relevance_score] or
    [importance_rank] entry has been added.  The ranked output consists of
    as many new objects, allocated by the call, as there are sections. *)
Theorem prioritize_sections_frame
    (sections : list ref) (persona : string) (h h' : heap) (out : list ref) :
  prioritize_sections sections persona h = Ok (out, h') ->
  (forall r, (r < List.length h)%nat -> h' !! r = h !! r)
  /\ (forall r d, In r sections -> h !! r = Some d -> h' !! r = Some d)
  /\ Forall (fun r => (List.length h <= r < List.length h')%nat) out
  /\ List.length out = List.length sections.
Proof.
  unfold prioritize_sections. intros H.
  apply bind_ok in H as ([scored h1] & H1 & H).
  apply bind_ok in H as (keyed & Hk & H).
  apply bind_ok in H as (h2 & H2 & H). injection H as <- <-.
  apply score_loop_frame in H1 as (copies & -> & -> & Hlen). simpl in Hk.
  apply sort_keys_refs in Hk.
  assert (Hperm : Permutation (List.map snd (sort_desc keyed))
                    (seq (List.length h) (List.length copies))).
  { rewrite <- Hk. apply Permutation_map, sort_desc_perm. }
  apply rank_loop_frame in H2 as [L F].
  assert (Hnew : forall r, In r (List.map snd (sort_desc keyed)) ->
                   (List.length h <= r < List.length h + List.length copies)%nat).
  { intros r Hr. apply (Permutation_in _ Hperm) in Hr.
    apply in_seq in Hr. lia. }
  assert (Hold : forall r, (r < List.length h)%nat -> h2 !! r = h !! r).
  { intros r Hr. rewrite F.
    - apply lookup_app_l. exact Hr.
    - intros Hin. apply Hnew in Hin. lia. }
  split; [exact Hold|]. split; [|split].
  - intros r d _ Hd. rewrite Hold; [exact Hd|].
    apply lookup_lt_Some in Hd. exact Hd.
  - apply List.Forall_forall. intros r Hr. apply Hnew in Hr.
    rewrite L, length_app. exact Hr.
  - rewrite (Permutation_length Hperm), length_seq. exact Hlen.
Qed.

Definition sample_heap : heap :=
  [ScorerFacts.summary_section;
   <["title" := VStr (lit "Market Analysis")]>
     (<["content" := VStr (lit "growth of the market and revenue")]>
        (<["page_number" := VInt 2]> ∅))].

(** The call returns normally. *)
Definition returns {A : Type} (r : result A) : bool :=
  match r with Ok _ => true | Raise _ => false end.

Lemma sample_returns :
  returns (prioritize_sections [0; 1]%nat "executive" sample_heap) = true.
Proof. vm_compute. reflexivity. Qed.

(** Witness for C10: two sections ranked for the executive persona. *)
Lemma prioritize_sections_frame_witness :
  match prioritize_sections [0; 1]%nat "executive" sample_heap with
  | Ok (out, h') =>
      h' !! 0%nat = sample_heap !! 0%nat
      /\ h' !! 1%nat = sample_heap !! 1%nat
      /\ List.length out = 2%nat
  | Raise _ => False
  end.
Proof.
  destruct (prioritize_sections [0; 1]%nat "executive" sample_heap)
    as [[out h']|e] eqn:E.
  - pose proof (prioritize_sections_frame _ _ _ _ _ E) as (H & _ & _ & L).
    split; [apply H; simpl; lia|]. split; [apply H; simpl; lia|exact L].
  - pose proof sample_returns as R. rewrite E in R. discriminate.
Defined.

(** *** The stable sort by decreasing score *)

(** [x] precedes [y]: a larger score, or the same score and an earlier
    reference.  Scores are compared by their value, which is how [<]
    compares floats that are not NaN. *)
Definition precedes (x y : float * ref) : Prop :=
  FloatFacts.value (fst y) < FloatFacts.value (fst x)
  \/ (FloatFacts.value (fst x) = FloatFacts.value (fst y)
      /\ (snd x < snd y)%nat).

Definition small_key (x : float * ref) : Prop :=
  FloatFacts.small (fst x) = true.

Lemma insert_desc_forall (P : float * ref -> Prop) x acc :
  Forall P (x :: acc) -> Forall P (insert_desc x acc).
Proof.
  rewrite !List.Forall_forall. intros H y Hy. apply H.
  apply (Permutation_in _ (insert_desc_perm x acc)). exact Hy.
Qed.

Lemma insert_desc_sorted x acc :
  small_key x -> Forall small_key acc ->
  StronglySorted precedes acc ->
  Forall (fun y => (snd y < snd x)%nat) acc ->
  StronglySorted precedes (insert_desc x acc).
Proof.
  intros Hx. induction acc as [|y acc IH]; intros Hs Hsorted Hrefs.
  - simpl. repeat constructor.
  - apply StronglySorted_inv in Hsorted as [Hsorted Hy].
    apply List.Forall_cons_iff in Hs as [Hys Hs].
    apply List.Forall_cons_iff in Hrefs as [Hyr Hrefs].
    simpl. rewrite (FloatFacts.ltb_value _ _ Hys Hx).
    destruct (Z.ltb_spec (FloatFacts.value (fst y)) (FloatFacts.value (fst x)))
      as [Hlt|Hge].
    + constructor; [constructor; assumption|].
      constructor; [left; exact Hlt|].
      rewrite List.Forall_forall in Hy |- *. intros z Hz.
      specialize (Hy z Hz). unfold precedes in *. lia.
    + constructor; [apply IH; assumption|].
      apply (insert_desc_forall _ x acc).
      constructor; [|exact Hy]. unfold precedes. lia.
Qed.

Lemma sort_desc_sorted l :
  Forall small_key l ->
  StronglySorted (fun x y => (snd x < snd y)%nat) l ->
  StronglySorted precedes (sort_desc l).
Proof.
  unfold sort_desc.
  assert (H : forall acc,
    StronglySorted precedes acc -> Forall small_key acc ->
    Forall (fun y => Forall (fun x => (snd y < snd x)%nat) l) acc ->
    Forall small_key l ->
    StronglySorted (fun x y => (snd x < snd y)%nat) l ->
    StronglySorted precedes
      (fold_left (fun sorted x => insert_desc x sorted) l acc)).
  { induction l as [|x l IH]; intros acc Hacc Hsmall Hrefs Hl Hsorted.
    - exact Hacc.
    - apply StronglySorted_inv in Hsorted as [Hsorted Hx].
      apply List.Forall_cons_iff in Hl as [Hxs Hl].
      simpl. apply IH.
      + apply insert_desc_sorted; try assumption.
        eapply List.Forall_impl; [|exact Hrefs].
        intros y Hy. apply List.Forall_cons_iff in Hy. tauto.
      + apply (insert_desc_forall _ x acc).
        constructor; assumption.
      + apply (insert_desc_forall _ x acc).
        constructor; [exact Hx|].
        eapply List.Forall_impl; [|exact Hrefs].
        intros y Hy. apply List.Forall_cons_iff in Hy. tauto.
      + exact Hl.
      + exact Hsorted. }
  intros Hl Hsorted. apply H; try assumption; constructor.
Qed.

Lemma sorted_lookup {A : Type} (R : A -> A -> Prop) l :
  StronglySorted R l ->
  forall j k x y, (j < k)%nat -> l !! j = Some x -> l !! k = Some y -> R x y.
Proof.
  induction 1 as [|a l Hs IH Ha]; intros j k x y Hjk Hx Hy.
  - discriminate.
  - destruct k as [|k]; [lia|]. simpl in Hy.
    destruct j as [|j].
    + simpl in Hx. injection Hx as <-.
      rewrite List.Forall_forall in Ha. apply Ha.
      apply list_elem_of_In. eapply list_elem_of_lookup_2. exact Hy.
    + simpl in Hx. apply (IH j k); [lia|assumption|assumption].
Qed.

(** Scores that are all equal leave the list as it is. *)
Lemma insert_desc_tied x acc :
  Forall (fun y => PrimFloat.ltb (fst y) (fst x) = false) acc ->
  insert_desc x acc = acc ++ [x].
Proof.
  induction acc as [|y acc IH]; intros H; [reflexivity|].
  apply List.Forall_cons_iff in H as [Hy H].
  simpl. rewrite Hy, IH by exact H. reflexivity.
Qed.

Lemma sort_desc_tied (k : float) l :
  PrimFloat.ltb k k = false ->
  Forall (fun x => fst x = k) l -> sort_desc l = l.
Proof.
  intros Hk. unfold sort_desc.
  assert (H : forall acc, Forall (fun x => fst x = k) acc ->
    Forall (fun x => fst x = k) l ->
    fold_left (fun sorted x => insert_desc x sorted) l acc = acc ++ l).
  { induction l as [|x l IH]; intros acc Hacc Hl.
    - rewrite app_nil_r. reflexivity.
    - apply List.Forall_cons_iff in Hl as [Hx Hl]. simpl.
      rewrite insert_desc_tied.
      + rewrite IH; [rewrite <- app_assoc; reflexivity| |exact Hl].
        apply List.Forall_app. split; [exact Hacc|].
        constructor; [exact Hx|constructor].
      + eapply List.Forall_impl; [|exact Hacc].
        intros y Hy. simpl in Hy. rewrite Hy, Hx. exact Hk. }
  intros Hl. apply (H [] (List.Forall_nil _) Hl).
Qed.

(** *** What the three loops compute *)

(** The copy of [d] carrying score [s], and the copy once ranked [k]-th
    (counting from 0). *)
Definition scored_copy (d : dict) (s : float) : dict :=
  <["relevance_score" := VFloat s]> d.

Definition ranked_copy (d : dict) (s : float) (k : nat) : dict :=
  <["relevance_score" := VFloat (Float64.round2 s)]>
    (<["importance_rank" := VInt (Z.of_nat k + 1)]> (scored_copy d s)).

(** The sort keys of the copies, paired with their references. *)
Fixpoint keyed_from (base : nat) (ss : list float) : list (float * ref) :=
  match ss with
  | [] => []
  | s :: ss' => (s, base) :: keyed_from (S base) ss'
  end.

Lemma alloc_setitem h d key v :
  Heap.setitem (h ++ [d]) (List.length h) key v = Ok (h ++ [<[key := v]> d]).
Proof.
  unfold Heap.setitem, Heap.read.
  rewrite lookup_app_r, Nat.sub_diag by lia. simpl.
  rewrite insert_app_r_alt, Nat.sub_diag by lia. reflexivity.
Qed.

Lemma score_loop_run persona sections : forall ds ss scored h,
  Forall2 (fun r d => h !! r = Some d) sections ds ->
  Forall2 (fun d s => Scorer.calculate_section_score d persona = Ok s) ds ss ->
  score_loop persona sections scored h
  = Ok (scored ++ seq (List.length h) (List.length sections),
        h ++ zip_with scored_copy ds ss).
Proof.
  induction sections as [|r rest IH]; intros ds ss scored h H1 H2.
  - inversion H1; subst. inversion H2; subst. simpl.
    rewrite !app_nil_r. reflexivity.
  - inversion H1 as [|? d ? ds' Hr Hrest]; subst.
    inversion H2 as [|? s ? ss' Hs Hss]; subst.
    simpl. unfold Heap.read at 1. rewrite Hr. simpl. rewrite Hs. simpl.
    rewrite alloc_setitem. simpl.
    rewrite (IH ds' ss').
    + rewrite length_app. simpl. rewrite Nat.add_1_r, <- !app_assoc.
      reflexivity.
    + eapply Forall2_impl; [exact Hrest|].
      intros r' d' Hd'. apply lookup_app_l_Some. exact Hd'.
    + exact Hss.
Qed.

Lemma sort_key_run h r d s :
  h !! r = Some d -> d !! "relevance_score"%string = Some (VFloat s) ->
  sort_key h r = Ok s.
Proof.
  intros Hd Hs. unfold sort_key, Heap.read, getitem. rewrite Hd. simpl.
  rewrite Hs. reflexivity.
Qed.

Lemma sort_keys_run h ss : forall base,
  (forall i s, ss !! i = Some s ->
     exists c, h !! (base + i)%nat = Some c
               /\ c !! "relevance_score"%string = Some (VFloat s)) ->
  sort_keys h (seq base (List.length ss)) = Ok (keyed_from base ss).
Proof.
  induction ss as [|s ss IH]; intros base H; [reflexivity|].
  simpl. destruct (H 0%nat s eq_refl) as (c & Hc & Hs).
  rewrite Nat.add_0_r in Hc. rewrite (sort_key_run _ _ _ _ Hc Hs). simpl.
  rewrite IH; [reflexivity|].
  intros i s' Hi. destruct (H (S i) s' Hi) as (c' & Hc' & Hs').
  exists c'. split; [|exact Hs'].
  replace (S base + i)%nat with (base + S i)%nat by lia. exact Hc'.
Qed.

Lemma keyed_from_lookup ss : forall base i s r,
  keyed_from base ss !! i = Some (s, r) <->
  r = (base + i)%nat /\ ss !! i = Some s.
Proof.
  induction ss as [|s0 ss IH]; intros base i s r.
  - simpl. split; [discriminate|]. intros [_ H]. discriminate.
  - destruct i as [|i]; simpl.
    + split.
      * intros H. injection H as <- <-. split; [lia|reflexivity].
      * intros [-> H]. injection H as <-. f_equal. f_equal. lia.
    + rewrite IH. split; intros [-> H]; (split; [lia|exact H]).
Qed.

Lemma keyed_from_refs ss : forall base,
  List.map snd (keyed_from base ss) = seq base (List.length ss).
Proof.
  induction ss as [|s ss IH]; intros base; [reflexivity|].
  simpl. f_equal. apply IH.
Qed.

Lemma keyed_from_sorted ss : forall base,
  StronglySorted (fun x y => (snd x < snd y)%nat) (keyed_from base ss)
  /\ Forall (fun x => (base <= snd x)%nat) (keyed_from base ss).
Proof.
  induction ss as [|s ss IH]; intros base.
  - split; constructor.
  - destruct (IH (S base)) as [H1 H2]. simpl. split.
    + constructor; [exact H1|].
      eapply List.Forall_impl; [|exact H2]. simpl. intros; lia.
    + constructor; [simpl; lia|].
      eapply List.Forall_impl; [|exact H2]. simpl. intros; lia.
Qed.

Lemma rank_loop_run rs : forall i h,
  NoDup rs ->
  (forall r, In r rs ->
     exists d s, h !! r = Some d
                 /\ d !! "relevance_score"%string = Some (VFloat s)) ->
  exists h',
    rank_loop i rs h = Ok h'
    /\ List.length h' = List.length h
    /\ (forall r, ~ In r rs -> h' !! r = h !! r)
    /\ (forall k r d s,
          rs !! k = Some r -> h !! r = Some d ->
          d !! "relevance_score"%string = Some (VFloat s) ->
          h' !! r
          = Some (<["relevance_score" := VFloat (Float64.round2 s)]>
                    (<["importance_rank" := VInt (Z.of_nat (i + k) + 1)]> d))).
Proof.
  induction rs as [|r rest IH]; intros i h Hnd Hall.
  - exists h. repeat split; try reflexivity. intros k r d s Hk. discriminate.
  - apply NoDup_cons in Hnd as [Hr Hnd].
    destruct (Hall r (or_introl eq_refl)) as (d & s & Hd & Hs).
    set (d1 := <["importance_rank" := VInt (Z.of_nat i + 1)]> d).
    set (h1 := <[r := d1]> h).
    set (d2 := <["relevance_score" := VFloat (Float64.round2 s)]> d1).
    set (h2 := <[r := d2]> h1).
    assert (Hlt : (r < List.length h)%nat) by (eapply lookup_lt_Some; exact Hd).
    assert (E1 : Heap.setitem h r "importance_rank" (VInt (Z.of_nat i + 1))
                 = Ok h1).
    { unfold Heap.setitem, Heap.read. rewrite Hd. reflexivity. }
    assert (Hd1 : h1 !! r = Some d1)
      by (apply list_lookup_insert_eq; exact Hlt).
    assert (E2 : sort_key h1 r = Ok s).
    { apply (sort_key_run _ _ d1 _ Hd1). unfold d1.
      rewrite lookup_insert_ne by discriminate. exact Hs. }
    assert (E3 : Heap.setitem h1 r "relevance_score"
                   (VFloat (Float64.round2 s)) = Ok h2).
    { unfold Heap.setitem, Heap.read. rewrite Hd1. reflexivity. }
    assert (Hother : forall r', r' <> r -> h2 !! r' = h !! r').
    { intros r' Hne. unfold h2, h1.
      rewrite !list_lookup_insert_ne by congruence. reflexivity. }
    destruct (IH (S i) h2 Hnd) as (h' & Hrun & Hlen & Hframe & Hranked).
    { intros r' Hr'. rewrite Hother by (intros ->; apply Hr, list_elem_of_In, Hr').
      apply Hall. right. exact Hr'. }
    exists h'. split; [|split; [|split]].
    + simpl. rewrite E1. simpl. rewrite E2. simpl. rewrite E3. simpl.
      exact Hrun.
    + rewrite Hlen. unfold h2, h1. rewrite !length_insert. reflexivity.
    + intros r' Hr'. simpl in Hr'.
      rewrite Hframe by tauto. apply Hother. intuition congruence.
    + intros k r' d' s' Hk Hd' Hs'. destruct k as [|k].
      * simpl in Hk. injection Hk as <-.
        assert (d' = d) by congruence. subst d'.
        assert (s' = s) by congruence. subst s'.
        rewrite Hframe by (intros Hin; apply Hr, list_elem_of_In, Hin).
        unfold h2. rewrite list_lookup_insert_eq
          by (unfold h1; rewrite length_insert; exact Hlt).
        unfold d2, d1. rewrite Nat.add_0_r. reflexivity.
      * simpl in Hk.
        assert (Hne : r' <> r).
        { intros ->. apply Hr. eapply list_elem_of_lookup_2. exact Hk. }
        replace (i + S k)%nat with (S i + k)%nat by lia.
        apply Hranked; [exact Hk| |exact Hs'].
        rewrite Hother by exact Hne. exact Hd'.
Qed.

Lemma ranked_copy_fields d s k :
  ranked_copy d s k !! "importance_rank"%string = Some (VInt (Z.of_nat k + 1))
  /\ ranked_copy d s k !! "relevance_score"%string
     = Some (VFloat (Float64.round2 s))
  /\ forall key, key <> "importance_rank"%string ->
                 key <> "relevance_score"%string ->
                 ranked_copy d s k !! key = d !! key.
Proof.
  unfold ranked_copy, scored_copy. split; [|split].
  - rewrite lookup_insert_ne by discriminate. apply lookup_insert_eq.
  - apply lookup_insert_eq.
  - intros key H1 H2. rewrite !lookup_insert_ne by congruence. reflexivity.
Qed.

(** The whole call, for sections that can be scored: [sorted] are the
    scores paired with the references of the copies, in ranked order. *)
Lemma prioritize_sections_run sections persona h ds ss :
  Forall2 (fun r d => h !! r = Some d) sections ds ->
  Forall2 (fun d s => Scorer.calculate_section_score d persona = Ok s) ds ss ->
  exists h',
    prioritize_sections sections persona h
    = Ok (List.map snd (sort_desc (keyed_from (List.length h) ss)), h')
    /\ List.length h' = (List.length h + List.length sections)%nat
    /\ (forall r, (r < List.length h)%nat -> h' !! r = h !! r)
    /\ (forall k s r,
          sort_desc (keyed_from (List.length h) ss) !! k = Some (s, r) ->
          exists i d,
            r = (List.length h + i)%nat /\ ds !! i = Some d
            /\ ss !! i = Some s
            /\ h' !! r = Some (ranked_copy d s k)).
Proof.
  intros H1 H2.
  set (base := List.length h).
  set (keyed := keyed_from base ss).
  set (copies := zip_with scored_copy ds ss).
  pose proof (Forall2_length _ _ _ H1) as L1.
  pose proof (Forall2_length _ _ _ H2) as L2.
  assert (Lc : List.length copies = List.length ss).
  { unfold copies. rewrite length_zip_with. lia. }
  assert (Hcopy : forall i s, ss !! i = Some s ->
            exists d, ds !! i = Some d
                      /\ (h ++ copies) !! (base + i)%nat
                         = Some (scored_copy d s)).
  { intros i s Hs.
    destruct (lookup_lt_is_Some_2 ds i) as [d Hd].
    { apply lookup_lt_Some in Hs. lia. }
    exists d. split; [exact Hd|].
    rewrite lookup_app_r by (unfold base; lia).
    replace (base + i - List.length h)%nat with i by (unfold base; lia).
    unfold copies. rewrite lookup_zip_with, Hd. simpl. rewrite Hs.
    reflexivity. }
  assert (Hperm : Permutation (List.map snd (sort_desc keyed))
                    (seq base (List.length ss))).
  { rewrite <- (keyed_from_refs ss base).
    apply Permutation_map, sort_desc_perm. }
  assert (Hin : forall s r, In (s, r) (sort_desc keyed) ->
            exists i, r = (base + i)%nat /\ ss !! i = Some s).
  { intros s r Hsr.
    apply (Permutation_in _ (sort_desc_perm keyed)) in Hsr.
    apply list_elem_of_In, list_elem_of_lookup in Hsr as [i Hi].
    exists i. apply keyed_from_lookup. exact Hi. }
  destruct (rank_loop_run (List.map snd (sort_desc keyed)) 0 (h ++ copies))
    as (h' & Hrun & Hlen & Hframe & Hranked).
  { rewrite Hperm. apply NoDup_seq. }
  { intros r Hr. apply (Permutation_in _ Hperm) in Hr.
    apply in_seq in Hr.
    destruct (lookup_lt_is_Some_2 ss (r - base)) as [s Hs]; [lia|].
    destruct (Hcopy _ _ Hs) as (d & _ & Hd).
    replace (base + (r - base))%nat with r in Hd by lia.
    exists (scored_copy d s), s. split; [exact Hd|].
    apply lookup_insert_eq. }
  exists h'. split; [|split; [|split]].
  - unfold prioritize_sections.
    rewrite (score_loop_run persona sections ds ss [] h H1 H2). simpl.
    fold base copies. rewrite L1, L2.
    rewrite (sort_keys_run (h ++ copies) ss base).
    + simpl. fold keyed. rewrite Hrun. reflexivity.
    + intros i s Hs. destruct (Hcopy i s Hs) as (d & _ & Hd).
      exists (scored_copy d s). split; [exact Hd|apply lookup_insert_eq].
  - rewrite Hlen, length_app. lia.
  - intros r Hr. rewrite Hframe.
    + apply lookup_app_l. exact Hr.
    + intros Hin'. apply (Permutation_in _ Hperm) in Hin'.
      apply in_seq in Hin'. unfold base in Hin'. lia.
  - intros k s r Hk.
    destruct (Hin s r) as (i & -> & Hs).
    { apply list_elem_of_In. eapply list_elem_of_lookup_2. exact Hk. }
    destruct (Hcopy i s Hs) as (d & Hd & Hc).
    exists i, d. split; [reflexivity|]. split; [exact Hd|].
    split; [exact Hs|].
    unfold ranked_copy.
    apply (Hranked k (base + i)%nat (scored_copy d s) s).
    + rewrite list_lookup_fmap, Hk. reflexivity.
    + exact Hc.
    + apply lookup_insert_eq.
Qed.

(** *** Ranking *)

(** A section dictionary with a title and a content string. *)
Definition has_text (d : dict) : Prop :=
  exists title content,
    d !! "title"%string = Some (VStr title)
    /\ d !! "content"%string = Some (VStr content).

Lemma scores_exist persona ds :
  Forall has_text ds ->
  exists ss,
    Forall2 (fun d s => Scorer.calculate_section_score d persona = Ok s) ds ss
    /\ Forall (fun s => FloatFacts.in_unit s = true) ss.
Proof.
  induction 1 as [|d ds (title & content & Ht & Hc) _ (ss & IH1 & IH2)].
  - exists []. split; constructor.
  - destruct (ScorerFacts.score_in_unit d persona title content Ht Hc)
      as (s & Hs & Hu).
    exists (s :: ss). split; constructor; assumption.
Qed.

Lemma keyed_from_small ss : forall base,
  Forall (fun s => FloatFacts.in_unit s = true) ss ->
  Forall small_key (keyed_from base ss).
Proof.
  induction ss as [|s ss IH]; intros base H; [constructor|].
  apply List.Forall_cons_iff in H as [Hs H]. simpl. constructor.
  - apply FloatFacts.in_unit_small, Hs.
  - apply IH, H.
Qed.

Lemma seq_unshift base n :
  List.map (fun r => (r - base)%nat) (seq base n) = seq 0 n.
Proof.
  replace (seq base n) with (List.map (fun i => (base + i)%nat) (seq 0 n)).
  - rewrite List.map_map. rewrite <- (List.map_id (seq 0 n)) at 2.
    apply List.map_ext. intros i. lia.
  - pose proof (fmap_add_seq base 0 n) as H. rewrite Nat.add_0_r in H.
    exact H.
Qed.

(** The objects of the ranked sequence: the one at position [k] is the
    copy of some section, ranked [k]-th. *)
Lemma prioritize_sections_objects sections persona h ds :
  Forall2 (fun r d => h !! r = Some d) sections ds ->
  Forall has_text ds ->
  exists out h',
    prioritize_sections sections persona h = Ok (out, h')
    /\ List.length out = List.length sections
    /\ (forall k r, out !! k = Some r ->
          exists d s, In d ds /\ h' !! r = Some (ranked_copy d s k)).
Proof.
  intros H1 Htext.
  destruct (scores_exist persona ds Htext) as (ss & H2 & _).
  destruct (prioritize_sections_run sections persona h ds ss H1 H2)
    as (h' & Hrun & _ & _ & Hranked).
  eexists _, h'. split; [exact Hrun|]. split.
  - rewrite length_map, (Permutation_length (sort_desc_perm _)).
    rewrite <- (length_map snd), keyed_from_refs, length_seq.
    rewrite <- (Forall2_length _ _ _ H2). symmetry.
    apply (Forall2_length _ _ _ H1).
  - intros k r Hk. rewrite list_lookup_fmap in Hk.
    destruct (sort_desc _ !! k) as [[s r']|] eqn:E; [|discriminate].
    simpl in Hk. injection Hk as <-.
    destruct (Hranked k s r' E) as (i & d & _ & Hd & _ & Hh).
    exists d, s. split; [|exact Hh].
    apply list_elem_of_In. eapply list_elem_of_lookup_2. exact Hd.
Qed.

(** Claim C1, as amended.  For every list of sections with title and
    content strings and every persona name, the ranker returns one new
    object per section ([origin] tells which section each one copies, every
    section once).  The object at position [k] carries importance_rank
    [k + 1], so the ranks are exactly 1..N, and the rounded score of its
    section.  Going down the ranks, the score before rounding never
    increases, sections whose scores before rounding are equal keep their
    extraction order, and the stored, rounded relevance_score never
    increases. *)
Theorem prioritize_sections_ranking
    (sections : list ref) (persona : string) (h : heap) (ds : list dict) :
  Forall2 (fun r d => h !! r = Some d) sections ds ->
  Forall has_text ds ->
  exists out h' origin scores,
    prioritize_sections sections persona h = Ok (out, h')
    /\ Forall2 (fun d s => Scorer.calculate_section_score d persona = Ok s)
         ds scores
    /\ List.length out = List.length sections
    /\ Permutation origin (seq 0 (List.length sections))
    /\ (forall k r, out !! k = Some r ->
          exists d', h' !! r = Some d'
            /\ d' !! "importance_rank"%string = Some (VInt (Z.of_nat k + 1)))
    /\ (forall k i, origin !! k = Some i ->
          exists r d s,
            out !! k = Some r /\ ds !! i = Some d /\ scores !! i = Some s
            /\ h' !! r = Some (ranked_copy d s k))
    /\ (forall j k a b sa sb,
          (j < k)%nat ->
          origin !! j = Some a -> origin !! k = Some b ->
          scores !! a = Some sa -> scores !! b = Some sb ->
          (sa <? sb)%float = false
          /\ ((sb <? sa)%float = false -> (a < b)%nat)
          /\ (Float64.round2 sb <=? Float64.round2 sa)%float = true).
Proof.
  intros H1 Htext.
  destruct (scores_exist persona ds Htext) as (ss & H2 & Hunit).
  destruct (prioritize_sections_run sections persona h ds ss H1 H2)
    as (h' & Hrun & Hlen & Hframe & Hranked).
  set (base := List.length h) in *.
  set (sorted := sort_desc (keyed_from base ss)) in *.
  pose proof (Forall2_length _ _ _ H1) as L1.
  pose proof (Forall2_length _ _ _ H2) as L2.
  assert (Hperm : Permutation (List.map snd sorted)
                    (seq base (List.length ss))).
  { rewrite <- (keyed_from_refs ss base).
    apply Permutation_map, sort_desc_perm. }
  assert (Hsorted : StronglySorted precedes sorted).
  { apply sort_desc_sorted.
    - apply keyed_from_small, Hunit.
    - apply keyed_from_sorted. }
  assert (Horigin : forall k i,
            List.map (fun x => (snd x - base)%nat) sorted !! k = Some i ->
            exists s, sorted !! k = Some (s, (base + i)%nat)
                      /\ ss !! i = Some s).
  { intros k i Hk. rewrite list_lookup_fmap in Hk.
    destruct (sorted !! k) as [[s r]|] eqn:E; [|discriminate].
    simpl in Hk. injection Hk as <-.
    destruct (Hranked k s r E) as (i & d & -> & _ & Hs & _).
    exists s. replace (base + i - base)%nat with i by lia.
    split; [reflexivity|exact Hs]. }
  exists (List.map snd sorted), h',
         (List.map (fun x => (snd x - base)%nat) sorted), ss.
  split; [exact Hrun|]. split; [exact H2|]. split; [|split; [|split; [|split]]].
  - rewrite (Permutation_length Hperm), length_seq. lia.
  - replace (List.map (fun x => (snd x - base)%nat) sorted)
      with (List.map (fun r => (r - base)%nat) (List.map snd sorted))
      by (rewrite List.map_map; reflexivity).
    rewrite Hperm, L1, L2.
    replace (seq 0 (List.length ss))
      with (List.map (fun r => (r - base)%nat) (seq base (List.length ss)));
      [reflexivity|].
    apply seq_unshift.
  - intros k r Hk. rewrite list_lookup_fmap in Hk.
    destruct (sorted !! k) as [[s r']|] eqn:E; [|discriminate].
    simpl in Hk. injection Hk as <-.
    destruct (Hranked k s r' E) as (i & d & _ & _ & _ & Hd).
    exists (ranked_copy d s k). split; [exact Hd|].
    apply ranked_copy_fields.
  - intros k i Hk. destruct (Horigin k i Hk) as (s & E & Hs).
    destruct (Hranked k s _ E) as (i' & d & Hi & Hd & _ & Hh').
    assert (i' = i) by lia. subst i'.
    exists (base + i)%nat, d, s.
    rewrite list_lookup_fmap, E. repeat split; assumption.
  - intros j k a b sa sb Hjk Ha Hb Hsa Hsb.
    destruct (Horigin j a Ha) as (sa' & Ea & Hsa').
    destruct (Horigin k b Hb) as (sb' & Eb & Hsb').
    assert (sa' = sa) by congruence. assert (sb' = sb) by congruence.
    subst sa' sb'.
    pose proof (sorted_lookup _ _ Hsorted j k _ _ Hjk Ea Eb) as Hprec.
    unfold precedes in Hprec. simpl in Hprec.
    rewrite List.Forall_forall in Hunit.
    assert (Ua : FloatFacts.in_unit sa = true).
    { apply Hunit, list_elem_of_In. eapply list_elem_of_lookup_2. exact Hsa. }
    assert (Ub : FloatFacts.in_unit sb = true).
    { apply Hunit, list_elem_of_In. eapply list_elem_of_lookup_2. exact Hsb. }
    pose proof (FloatFacts.in_unit_small _ Ua) as Sa.
    pose proof (FloatFacts.in_unit_small _ Ub) as Sb.
    rewrite !FloatFacts.ltb_value by assumption.
    split; [apply Z.ltb_ge; lia|]. split.
    + intros Htie. apply Z.ltb_ge in Htie. lia.
    + apply FloatFacts.round2_mono; try assumption.
      rewrite FloatFacts.leb_value by assumption. apply Z.leb_le. lia.
Qed.

Lemma sample_heap_text : Forall has_text sample_heap.
Proof.
  repeat constructor.
  - exists (lit "Executive Summary"), (lit "strategy strategy strategy market").
    split; reflexivity.
  - exists (lit "Market Analysis"), (lit "growth of the market and revenue").
    split; reflexivity.
Qed.

(** Witness for C1: the two sample sections, ranked for the executive. *)
Lemma prioritize_sections_ranking_witness :
  exists out h',
    prioritize_sections [0; 1]%nat "executive" sample_heap = Ok (out, h')
    /\ List.length out = 2%nat.
Proof.
  destruct (prioritize_sections_ranking [0; 1]%nat "executive" sample_heap
              sample_heap)
    as (out & h' & origin & scores & E & _ & L & _).
  - repeat constructor.
  - exact sample_heap_text.
  - exists out, h'. split; [exact E|exact L].
Defined.

(** Two sections of one document: the first names three executive keywords
    in its title (score 0.3 + 0.3 + 0.3 = 0.8999999999999999), the second
    names two in its title and repeats a third one three times in its
    content (score 0.6 + 0.30000000000000004 = 0.9). *)
Definition tie_heap : heap :=
  [<["title" := VStr (lit "strategy business revenue")]>
     (<["content" := VStr (lit "nothing else of note")]>
        (<["page_number" := VInt 1]> ∅));
   <["title" := VStr (lit "strategy business")]>
     (<["content" := VStr (lit "revenue revenue revenue")]>
        (<["page_number" := VInt 1]> ∅))].

(** The stored score of the object [r]. *)
Definition stored_score (h : heap) (r : ref) : option pyval :=
  match h !! r with
  | Some d => d !! "relevance_score"%string
  | None => None
  end.

Definition stored_title (h : heap) (r : ref) : option pyval :=
  match h !! r with
  | Some d => d !! "title"%string
  | None => None
  end.

(** Counterexample to C1 as stated: both sections are stored with
    relevance_score 0.9, yet the second section of the document is ranked
    first: the sort compared the scores before rounding. *)
Lemma rounded_ties_leave_extraction_order :
  Scorer.calculate_section_score
    (<["title" := VStr (lit "strategy business revenue")]>
       (<["content" := VStr (lit "nothing else of note")]>
          (<["page_number" := VInt 1]> ∅))) "executive"
  = Ok 0.8999999999999999%float
  /\ Scorer.calculate_section_score
       (<["title" := VStr (lit "strategy business")]>
          (<["content" := VStr (lit "revenue revenue revenue")]>
             (<["page_number" := VInt 1]> ∅))) "executive"
     = Ok 0.9%float
  /\ match prioritize_sections [0; 1]%nat "executive" tie_heap with
     | Ok (out, h') =>
         List.map (stored_title h') out
         = [Some (VStr (lit "strategy business"));
            Some (VStr (lit "strategy business revenue"))]
         /\ List.map (stored_score h') out
            = [Some (VFloat 0.9); Some (VFloat 0.9)]
     | Raise _ => False
     end.
Proof. vm_compute. repeat split; reflexivity. Qed.

(** *** Unknown personas *)

Lemma zero_scores persona ds :
  ~ In persona ScorerFacts.known_personas ->
  Forall2 (fun d s => Scorer.calculate_section_score d persona = Ok s)
    ds (List.map (fun _ => 0%float) ds).
Proof.
  intros H. induction ds as [|d ds IH]; simpl; constructor; [|exact IH].
  apply ScorerFacts.unknown_persona_score, H.
Qed.

Lemma keyed_from_zero (ds : list dict) : forall base,
  Forall (fun x => fst x = 0%float)
    (keyed_from base (List.map (fun _ => 0%float) ds)).
Proof.
  induction ds as [|d ds IH]; intros base; simpl; constructor;
    [reflexivity|apply IH].
Qed.

(** Claim C7.  For a persona name outside the four configured ones the
    scorer returns 0.0 for every section, whatever it holds, and raises
    nothing; ranking with such a name returns the copies in the order of
    the input list: the object at position [k] copies section [k], with
    score 0.0 and rank [k + 1]. *)
Theorem unknown_persona_ranking (persona : string) :
  ~ In persona ScorerFacts.known_personas ->
  (forall section : dict,
     Scorer.calculate_section_score section persona = Ok 0%float)
  /\ Float64.round2 0 = 0%float
  /\ (forall (sections : list ref) (h : heap) (ds : list dict),
        Forall2 (fun r d => h !! r = Some d) sections ds ->
        exists h',
          prioritize_sections sections persona h
          = Ok (seq (List.length h) (List.length sections), h')
          /\ (forall k d, ds !! k = Some d ->
                h' !! (List.length h + k)%nat
                = Some (ranked_copy d 0%float k))).
Proof.
  intros Hp. split; [|split; [reflexivity|]].
  - intros section. apply ScorerFacts.unknown_persona_score, Hp.
  - intros sections h ds H1.
    set (ss := List.map (fun _ : dict => 0%float) ds).
    destruct (prioritize_sections_run sections persona h ds ss H1
                (zero_scores persona ds Hp))
      as (h' & Hrun & _ & _ & Hranked).
    assert (Hsort : sort_desc (keyed_from (List.length h) ss)
                    = keyed_from (List.length h) ss).
    { apply (sort_desc_tied 0%float); [reflexivity|apply keyed_from_zero]. }
    rewrite Hsort in Hrun, Hranked.
    rewrite keyed_from_refs in Hrun.
    pose proof (Forall2_length _ _ _ H1) as L1.
    exists h'. split.
    + rewrite Hrun. unfold ss. rewrite length_map, L1. reflexivity.
    + intros k d Hd.
      destruct (Hranked k 0%float (List.length h + k)%nat)
        as (i & d' & Hi & Hd' & _ & Hh').
      { apply keyed_from_lookup. split; [reflexivity|].
        unfold ss. rewrite list_lookup_fmap, Hd. reflexivity. }
      assert (i = k) by lia. subst i.
      assert (d' = d) by congruence. subst d'. exact Hh'.
Qed.

(** Witness for C7: the sample sections ranked for an unknown persona. *)
Lemma unknown_persona_ranking_witness :
  Scorer.calculate_section_score ScorerFacts.summary_section "auditor"
  = Ok 0%float
  /\ exists h',
       prioritize_sections [0; 1]%nat "auditor" sample_heap
       = Ok ([2; 3]%nat, h').
Proof.
  assert (Hp : ~ In "auditor"%string ScorerFacts.known_personas).
  { simpl. intros [H|[H|[H|[H|[]]]]]; discriminate. }
  pose proof (unknown_persona_ranking "auditor" Hp) as (H1 & _ & H2).
  split; [apply H1|].
  destruct (H2 [0; 1]%nat sample_heap sample_heap) as (h' & E & _).
  - repeat constructor.
  - exists h'. exact E.
Defined.

End RankerFacts.

(** ** Result validator *)

Module ValidatorFacts.
Import Validator.

(** The title and the content of [d], when present, are strings. *)
Definition text_ok (d : dict) : Prop :=
  (forall v, d !! "title"%string = Some v -> exists s, v = VStr s)
  /\ (forall v, d !! "content"%string = Some v -> exists s, v = VStr s).

Definition is_number (v : pyval) : bool :=
  match v with
  | VFloat _ | VInt _ | VBool _ => true
  | _ => false
  end.

Definition in_unit_range (v : pyval) : bool :=
  match v with
  | VFloat f => PrimFloat.leb 0 f && PrimFloat.leb f 1
  | VInt z => Z.leb 0 z && Z.leb z 1
  | VBool _ => true
  | _ => false
  end.

Definition positive_integer (v : pyval) : bool :=
  match as_int v with
  | Some z => Z.leb 1 z
  | None => false
  end.

Definition too_short (min_len : nat) (s : str) : bool :=
  Str.is_empty (Str.strip s) || Nat.ltb (List.length s) min_len.

(** The checks on one section, in the spec's words (section 4.5): every
    required field present; the rank an integer; the score numeric and
    within 0..1; the page an integer of at least 1; a title of at least 2
    and a content of at least 10 characters, neither blank.  [violation i d
    msg] holds when section number [i] fails the check that [msg] reports. *)
Inductive violation (i : nat) (d : dict) : message -> Prop :=
  | missing_field field :
      In field required_fields -> d !! field = None ->
      violation i d (MissingField i field)
  | rank_not_integer v :
      d !! "importance_rank"%string = Some v -> as_int v = None ->
      violation i d (RankNotInteger i)
  | score_not_number v :
      d !! "relevance_score"%string = Some v -> is_number v = false ->
      violation i d (ScoreNotNumber i)
  | score_out_of_range v :
      d !! "relevance_score"%string = Some v -> is_number v = true ->
      in_unit_range v = false ->
      violation i d (ScoreOutOfRange i)
  | page_not_positive v :
      d !! "page_number"%string = Some v -> positive_integer v = false ->
      violation i d (PageNotPositiveInteger i)
  | title_too_short s :
      d !! "title"%string = Some (VStr s) -> too_short 2 s = true ->
      violation i d (TitleTooShort i)
  | content_too_short s :
      d !! "content"%string = Some (VStr s) -> too_short 10 s = true ->
      violation i d (ContentTooShort i).

Lemma check_required_spec i d msg :
  In msg (check_required i d) <->
  exists field, msg = MissingField i field
                /\ In field required_fields /\ d !! field = None.
Proof.
  unfold check_required. rewrite in_map_iff. split.
  - intros (f & <- & Hf). apply List.filter_In in Hf as [Hin Hk].
    exists f. split; [reflexivity|]. split; [exact Hin|].
    unfold has_key in Hk. destruct (d !! f); [discriminate|reflexivity].
  - intros (f & -> & Hin & Hn). exists f. split; [reflexivity|].
    apply List.filter_In. split; [exact Hin|].
    unfold has_key. rewrite Hn. reflexivity.
Qed.

Lemma check_rank_spec i d ranks msg :
  In msg (fst (check_rank i d ranks)) <->
  msg = RankNotInteger i
  /\ exists v, d !! "importance_rank"%string = Some v /\ as_int v = None.
Proof.
  unfold check_rank. destruct (d !! "importance_rank"%string) as [v|].
  - destruct (as_int v) as [z|] eqn:E; simpl.
    + split; [tauto|]. intros (_ & v' & Hv & Hn). congruence.
    + split.
      * intros [<-|[]]. split; [reflexivity|]. exists v. auto.
      * intros [-> _]. auto.
  - simpl. split; [tauto|]. intros (_ & v' & Hv & _). discriminate.
Qed.

Lemma check_score_value i v msg :
  In msg
    match v with
    | VFloat f =>
        if (PrimFloat.leb 0 f && PrimFloat.leb f 1)%bool then []
        else [ScoreOutOfRange i]
    | _ =>
        match as_int v with
        | Some z => if (Z.leb 0 z && Z.leb z 1)%bool then []
                    else [ScoreOutOfRange i]
        | None => [ScoreNotNumber i]
        end
    end <->
  (msg = ScoreNotNumber i /\ is_number v = false)
  \/ (msg = ScoreOutOfRange i /\ is_number v = true
      /\ in_unit_range v = false).
Proof.
  destruct v as [|b|z|f|s]; simpl.
  - split.
    + intros [<-|[]]. left. split; reflexivity.
    + intros [[-> _]|(_ & H & _)]; [left; reflexivity|discriminate].
  - destruct b; simpl; split; try tauto;
      intros [[_ H]|(_ & _ & H)]; discriminate.
  - destruct (_ && _)%bool; simpl; split.
    + tauto.
    + intros [[_ H]|(_ & _ & H)]; discriminate.
    + intros [<-|[]]. right. repeat split.
    + intros [[_ H]|(-> & _)]; [discriminate|left; reflexivity].
  - destruct (_ && _)%bool; simpl; split.
    + tauto.
    + intros [[_ H]|(_ & _ & H)]; discriminate.
    + intros [<-|[]]. right. repeat split.
    + intros [[_ H]|(-> & _)]; [discriminate|left; reflexivity].
  - split.
    + intros [<-|[]]. left. split; reflexivity.
    + intros [[-> _]|(_ & H & _)]; [left; reflexivity|discriminate].
Qed.

Lemma check_score_spec i d msg :
  In msg (check_score i d) <->
  exists v, d !! "relevance_score"%string = Some v
    /\ ((msg = ScoreNotNumber i /\ is_number v = false)
        \/ (msg = ScoreOutOfRange i /\ is_number v = true
            /\ in_unit_range v = false)).
Proof.
  unfold check_score. destruct (d !! "relevance_score"%string) as [v|].
  - rewrite check_score_value. split.
    + intros H. exists v. split; [reflexivity|exact H].
    + intros (v' & Hv & H). injection Hv as <-. exact H.
  - split; [intros []|]. intros (v & Hv & _). discriminate.
Qed.

Lemma check_page_spec i d msg :
  In msg (check_page i d) <->
  msg = PageNotPositiveInteger i
  /\ exists v, d !! "page_number"%string = Some v
               /\ positive_integer v = false.
Proof.
  unfold check_page.
  destruct (d !! "page_number"%string) as [v|].
  - assert (Hlist :
      match as_int v with
      | Some z => if z <? 1 then [PageNotPositiveInteger i] else []
      | None => [PageNotPositiveInteger i]
      end = if positive_integer v then [] else [PageNotPositiveInteger i]).
    { unfold positive_integer. destruct (as_int v) as [z|]; [|reflexivity].
      destruct (Z.ltb_spec z 1), (Z.leb_spec 1 z); try reflexivity; lia. }
    rewrite Hlist. destruct (positive_integer v) eqn:E; simpl; split.
    + tauto.
    + intros (_ & v' & Hv & Hp). congruence.
    + intros [<-|[]]. split; [reflexivity|]. exists v. auto.
    + intros [-> _]. auto.
  - simpl. split; [tauto|]. intros (_ & v & Hv & _). discriminate.
Qed.

Lemma check_text_spec key min_len msg0 d :
  (forall v, d !! key = Some v -> exists s, v = VStr s) ->
  exists msgs,
    check_text key min_len msg0 d = Ok msgs
    /\ forall msg,
         In msg msgs <->
         msg = msg0
         /\ exists s, d !! key = Some (VStr s) /\ too_short min_len s = true.
Proof.
  intros Hstr. unfold check_text.
  destruct (d !! key) as [v|] eqn:E.
  - destruct (Hstr v eq_refl) as [s ->]. simpl.
    fold (too_short min_len s). destruct (too_short min_len s) eqn:Et.
    + exists [msg0]. split; [reflexivity|]. intros msg. simpl. split.
      * intros [<-|[]]. split; [reflexivity|]. exists s. auto.
      * intros [-> _]. auto.
    + exists []. split; [reflexivity|]. intros msg. simpl. split; [tauto|].
      intros (_ & s' & Hs & Ht). congruence.
  - exists []. split; [reflexivity|]. intros msg. simpl. split; [tauto|].
    intros (_ & s & Hs & _). discriminate.
Qed.

(** The rank a section contributes to the set of ranks, if any. *)
Definition rank_of (d : dict) : option Z :=
  match d !! "importance_rank"%string with
  | Some v => as_int v
  | None => None
  end.

Lemma check_rank_set i d ranks :
  snd (check_rank i d ranks)
  = match rank_of d with Some z => {[ z ]} ∪ ranks | None => ranks end.
Proof.
  unfold check_rank, rank_of.
  destruct (d !! "importance_rank"%string) as [v|]; [|reflexivity].
  destruct (as_int v); reflexivity.
Qed.

Lemma check_section_spec i d ranks :
  text_ok d ->
  exists msgs,
    check_section i d ranks
    = Ok (msgs, match rank_of d with
                | Some z => {[ z ]} ∪ ranks
                | None => ranks
                end)
    /\ forall msg, In msg msgs <-> violation i d msg.
Proof.
  intros [Ht Hc]. unfold check_section.
  pose proof (check_rank_spec i d ranks) as Hrank.
  pose proof (check_rank_set i d ranks) as Hset.
  destruct (check_rank i d ranks) as [rank_errors ranks']. simpl in Hrank, Hset.
  destruct (check_text_spec "title" 2 (TitleTooShort i) d Ht)
    as (title_errors & E1 & Htitle).
  destruct (check_text_spec "content" 10 (ContentTooShort i) d Hc)
    as (content_errors & E2 & Hcontent).
  rewrite E1. simpl. rewrite E2. simpl. rewrite Hset.
  eexists. split; [reflexivity|].
  intros msg. rewrite !in_app_iff, check_required_spec, Hrank,
    check_score_spec, check_page_spec, Htitle, Hcontent.
  split.
  - intros [H|[H|[H|[H|[H|H]]]]].
    + destruct H as (f & -> & Hin & Hn). apply missing_field; assumption.
    + destruct H as (-> & v & Hv & Hn). eapply rank_not_integer; eassumption.
    + destruct H as (v & Hv & [[-> Hn]|(-> & Hn & Hr)]).
      * eapply score_not_number; eassumption.
      * eapply score_out_of_range; eassumption.
    + destruct H as (-> & v & Hv & Hp). eapply page_not_positive; eassumption.
    + destruct H as (-> & s & Hs & Hshort).
      eapply title_too_short; eassumption.
    + destruct H as (-> & s & Hs & Hshort).
      eapply content_too_short; eassumption.
  - intros H. destruct H.
    + left. eauto.
    + right; left. eauto.
    + right; right; left. eauto.
    + right; right; left. eauto 6.
    + right; right; right; left. eauto.
    + right; right; right; right; left. eauto.
    + right; right; right; right; right. eauto.
Qed.

(** The integer ranks of a list of sections, taken together. *)
Fixpoint rank_set (sections : list dict) : gset Z :=
  match sections with
  | [] => ∅
  | d :: rest =>
      match rank_of d with
      | Some z => {[ z ]} ∪ rank_set rest
      | None => rank_set rest
      end
  end.

Lemma check_sections_spec sections : forall i errors ranks,
  Forall text_ok sections ->
  exists found,
    check_sections i sections errors ranks
    = Ok (errors ++ found, rank_set sections ∪ ranks)
    /\ forall msg,
         In msg found <->
         exists k d, sections !! k = Some d
                     /\ violation (S (i + k)) d msg.
Proof.
  induction sections as [|d rest IH]; intros i errors ranks Hok.
  - exists []. simpl. rewrite app_nil_r. split.
    + f_equal. f_equal. set_solver.
    + intros msg. split; [intros []|]. intros (k & d & Hk & _). discriminate.
  - apply List.Forall_cons_iff in Hok as [Hd Hrest].
    destruct (check_section_spec (S i) d ranks Hd) as (msgs & E & Hmsgs).
    destruct (IH (S i) (errors ++ msgs)
                 (match rank_of d with
                  | Some z => {[ z ]} ∪ ranks
                  | None => ranks
                  end) Hrest) as (found & E' & Hfound).
    exists (msgs ++ found). split.
    + simpl. rewrite E. simpl. rewrite E', <- app_assoc.
      f_equal. f_equal. destruct (rank_of d); set_solver.
    + intros msg. rewrite in_app_iff, Hmsgs, Hfound. split.
      * intros [H|(k & d' & Hk & Hv)].
        -- exists 0%nat, d. rewrite Nat.add_0_r. auto.
        -- exists (S k), d'. split; [exact Hk|].
           replace (i + S k)%nat with (S i + k)%nat by lia. exact Hv.
      * intros (k & d' & Hk & Hv). destruct k as [|k].
        -- simpl in Hk. injection Hk as <-. left.
           rewrite Nat.add_0_r in Hv. exact Hv.
        -- right. exists k, d'. split; [exact Hk|].
           replace (S i + k)%nat with (i + S k)%nat by lia. exact Hv.
Qed.

Lemma rank_set_spec sections z :
  z ∈ rank_set sections <->
  exists d, In d sections /\ rank_of d = Some z.
Proof.
  induction sections as [|d rest IH]; simpl.
  - split; [set_solver|]. intros (d & [] & _).
  - destruct (rank_of d) as [z'|] eqn:E.
    + rewrite elem_of_union, elem_of_singleton, IH. split.
      * intros [->|(d' & Hin & Hr)]; [exists d; auto|exists d'; auto].
      * intros (d' & [<-|Hin] & Hr); [left; congruence|right; eauto].
    + rewrite IH. split.
      * intros (d' & Hin & Hr). exists d'. auto.
      * intros (d' & [<-|Hin] & Hr); [congruence|eauto].
Qed.

Lemma expected_ranks_spec n z :
  z ∈ expected_ranks n <-> 1 <= z <= Z.of_nat n.
Proof.
  unfold expected_ranks. rewrite elem_of_list_to_set, list_elem_of_In,
    in_map_iff. split.
  - intros (k & <- & Hk). apply in_seq in Hk. lia.
  - intros H. exists (Z.to_nat z). split; [lia|]. apply in_seq. lia.
Qed.

Lemma validate_sections_spec sections :
  Forall text_ok sections ->
  exists errors,
    validate_sections sections = Ok errors
    /\ forall msg,
         In msg errors <->
         (exists k d, sections !! k = Some d /\ violation (S k) d msg)
         \/ (msg = RanksNotSequential
             /\ expected_ranks (List.length sections) <> rank_set sections).
Proof.
  intros Hok. unfold validate_sections.
  destruct (check_sections_spec sections 0 [] ∅ Hok) as (found & E & Hfound).
  rewrite E. simpl.
  assert (Hset : rank_set sections ∪ ∅ = rank_set sections) by set_solver.
  rewrite Hset.
  assert (Hnot : forall k d, ~ violation (S k) d RanksNotSequential).
  { intros k d H. inversion H. }
  destruct (bool_decide_reflect
              (expected_ranks (List.length sections) = rank_set sections))
    as [Heq|Hne].
  - exists found. split; [reflexivity|]. intros msg. rewrite Hfound. split.
    + intros H. left. exact H.
    + intros [H|[_ H]]; [exact H|contradiction].
  - exists (found ++ [RanksNotSequential]). split; [reflexivity|].
    intros msg. rewrite in_app_iff, Hfound. simpl. split.
    + intros [H|[<-|[]]]; [left; exact H|right; auto].
    + intros [H|[-> _]]; [left; exact H|right; left; reflexivity].
Qed.

(** *** The schema validator *)

Lemma validate_json_structure_spec best_match data :
  exists errors,
    JsonSchema.validate_json_structure best_match data = Ok errors
    /\ (List.length errors <= 1)%nat
    /\ (errors = [] <->
        JsonSchema.iter_errors JsonSchema.json_schema [] data = []).
Proof.
  unfold JsonSchema.validate_json_structure, JsonSchema.validate.
  destruct (JsonSchema.iter_errors JsonSchema.json_schema [] data)
    as [|e es].
  - exists []. repeat split; simpl; auto.
  - eexists. split; [reflexivity|]. simpl. split; [lia|].
    split; discriminate.
Qed.



Definition short_section : dict :=
  <["title" := VStr (lit "A")]> (<["content" := VStr (lit "brief")]> ∅).



(** *** A title that is not a string *)





(** *** Ranks that count from one *)

Lemma rank_set_counted sections :
  (forall k d, sections !! k = Some d -> rank_of d = Some (Z.of_nat k + 1)) ->
  rank_set sections = expected_ranks (List.length sections).
Proof.
  intros H. apply set_eq. intros z.
  rewrite rank_set_spec, expected_ranks_spec. split.
  - intros (d & Hin & Hr).
    apply list_elem_of_In, list_elem_of_lookup in Hin as [k Hk].
    pose proof (lookup_lt_Some _ _ _ Hk) as Hlt.
    rewrite (H k d Hk) in Hr. injection Hr as <-. lia.
  - intros Hz.
    destruct (lookup_lt_is_Some_2 sections (Z.to_nat (z - 1))) as [d Hd];
      [lia|].
    exists d. split.
    + apply list_elem_of_In, list_elem_of_lookup. eauto.
    + rewrite (H _ d Hd). f_equal. lia.
Qed.

Lemma validate_json_structure_messages best_match data errors :
  JsonSchema.validate_json_structure best_match data = Ok errors ->
  ~ In RanksNotSequential errors.
Proof.
  unfold JsonSchema.validate_json_structure.
  destruct (JsonSchema.validate best_match data JsonSchema.json_schema)
    as [u|e].
  - intros [= <-] [].
  - destruct e; intros [= <-] [H|[]]; discriminate.
Qed.

End ValidatorFacts.

(** ** The pipeline *)

Module PipelineFacts.
Import Pipeline.

Lemma alloc_all_spec ds : forall h,
  alloc_all h ds = (seq (List.length h) (List.length ds), h ++ ds).
Proof.
  induction ds as [|d ds IH]; intros h.
  - simpl. rewrite app_nil_r. reflexivity.
  - simpl. rewrite IH, length_app. simpl.
    rewrite Nat.add_1_r, <- app_assoc. reflexivity.
Qed.

Lemma read_all_spec h rs :
  (forall r, In r rs -> exists d, h !! r = Some d) ->
  exists ds, read_all h rs = Ok ds
             /\ Forall2 (fun r d => h !! r = Some d) rs ds.
Proof.
  induction rs as [|r rs IH]; intros H.
  - exists []. split; [reflexivity|constructor].
  - destruct (H r (or_introl eq_refl)) as [d Hd].
    destruct IH as (ds & E & Hds); [intros r' Hr'; apply H; right; exact Hr'|].
    exists (d :: ds). split.
    + simpl. unfold Heap.read. rewrite Hd. simpl. rewrite E. reflexivity.
    + constructor; assumption.
Qed.

Lemma section_dict_text s : RankerFacts.has_text (section_dict s).
Proof.
  exists (Segmenter.title s), (Segmenter.content s). split; reflexivity.
Qed.

Lemma ranked_copy_text_ok s score k :
  ValidatorFacts.text_ok (RankerFacts.ranked_copy (section_dict s) score k).
Proof.
  split; intros v Hv;
    rewrite (proj2 (proj2 (RankerFacts.ranked_copy_fields _ _ _)))
      in Hv by discriminate;
    vm_compute in Hv; injection Hv as <-; eexists; reflexivity.
Qed.

(** The record [process_document] builds from the ranked sequence [out]. *)
Definition record_of (name now : str) (persona : string) (n : nat)
    (out : list ref) : result_record :=
  mk_record name persona
    (lit "Prioritize document sections for " ++ lit persona
     ++ lit " persona based on relevance and importance")
    now (Z.of_nat n) (take 10 out).

(** One run on a document with text, step by step: the ranked sequence
    [out] in the heap [ranked_heap], the dictionaries [top] of its first ten
    objects, and the messages of the two validators. *)
Lemma process_document_run
    (best_match : schema_error -> list schema_error -> schema_error)
    (name text now : str) (persona : string) (h : heap) :
  text <> [] ->
  exists out ranked_heap top section_errors json_errors,
    Ranker.prioritize_sections
      (seq (List.length h)
           (List.length (Segmenter.extract_sections text)))
      persona
      (h ++ List.map section_dict (Segmenter.extract_sections text))
    = Ok (out, ranked_heap)
    /\ List.length out = List.length (Segmenter.extract_sections text)
    /\ (forall k r, out !! k = Some r ->
          exists s score,
            ranked_heap !! r
            = Some (RankerFacts.ranked_copy (section_dict s) score k))
    /\ Forall2 (fun r d => ranked_heap !! r = Some d) (take 10 out) top
    /\ Validator.validate_sections top = Ok section_errors
    /\ JsonSchema.validate_json_structure best_match
         (record_json
            (record_of name now persona
               (List.length (Segmenter.extract_sections text)) out) top)
       = Ok json_errors
    /\ process_document best_match name text now persona h
       = Ok (ResultRecord
               (record_of name now persona
                  (List.length (Segmenter.extract_sections text)) out)
               (section_errors ++ json_errors),
             ranked_heap).
Proof.
  intros Htext.
  set (secs := Segmenter.extract_sections text).
  set (dicts := List.map section_dict secs).
  set (n := List.length secs).
  assert (Hn : List.length dicts = n) by apply length_map.
  assert (Hlook : Forall2 (fun r d => (h ++ dicts) !! r = Some d)
                    (seq (List.length h) n) dicts).
  { apply Forall2_same_length_lookup. split; [rewrite length_seq; lia|].
    intros i r d Hr Hd. apply lookup_seq in Hr as [-> _].
    rewrite lookup_app_r by lia.
    replace (List.length h + i - List.length h)%nat with i by lia.
    exact Hd. }
  assert (Htext' : Forall RankerFacts.has_text dicts).
  { apply List.Forall_forall. intros d Hd. apply in_map_iff in Hd as (s & <- & _).
    apply section_dict_text. }
  destruct (RankerFacts.prioritize_sections_objects _ persona _ _ Hlook Htext')
    as (out & hr & E & Lout & Hcopy).
  rewrite length_seq in Lout.
  assert (Hobj : forall k r, out !! k = Some r ->
            exists s score, hr !! r
              = Some (RankerFacts.ranked_copy (section_dict s) score k)).
  { intros k r Hk. destruct (Hcopy k r Hk) as (d & score & Hd & Hh).
    apply in_map_iff in Hd as (s & <- & _). exists s, score. exact Hh. }
  destruct (read_all_spec hr (take 10 out)) as (top & Eread & Htop).
  { intros r Hr. apply list_elem_of_In, list_elem_of_lookup in Hr as [k Hk].
    apply lookup_take_Some in Hk as [Hk _].
    destruct (Hobj k r Hk) as (s & score & Hh). eauto. }
  assert (Hok : Forall ValidatorFacts.text_ok top).
  { apply List.Forall_forall. intros d Hd.
    apply list_elem_of_In, list_elem_of_lookup in Hd as [k Hk].
    destruct (Forall2_lookup_r _ _ _ _ _ Htop Hk) as (r & Hr & Hd).
    apply lookup_take_Some in Hr as [Hr _].
    destruct (Hobj k r Hr) as (s & score & Hh).
    assert (d = RankerFacts.ranked_copy (section_dict s) score k)
      by congruence. subst d. apply ranked_copy_text_ok. }
  destruct (ValidatorFacts.validate_sections_spec top Hok)
    as (section_errors & Esec & _).
  set (record := record_of name now persona n out).
  destruct (ValidatorFacts.validate_json_structure_spec best_match
              (record_json record top)) as (json_errors & Ejson & _).
  exists out, hr, top, section_errors, json_errors.
  split; [exact E|]. split; [exact Lout|]. split; [exact Hobj|].
  split; [exact Htop|]. split; [exact Esec|]. split; [exact Ejson|].
  unfold process_document.
  destruct text as [|c text']; [congruence|]. cbn [Str.is_empty].
  fold secs. fold dicts. rewrite alloc_all_spec, Hn. fold n.
  rewrite E. cbn [mbind result_bind]. rewrite Eread.
  cbn [mbind result_bind]. rewrite Esec.
  change (JsonSchema.validate_json_structure best_match
            (record_json record top)
          ≫= (fun json_errors =>
                Ok (ResultRecord record (section_errors ++ json_errors), hr))
          = Ok (ResultRecord record (section_errors ++ json_errors), hr)).
  rewrite Ejson. reflexivity.
Qed.

(** Claim C2.  For a document with text, the result record holds the first
    10 references of the ranked sequence, the very objects the ranker
    returned, in the heap the ranker left: the object at position [k] keeps
    the importance_rank [k + 1] it received among all N sections, nothing is
    renumbered.  total_sections is N, the number of sections before the
    truncation; with more than 10 sections the record holds exactly 10 of
    them, with ranks among 1..N. *)
Theorem process_document_truncates
    (best_match : schema_error -> list schema_error -> schema_error)
    (name text now : str) (persona : string) (h : heap) :
  text <> [] ->
  exists out ranked_heap record warnings,
    Ranker.prioritize_sections
      (seq (List.length h)
           (List.length (Segmenter.extract_sections text)))
      persona
      (h ++ List.map section_dict (Segmenter.extract_sections text))
    = Ok (out, ranked_heap)
    /\ process_document best_match name text now persona h
       = Ok (ResultRecord record warnings, ranked_heap)
    /\ sections record = take 10 out
    /\ total_sections record
       = Z.of_nat (List.length (Segmenter.extract_sections text))
    /\ List.length out = List.length (Segmenter.extract_sections text)
    /\ ((10 < List.length (Segmenter.extract_sections text))%nat ->
        List.length (sections record) = 10%nat)
    /\ (forall k r,
          sections record !! k = Some r ->
          out !! k = Some r
          /\ 1 <= Z.of_nat k + 1
             <= Z.of_nat (List.length (Segmenter.extract_sections text))
          /\ exists d, ranked_heap !! r = Some d
               /\ d !! "importance_rank"%string
                  = Some (VInt (Z.of_nat k + 1))).
Proof.
  intros Htext.
  destruct (process_document_run best_match name text now persona h Htext)
    as (out & hr & top & section_errors & json_errors
        & E & Lout & Hobj & _ & _ & _ & Erun).
  eexists out, hr, _, _. split; [exact E|]. split; [exact Erun|].
  split; [reflexivity|]. split; [reflexivity|]. split; [exact Lout|]. split.
  - intros Hbig. simpl. rewrite length_take. lia.
  - intros k r Hk. simpl in Hk. apply lookup_take_Some in Hk as [Hk Hlt].
    split; [exact Hk|]. split.
    + apply lookup_lt_Some in Hk. lia.
    + destruct (Hobj k r Hk) as (s & score & Hh).
      eexists. split; [exact Hh|]. apply RankerFacts.ranked_copy_fields.
Qed.

(** A document of twelve headed sections. *)
Definition sample_document : str :=
  List.concat
    (List.repeat
       (lit "MARKET OVERVIEW" ++ [Chars.newline]
        ++ lit "The strategy for growth in this market." ++ [Chars.newline])
       12).

Lemma sample_document_sections :
  List.length (Segmenter.extract_sections sample_document) = 12%nat.
Proof. vm_compute. reflexivity. Qed.

(** Witness for C2: twelve sections, ten of them stored. *)
Lemma process_document_truncates_witness :
  exists ranked_heap record warnings,
    process_document (fun e _ => e) (lit "report.pdf") sample_document
      (lit "2024-05-01T10:00:00") "executive" []
    = Ok (ResultRecord record warnings, ranked_heap)
    /\ total_sections record = 12
    /\ List.length (sections record) = 10%nat.
Proof.
  destruct (process_document_truncates (fun e _ => e) (lit "report.pdf")
              sample_document (lit "2024-05-01T10:00:00") "executive" [])
    as (out & hr & record & warnings & _ & E & _ & Htotal & _ & Hlen & _).
  - intros H. apply (f_equal (@List.length ascii)) in H.
    vm_compute in H. discriminate.
  - exists hr, record, warnings. split; [exact E|]. split.
    + rewrite Htotal, sample_document_sections. reflexivity.
    + apply Hlen. rewrite sample_document_sections. lia.
Defined.

(** Validation runs on the first ten ranked sections, whose ranks are
    1..min(N, 10), the very set the section validator expects of a list of
    that length: whatever the number of sections, no run reports ranks
    that are not sequential. *)
Theorem process_document_ranks_sequential
    (best_match : schema_error -> list schema_error -> schema_error)
    (name text now : str) (persona : string) (h : heap) :
  text <> [] ->
  exists record warnings ranked_heap,
    process_document best_match name text now persona h
    = Ok (ResultRecord record warnings, ranked_heap)
    /\ ~ In Validator.RanksNotSequential warnings.
Proof.
  intros Htext.
  destruct (process_document_run best_match name text now persona h Htext)
    as (out & hr & top & section_errors & json_errors
        & _ & _ & Hobj & Htop & Esec & Ejson & Erun).
  eexists _, _, _. split; [exact Erun|].
  assert (Hok : Forall ValidatorFacts.text_ok top /\
                forall k d, top !! k = Some d ->
                  ValidatorFacts.rank_of d = Some (Z.of_nat k + 1)).
  { split.
    - apply List.Forall_forall. intros d Hd.
      apply list_elem_of_In, list_elem_of_lookup in Hd as [k Hk].
      destruct (Forall2_lookup_r _ _ _ _ _ Htop Hk) as (r & Hr & Hd).
      apply lookup_take_Some in Hr as [Hr _].
      destruct (Hobj k r Hr) as (s & score & Hh).
      assert (d = RankerFacts.ranked_copy (section_dict s) score k)
        by congruence. subst d. apply ranked_copy_text_ok.
    - intros k d Hk.
      destruct (Forall2_lookup_r _ _ _ _ _ Htop Hk) as (r & Hr & Hd).
      apply lookup_take_Some in Hr as [Hr _].
      destruct (Hobj k r Hr) as (s & score & Hh).
      assert (d = RankerFacts.ranked_copy (section_dict s) score k)
        by congruence. subst d. unfold ValidatorFacts.rank_of.
      rewrite (proj1 (RankerFacts.ranked_copy_fields _ _ _)). reflexivity. }
  destruct Hok as [Hok Hranks].
  destruct (ValidatorFacts.validate_sections_spec top Hok)
    as (errors & Esec' & Hmsgs).
  assert (errors = section_errors) by congruence. subst errors.
  rewrite in_app_iff. intros [Hin|Hin].
  - apply Hmsgs in Hin as [(k & d & _ & Hv)|[_ Hne]].
    + inversion Hv.
    + apply Hne. symmetry. apply ValidatorFacts.rank_set_counted. exact Hranks.
  - exact (ValidatorFacts.validate_json_structure_messages _ _ _ Ejson Hin).
Qed.

(** Witness: the document of twelve sections, of which ten are validated. *)
Lemma process_document_ranks_sequential_witness :
  exists record warnings ranked_heap,
    process_document (fun e _ => e) (lit "report.pdf") sample_document
      (lit "2024-05-01T10:00:00") "executive" []
    = Ok (ResultRecord record warnings, ranked_heap)
    /\ ~ In Validator.RanksNotSequential warnings.
Proof.
  apply (process_document_ranks_sequential (fun e _ => e) (lit "report.pdf")
           sample_document (lit "2024-05-01T10:00:00") "executive" []).
  intros H. apply (f_equal (@List.length ascii)) in H.
  vm_compute in H. discriminate.
Defined.

End PipelineFacts.

(** ** More on the normalizer *)

Module NormalizerShape.
Import Normalizer NormalizerFacts.

Lemma no_pair_at P pre a b post :
  no_pair P (pre ++ a :: b :: post) = true -> P a b = false.
Proof.
  intros H. apply no_pair_app_r in H. rewrite no_pair_cons in H.
  apply andb_true_iff in H as [H _]. apply negb_true_iff in H. exact H.
Qed.

(** The shape of every normalized text: only characters of the allow-list,
    no whitespace but the plain space, none at either end, and behind a
    space neither a second space nor one of the six punctuation marks. *)
Theorem clean_text_shape (text : str) :
  Forall (fun c => Chars.is_allowed c = true
                   /\ (Chars.is_space c = true -> c = Chars.space))
         (clean_text text)
  /\ Str.strip (clean_text text) = clean_text text
  /\ (forall pre a b post,
        clean_text text = pre ++ a :: b :: post ->
        Chars.is_space a = true ->
        Chars.is_space b = false /\ Chars.is_punct b = false).
Proof.
  pose proof (clean_text_tidy text) as Htidy.
  split; [|split].
  - unfold tidy in Htidy. apply andb_true_iff in Htidy as [Htidy _].
    apply andb_true_iff in Htidy as [Hplain _].
    apply List.Forall_forall. intros c Hc.
    rewrite forallb_forall in Hplain. specialize (Hplain c Hc).
    split.
    + unfold plain in Hplain. apply andb_true_iff in Hplain as [H _]. exact H.
    + apply plain_space. exact Hplain.
  - apply strip_fixed. exact Htidy.
  - intros pre a b post E Ha.
    unfold tidy in Htidy. apply andb_true_iff in Htidy as [_ Hmark].
    rewrite E in Hmark. rewrite <- app_assoc in Hmark. simpl in Hmark.
    apply no_pair_at in Hmark. unfold ws_mark in Hmark.
    rewrite Ha in Hmark. simpl in Hmark.
    apply orb_false_iff in Hmark. exact Hmark.
Qed.

(** *** The normalizer only deletes *)

Lemma sub_ws_runs_length b s :
  (List.length (sub_ws_runs b s) <= List.length s)%nat.
Proof.
  revert b. induction s as [|c s IH]; intros b; simpl; [lia|].
  destruct (Chars.is_space c).
  - destruct b; simpl; specialize (IH true); lia.
  - simpl. specialize (IH false). lia.
Qed.

Lemma remove_disallowed_length s :
  (List.length (remove_disallowed s) <= List.length s)%nat.
Proof.
  unfold remove_disallowed. induction s as [|c s IH]; simpl; [lia|].
  destruct (Chars.is_allowed c); simpl; lia.
Qed.

Lemma collapse_marks_length m b s :
  (List.length (collapse_marks m b s) <= List.length s)%nat.
Proof.
  revert b. induction s as [|c s IH]; intros b; simpl; [lia|].
  destruct (Chars.eqb c m).
  - destruct b; simpl; specialize (IH true); lia.
  - simpl. specialize (IH false). lia.
Qed.

Lemma remove_ws_before_punct_length s :
  (List.length (remove_ws_before_punct s) <= List.length s)%nat.
Proof.
  induction s as [|c s IH]; simpl; [lia|].
  destruct (Chars.is_space c && punct_follows s)%bool; simpl; lia.
Qed.

Lemma limit_spaces_length b s :
  (List.length (limit_spaces b s) <= List.length s)%nat.
Proof.
  revert b. induction s as [|c s IH]; intros b; [simpl; lia|].
  cbn [limit_spaces]. destruct (Chars.is_space c).
  - destruct b.
    + specialize (IH true). simpl. lia.
    + destruct s as [|c' s']; [simpl; lia|].
      destruct (Chars.is_space c').
      * specialize (IH true). simpl in *. lia.
      * specialize (IH false). simpl in *. lia.
  - specialize (IH false). simpl. lia.
Qed.

Lemma strip_length s : (List.length (Str.strip s) <= List.length s)%nat.
Proof.
  unfold Str.strip.
  destruct (lstrip_suffix s) as [p Hp].
  destruct (rstrip_prefix (Str.lstrip s)) as [t Ht].
  apply (f_equal (@List.length ascii)) in Hp, Ht.
  rewrite length_app in Hp, Ht. lia.
Qed.

(** No pass of the normalizer adds a character: a normalized text is never
    longer than the text it was made from. *)
Theorem clean_text_never_longer (text : str) :
  (List.length (clean_text text) <= List.length text)%nat.
Proof.
  unfold clean_text. destruct (Str.is_empty text); [simpl; lia|].
  unfold collapse_all.
  repeat match goal with
  | |- (List.length (Str.strip ?s) <= _)%nat =>
      etransitivity; [apply strip_length|]
  | |- (List.length (limit_spaces _ ?s) <= _)%nat =>
      etransitivity; [apply limit_spaces_length|]
  | |- (List.length (remove_ws_before_punct ?s) <= _)%nat =>
      etransitivity; [apply remove_ws_before_punct_length|]
  | |- (List.length (collapse_marks _ _ ?s) <= _)%nat =>
      etransitivity; [apply collapse_marks_length|]
  | |- (List.length (remove_disallowed ?s) <= _)%nat =>
      etransitivity; [apply remove_disallowed_length|]
  | |- (List.length (sub_ws_runs _ ?s) <= _)%nat =>
      etransitivity; [apply sub_ws_runs_length|]
  end.
  reflexivity.
Qed.

(** *** The texts the normalizer leaves alone *)

Lemma collapse_all_no_repeated_marks s :
  no_repeated_marks (collapse_all s) = true.
Proof.
  unfold no_repeated_marks, collapse_all.
  rewrite !andb_true_iff. repeat split.
  - do 2 apply collapse_marks_no_pair. apply collapse_marks_no_twice.
  - apply collapse_marks_no_pair. apply collapse_marks_no_twice.
  - apply collapse_marks_no_twice.
Qed.

Lemma collapse_all_of_no_repeated_marks s :
  no_repeated_marks s = true -> collapse_all s = s.
Proof.
  unfold no_repeated_marks, collapse_all.
  rewrite !andb_true_iff. intros [[Hd Hb] Hq].
  rewrite (collapse_marks_fixed _ _ Hd), (collapse_marks_fixed _ _ Hb),
    (collapse_marks_fixed _ _ Hq). reflexivity.
Qed.

(** The fixed points of the normalizer are exactly the texts of the shape
    above that hold no run of two or more [.], [!] or [?]. *)
Theorem clean_text_fixed_points (text : str) :
  clean_text text = text <->
  tidy text = true /\ no_repeated_marks text = true.
Proof.
  split.
  - intros E.
    assert (Htidy : tidy text = true).
    { rewrite <- E. apply clean_text_tidy. }
    split; [exact Htidy|].
    rewrite (clean_text_of_tidy _ Htidy) in E. rewrite <- E.
    apply collapse_all_no_repeated_marks.
  - intros [Htidy Hmarks].
    rewrite (clean_text_of_tidy _ Htidy).
    apply collapse_all_of_no_repeated_marks. exact Hmarks.
Qed.

End NormalizerShape.

(** ** More on the segmenter *)

Module SegmenterShape.
Import Segmenter SegmenterFacts.

(** The lines the heuristic takes for headers.  A blank line is none. *)
Definition header_lines (text : str) : list str :=
  List.filter (fun raw => is_header (Str.strip raw)) (Str.split_lines text).

(** What the lines that are not blank add to a content, one after the
    other: the stripped line and a line feed. *)
Definition body_of (lines : list str) : str :=
  List.concat
    (List.map (fun raw => Str.strip raw ++ [Chars.newline])
       (List.filter (fun raw => negb (Str.is_empty (Str.strip raw))) lines)).

Lemma is_header_nil : is_header [] = false.
Proof. reflexivity. Qed.

(** *** Where a section comes from *)

(** [s] was opened by the header at line [i], or is the initial section. *)
Definition opened_in (lines : list str) (s : section) : Prop :=
  (title s = lit "Introduction" /\ page_number s = 1)
  \/ exists i raw,
       lines !! i = Some raw
       /\ is_header (Str.strip raw) = true
       /\ title s = Str.rstrip_colons (Str.strip raw)
       /\ page_number s = Z.of_nat i / 50 + 1.

Definition flushed_from (lines : list str) (s : section) : Prop :=
  exists cur, opened_in lines cur
    /\ title s = Normalizer.clean_text (title cur)
    /\ page_number s = page_number cur.

Lemma flush_origin lines sections cur :
  Forall (flushed_from lines) sections -> opened_in lines cur ->
  Forall (flushed_from lines) (flush sections cur).
Proof.
  intros Hs Hc. unfold flush.
  destruct (Str.is_empty (Str.strip (content cur))); [exact Hs|].
  apply List.Forall_app. split; [exact Hs|].
  constructor; [|constructor]. exists cur. simpl. auto.
Qed.

Lemma opened_in_content lines t c c' p :
  opened_in lines (mk_section t c p) -> opened_in lines (mk_section t c' p).
Proof. intros H. exact H. Qed.

Lemma scan_lines_origin all : forall lines i sections cur,
  (forall k raw, lines !! k = Some raw -> all !! (i + k)%nat = Some raw) ->
  Forall (flushed_from all) sections -> opened_in all cur ->
  Forall (flushed_from all) (fst (scan_lines i lines sections cur))
  /\ opened_in all (snd (scan_lines i lines sections cur)).
Proof.
  induction lines as [|raw rest IH]; intros i sections cur Hall Hs Hc.
  - simpl. auto.
  - assert (Hrest : forall k raw', rest !! k = Some raw' ->
                      all !! (S i + k)%nat = Some raw').
    { intros k raw' Hk. replace (S i + k)%nat with (i + S k)%nat by lia.
      apply Hall. exact Hk. }
    simpl. destruct (Str.is_empty (Str.strip raw)); [apply IH; assumption|].
    destruct (is_header (Str.strip raw)) eqn:Hh.
    + apply IH; [exact Hrest|apply flush_origin; assumption|].
      right. exists i, raw. simpl. repeat split; try assumption.
      specialize (Hall 0%nat raw eq_refl).
      rewrite Nat.add_0_r in Hall. exact Hall.
    + apply IH; [exact Hrest|exact Hs|]. destruct cur. exact Hc.
Qed.

Lemma candidate_sections_origin text :
  Forall (flushed_from (Str.split_lines text)) (candidate_sections text).
Proof.
  unfold candidate_sections.
  destruct (scan_lines_origin (Str.split_lines text) (Str.split_lines text)
              0 [] initial_section) as [Hs Hc].
  - intros k raw Hk. exact Hk.
  - constructor.
  - left. split; reflexivity.
  - destruct (scan_lines 0 (Str.split_lines text) [] initial_section)
      as [sections cur].
    apply flush_origin; assumption.
Qed.

(** Every section returned is the initial section, titled Introduction on
    page 1, or was opened by a header line: its title is that line
    without its trailing colons, normalized, and its page is one more
    than the number of the line (counted from 0 over all lines, blank ones
    included) divided by 50. *)
Theorem extract_sections_origin (text : str) (s : section) :
  In s (extract_sections text) ->
  (title s = lit "Introduction" /\ page_number s = 1)
  \/ exists i raw,
       Str.split_lines text !! i = Some raw
       /\ is_header (Str.strip raw) = true
       /\ title s
          = Normalizer.clean_text (Str.rstrip_colons (Str.strip raw))
       /\ page_number s = Z.of_nat i / 50 + 1.
Proof.
  intros Hs. unfold extract_sections in Hs.
  apply List.filter_In in Hs as [Hin _].
  pose proof (candidate_sections_origin text) as H.
  rewrite List.Forall_forall in H.
  destruct (H s Hin) as (cur & [[Ht Hp]|(i & raw & Hi & Hh & Ht & Hp)]
                         & Htitle & Hpage).
  - left. rewrite Htitle, Ht, Hpage. split; [reflexivity|exact Hp].
  - right. exists i, raw. rewrite Htitle, Ht, Hpage. auto.
Qed.

(** Witness: the section OVERVIEW of the sample text was opened by a header
    line of that text. *)
Lemma extract_sections_origin_witness :
  exists i raw,
    Str.split_lines sample_text !! i = Some raw
    /\ is_header (Str.strip raw) = true
    /\ title sample_section
       = Normalizer.clean_text (Str.rstrip_colons (Str.strip raw))
    /\ page_number sample_section = Z.of_nat i / 50 + 1.
Proof.
  destruct (extract_sections_origin sample_text sample_section)
    as [[H _]|H].
  - vm_compute. left. reflexivity.
  - vm_compute in H. discriminate.
  - exact H.
Defined.

(** *** Pages *)

(** The pages of the sections collected so far, the open one last: in
    order, and each reached by the lines read so far. *)
Definition pages_upto (i : nat) (ps : list Z) : Prop :=
  StronglySorted Z.le ps
  /\ Forall (fun p => 1 <= p /\ 50 * (p - 1) < Z.max (Z.of_nat i) 1) ps.

Lemma pages_upto_mono i j ps :
  (i <= j)%nat -> pages_upto i ps -> pages_upto j ps.
Proof.
  intros Hij [Hs Hb]. split; [exact Hs|].
  eapply List.Forall_impl; [|exact Hb]. simpl. intros p Hp. lia.
Qed.

Lemma strongly_sorted_snoc (ps : list Z) (p q : Z) :
  StronglySorted Z.le (ps ++ [p]) -> p <= q ->
  StronglySorted Z.le (ps ++ [q]).
Proof.
  induction ps as [|a ps IH]; intros H Hpq.
  - repeat constructor.
  - simpl in *. apply StronglySorted_inv in H as [H Ha].
    constructor; [apply IH; assumption|].
    apply List.Forall_app in Ha as [Ha Hp].
    apply List.Forall_app. split; [exact Ha|].
    constructor; [|constructor]. inversion Hp; subst. lia.
Qed.

Lemma strongly_sorted_snoc2 (ps : list Z) (p q : Z) :
  StronglySorted Z.le (ps ++ [p]) -> p <= q ->
  StronglySorted Z.le ((ps ++ [p]) ++ [q]).
Proof.
  induction ps as [|a ps IH]; intros H Hpq.
  - simpl. repeat constructor. exact Hpq.
  - simpl in *. apply StronglySorted_inv in H as [H Ha].
    constructor; [apply IH; assumption|].
    apply List.Forall_app. split; [exact Ha|].
    constructor; [|constructor].
    apply List.Forall_app in Ha as [_ Hp]. inversion Hp; subst. lia.
Qed.

Definition pages (sections : list section) (cur : section) : list Z :=
  List.map page_number sections ++ [page_number cur].

Lemma flush_pages sections cur :
  flush sections cur = sections
  \/ List.map page_number (flush sections cur) = pages sections cur.
Proof.
  unfold flush, pages.
  destruct (Str.is_empty (Str.strip (content cur))); [left; reflexivity|].
  right. rewrite List.map_app. reflexivity.
Qed.

Lemma pages_upto_drop_last i ps p :
  pages_upto i (ps ++ [p]) -> pages_upto i ps.
Proof.
  intros [Hs Hb]. split.
  - clear Hb. induction ps as [|a ps IH]; [constructor|].
    simpl in Hs. apply StronglySorted_inv in Hs as [Hs Ha].
    constructor; [apply IH, Hs|].
    apply List.Forall_app in Ha as [Ha _]. exact Ha.
  - apply List.Forall_app in Hb as [Hb _]. exact Hb.
Qed.

Lemma pages_last_bound i ps p :
  pages_upto i (ps ++ [p]) -> 1 <= p /\ 50 * (p - 1) < Z.max (Z.of_nat i) 1.
Proof.
  intros [_ Hb]. apply List.Forall_app in Hb as [_ Hb].
  inversion Hb; subst. assumption.
Qed.

Lemma header_pages i sections cur t :
  pages_upto i (pages sections cur) ->
  pages_upto (S i)
    (pages (flush sections cur) (mk_section t [] (Z.of_nat i / 50 + 1))).
Proof.
  intros H. pose proof (pages_last_bound _ _ _ H) as [Hp1 Hp2].
  assert (Hdiv : 50 * (Z.of_nat i / 50) <= Z.of_nat i).
  { apply Z.mul_div_le. lia. }
  assert (Hle : page_number cur <= Z.of_nat i / 50 + 1).
  { destruct (Z.le_gt_cases (page_number cur) (Z.of_nat i / 50 + 1))
      as [Hc|Hc]; [exact Hc|].
    assert (Z.of_nat i < 50 * (Z.of_nat i / 50 + 1)).
    { pose proof (Z.mul_succ_div_gt (Z.of_nat i) 50). lia. }
    nia. }
  assert (Hnew : 1 <= Z.of_nat i / 50 + 1
                 /\ 50 * (Z.of_nat i / 50 + 1 - 1)
                    < Z.max (Z.of_nat (S i)) 1).
  { split; [pose proof (Z.div_pos (Z.of_nat i) 50); lia|lia]. }
  unfold pages at 1. simpl page_number.
  destruct (flush_pages sections cur) as [E|E]; rewrite E.
  - destruct H as [Hs Hb]. unfold pages in *. split.
    + eapply strongly_sorted_snoc; eassumption.
    + apply List.Forall_app in Hb as [Hb _].
      apply List.Forall_app. split.
      * eapply List.Forall_impl; [|exact Hb]. simpl. intros p Hp. lia.
      * constructor; [exact Hnew|constructor].
  - destruct H as [Hs Hb]. unfold pages in *. split.
    + apply strongly_sorted_snoc2; assumption.
    + apply List.Forall_app. split.
      * eapply List.Forall_impl; [|exact Hb]. simpl. intros p Hp. lia.
      * constructor; [exact Hnew|constructor].
Qed.

Lemma scan_lines_pages lines : forall i sections cur,
  pages_upto i (pages sections cur) ->
  pages_upto (i + List.length lines)
    (pages (fst (scan_lines i lines sections cur))
           (snd (scan_lines i lines sections cur))).
Proof.
  induction lines as [|raw rest IH]; intros i sections cur H.
  - simpl. rewrite Nat.add_0_r. exact H.
  - simpl List.length. replace (i + S (List.length rest))%nat
      with (S i + List.length rest)%nat by lia.
    simpl. destruct (Str.is_empty (Str.strip raw)).
    + apply IH. eapply pages_upto_mono; [|exact H]. lia.
    + destruct (is_header (Str.strip raw)).
      * apply IH. apply header_pages. exact H.
      * apply IH. eapply pages_upto_mono; [|exact H]. lia.
Qed.

Lemma split_lines_from_length cur s :
  (1 <= List.length (Str.split_lines_from cur s))%nat.
Proof.
  revert cur. induction s as [|c s IH]; intros cur; simpl; [lia|].
  destruct (Chars.eqb c Chars.newline); [simpl; lia|apply IH].
Qed.

Lemma candidate_sections_pages text :
  pages_upto (List.length (Str.split_lines text))
    (List.map page_number (candidate_sections text)).
Proof.
  unfold candidate_sections.
  pose proof (scan_lines_pages (Str.split_lines text) 0 [] initial_section)
    as H.
  destruct (scan_lines 0 (Str.split_lines text) [] initial_section)
    as [sections cur]. simpl in H.
  assert (H0 : pages_upto 0 (pages [] initial_section)).
  { split; [repeat constructor|]. constructor; [simpl; lia|constructor]. }
  specialize (H H0).
  destruct (flush_pages sections cur) as [E|E]; rewrite E.
  - eapply pages_upto_drop_last. exact H.
  - exact H.
Qed.

Lemma strongly_sorted_filter (f : section -> bool) (l : list section) :
  StronglySorted Z.le (List.map page_number l) ->
  StronglySorted Z.le (List.map page_number (List.filter f l)).
Proof.
  induction l as [|a l IH]; intros H; [constructor|].
  simpl in H. apply StronglySorted_inv in H as [H Ha].
  simpl. destruct (f a); [|apply IH, H].
  simpl. constructor; [apply IH, H|].
  rewrite List.Forall_forall in *. intros p Hp. apply Ha.
  apply in_map_iff in Hp as (s & <- & Hs).
  apply List.filter_In in Hs as [Hs _]. apply in_map. exact Hs.
Qed.

(** The sections come in the order of the document: their page numbers
    never decrease along the list.  Every page number is at least 1, and
    page [p] is only given in a text of more than [50 * (p - 1)] lines. *)
Theorem extract_sections_pages (text : str) :
  StronglySorted Z.le (List.map page_number (extract_sections text))
  /\ (forall s, In s (extract_sections text) ->
        1 <= page_number s
        /\ 50 * (page_number s - 1)
           < Z.of_nat (List.length (Str.split_lines text))).
Proof.
  destruct (candidate_sections_pages text) as [Hs Hb].
  pose proof (split_lines_from_length [] text) as Hlen.
  fold (Str.split_lines text) in Hlen.
  split.
  - apply strongly_sorted_filter. exact Hs.
  - intros s Hin. unfold extract_sections in Hin.
    apply List.filter_In in Hin as [Hin _].
    rewrite List.Forall_forall in Hb.
    specialize (Hb (page_number s) (in_map _ _ _ Hin)). lia.
Qed.

(** *** How many sections *)

Lemma flush_length sections cur :
  (List.length (flush sections cur) <= S (List.length sections))%nat.
Proof.
  unfold flush. destruct (Str.is_empty (Str.strip (content cur)));
    [lia|rewrite length_app; simpl; lia].
Qed.

Lemma scan_lines_length lines : forall i sections cur,
  (List.length (fst (scan_lines i lines sections cur))
   <= List.length sections
      + List.length
          (List.filter (fun raw => is_header (Str.strip raw)) lines))%nat.
Proof.
  induction lines as [|raw rest IH]; intros i sections cur; [simpl; lia|].
  simpl. destruct (Str.strip raw) as [|c line] eqn:E.
  - simpl. try rewrite is_header_nil. apply IH.
  - cbn [Str.is_empty]. destruct (is_header (c :: line)).
    + etransitivity; [apply IH|].
      pose proof (flush_length sections cur). simpl. lia.
    + apply IH.
Qed.

(** There is at most one section more than there are header lines. *)
Theorem extract_sections_count (text : str) :
  (List.length (extract_sections text)
   <= S (List.length (header_lines text)))%nat.
Proof.
  unfold extract_sections, candidate_sections, header_lines.
  pose proof (scan_lines_length (Str.split_lines text) 0 [] initial_section)
    as H.
  destruct (scan_lines 0 (Str.split_lines text) [] initial_section)
    as [sections cur]. simpl in H.
  etransitivity; [apply List.filter_length_le|].
  etransitivity; [apply flush_length|]. lia.
Qed.

(** *** A text without headers *)

Lemma body_of_cons raw rest :
  body_of (raw :: rest)
  = if Str.is_empty (Str.strip raw) then body_of rest
    else (Str.strip raw ++ [Chars.newline]) ++ body_of rest.
Proof.
  unfold body_of. simpl.
  destruct (Str.is_empty (Str.strip raw)); reflexivity.
Qed.

Lemma scan_lines_plain lines : forall i sections cur,
  List.filter (fun raw => is_header (Str.strip raw)) lines = [] ->
  scan_lines i lines sections cur
  = (sections,
     mk_section (title cur) (content cur ++ body_of lines)
                (page_number cur)).
Proof.
  induction lines as [|raw rest IH]; intros i sections cur H.
  - unfold body_of. simpl. rewrite app_nil_r. destruct cur. reflexivity.
  - cbn [List.filter] in H. cbn [scan_lines]. rewrite body_of_cons.
    destruct (Str.is_empty (Str.strip raw)) eqn:E.
    + apply IH. destruct (is_header (Str.strip raw)); [discriminate|exact H].
    + destruct (is_header (Str.strip raw)); [discriminate|].
      rewrite IH by exact H. cbn [title content page_number].
      rewrite <- !app_assoc. reflexivity.
Qed.

(** A text in which no line looks like a header gives at most one
    section: the initial one, titled Introduction on page 1, holding all
    the lines that are not blank, normalized; and none at all when that
    content is not longer than 10 characters. *)
Theorem extract_sections_without_headers (text : str) :
  header_lines text = [] ->
  extract_sections text
  = (let s := mk_section (lit "Introduction")
                (Normalizer.clean_text (body_of (Str.split_lines text))) 1 in
     if is_valid s then [s] else []).
Proof.
  intros H. unfold header_lines in H.
  unfold extract_sections, candidate_sections.
  rewrite (scan_lines_plain _ 0 [] initial_section H).
  unfold flush. simpl title. simpl content. simpl page_number.
  change (Normalizer.clean_text (lit "Introduction")) with (lit "Introduction").
  destruct (Str.is_empty (Str.strip (body_of (Str.split_lines text))))
    eqn:Hb.
  - simpl.
    assert (Hc : Normalizer.clean_text (body_of (Str.split_lines text)) = []).
    { unfold Normalizer.clean_text.
      destruct (Str.is_empty (body_of (Str.split_lines text)));
        [reflexivity|].
      destruct (Str.strip (body_of (Str.split_lines text))); [|discriminate].
      reflexivity. }
    rewrite Hc. reflexivity.
  - simpl. reflexivity.
Qed.

(** A text of plain lines. *)
Definition plain_text : str :=
  lit "the market grows" ++ [Chars.newline]
  ++ [Chars.newline]
  ++ lit "  and so does revenue  " ++ [Chars.newline].

(** Witness: three lines without a header, one of them blank. *)
Lemma extract_sections_without_headers_witness :
  extract_sections plain_text
  = [mk_section (lit "Introduction")
       (lit "the market grows and so does revenue") 1].
Proof.
  rewrite (extract_sections_without_headers plain_text).
  - vm_compute. reflexivity.
  - vm_compute. reflexivity.
Defined.

(** *** A blank text *)

Lemma strip_blank s : forallb Chars.is_space s = true -> Str.strip s = [].
Proof.
  intros H. unfold Str.strip.
  assert (E : Str.lstrip s = []).
  { induction s as [|c s IH]; [reflexivity|].
    simpl in *. apply andb_true_iff in H as [Hc Hs]. rewrite Hc. apply IH, Hs. }
  rewrite E. reflexivity.
Qed.

Lemma forallb_rev (f : ascii -> bool) (l : str) :
  forallb f l = true -> forallb f (rev l) = true.
Proof.
  rewrite !forallb_forall. intros H c Hc. apply H, in_rev, Hc.
Qed.

Lemma split_lines_from_blank s : forall cur,
  forallb Chars.is_space cur = true -> forallb Chars.is_space s = true ->
  Forall (fun line => forallb Chars.is_space line = true)
         (Str.split_lines_from cur s).
Proof.
  induction s as [|c s IH]; intros cur Hcur Hs.
  - simpl. constructor; [|constructor].
    apply forallb_rev. exact Hcur.
  - simpl in Hs. apply andb_true_iff in Hs as [Hc Hs]. simpl.
    destruct (Chars.eqb c Chars.newline).
    + constructor; [apply forallb_rev; exact Hcur|].
      apply IH; [reflexivity|exact Hs].
    + apply IH; [simpl; rewrite Hc; exact Hcur|exact Hs].
Qed.

Lemma scan_lines_blank lines : forall i sections cur,
  Forall (fun line => forallb Chars.is_space line = true) lines ->
  scan_lines i lines sections cur = (sections, cur).
Proof.
  induction lines as [|raw rest IH]; intros i sections cur H; [reflexivity|].
  apply List.Forall_cons_iff in H as [Hraw Hrest].
  simpl. rewrite (strip_blank _ Hraw). simpl. apply IH, Hrest.
Qed.

(** A text of whitespace only, the empty text among them, has no
    sections. *)
Theorem extract_sections_blank (text : str) :
  forallb Chars.is_space text = true -> extract_sections text = [].
Proof.
  intros H. unfold extract_sections, candidate_sections, Str.split_lines.
  rewrite scan_lines_blank
    by (apply split_lines_from_blank; [reflexivity|exact H]).
  reflexivity.
Qed.

(** Witness: two lines of spaces. *)
Lemma extract_sections_blank_witness :
  extract_sections (lit "   " ++ [Chars.newline] ++ lit " ") = [].
Proof. apply extract_sections_blank. reflexivity. Defined.

End SegmenterShape.

(** ** More on the scorer *)

Module ScorerCases.
Import Scorer ScorerFacts.

Lemma known_persona_lookup (persona : string) :
  In persona known_personas -> exists cfg, personas !! persona = Some cfg.
Proof.
  intros [<-|[<-|[<-|[<-|[]]]]]; eexists; reflexivity.
Qed.

(** *** What the scorer raises *)

(** For a configured persona the scorer reads the title first and the
    content after the title loop: a section without title raises KeyError
    for the title, one whose title is not a string raises AttributeError
    for [lower]; with a title string, a missing content raises KeyError
    for the content and a content that is not a string AttributeError. *)
Theorem calculate_section_score_raises (section : dict) (persona : string) :
  In persona known_personas ->
  (section !! "title"%string = None ->
   calculate_section_score section persona = Raise (KeyError "title"))
  /\ (forall v, section !! "title"%string = Some v ->
        (forall s, v <> VStr s) ->
        calculate_section_score section persona
        = Raise (AttributeError "lower"))
  /\ (forall title, section !! "title"%string = Some (VStr title) ->
        section !! "content"%string = None ->
        calculate_section_score section persona = Raise (KeyError "content"))
  /\ (forall title v, section !! "title"%string = Some (VStr title) ->
        section !! "content"%string = Some v ->
        (forall s, v <> VStr s) ->
        calculate_section_score section persona
        = Raise (AttributeError "lower")).
Proof.
  intros Hp. destruct (known_persona_lookup persona Hp) as [cfg Hcfg].
  unfold calculate_section_score, getitem. rewrite Hcfg.
  split; [|split; [|split]].
  - intros ->. reflexivity.
  - intros v -> Hv. destruct v; try reflexivity. destruct (Hv s eq_refl).
  - intros title -> ->. reflexivity.
  - intros title v -> -> Hv. destruct v; try reflexivity.
    destruct (Hv s eq_refl).
Qed.

(** Witness: a section without title, and one without content. *)
Lemma calculate_section_score_raises_witness :
  calculate_section_score (<["content" := VStr (lit "growth")]> ∅) "marketing"
  = Raise (KeyError "title")
  /\ calculate_section_score (<["title" := VStr (lit "Growth")]> ∅) "marketing"
     = Raise (KeyError "content").
Proof.
  split.
  - apply (proj1 (calculate_section_score_raises
                    (<["content" := VStr (lit "growth")]> ∅) "marketing"
                    ltac:(simpl; tauto))).
    reflexivity.
  - apply (proj1 (proj2 (proj2 (calculate_section_score_raises
                    (<["title" := VStr (lit "Growth")]> ∅) "marketing"
                    ltac:(simpl; tauto)))) (lit "Growth")); reflexivity.
Defined.

(** *** Upper and lower case *)

Lemma char_lower_twice (c : ascii) : Chars.lower (Chars.lower c) = Chars.lower c.
Proof.
  destruct c as [[] [] [] [] [] [] [] []]; vm_compute; reflexivity.
Qed.

Lemma lower_twice (s : str) : Str.lower (Str.lower s) = Str.lower s.
Proof.
  unfold Str.lower. rewrite List.map_map.
  apply List.map_ext. intros c. apply char_lower_twice.
Qed.

(** The score does not see the case of title and content: two sections
    whose titles and whose contents differ in case only get the same score,
    the section written in lower case among them. *)
Theorem calculate_section_score_ignores_case
    (a b : dict) (persona : string) (title_a content_a title_b content_b : str) :
  a !! "title"%string = Some (VStr title_a) ->
  a !! "content"%string = Some (VStr content_a) ->
  b !! "title"%string = Some (VStr title_b) ->
  b !! "content"%string = Some (VStr content_b) ->
  Str.lower title_a = Str.lower title_b ->
  Str.lower content_a = Str.lower content_b ->
  calculate_section_score a persona = calculate_section_score b persona
  /\ calculate_section_score
       (<["title" := VStr (Str.lower title_a)]>
          (<["content" := VStr (Str.lower content_a)]> a)) persona
     = calculate_section_score a persona.
Proof.
  intros Ta Ca Tb Cb Et Ec. split.
  - rewrite (score_of_strings a persona _ _ Ta Ca),
      (score_of_strings b persona _ _ Tb Cb), Et, Ec. reflexivity.
  - rewrite (score_of_strings a persona _ _ Ta Ca).
    rewrite (score_of_strings _ persona (Str.lower title_a)
               (Str.lower content_a)).
    + rewrite !lower_twice. reflexivity.
    + apply lookup_insert_eq.
    + rewrite lookup_insert_ne by discriminate. apply lookup_insert_eq.
Qed.

(** Witness: the same words in capitals and in lower case. *)
Lemma calculate_section_score_ignores_case_witness :
  calculate_section_score
    (<["title" := VStr (lit "MARKET Strategy")]>
       (<["content" := VStr (lit "Revenue and GROWTH")]> ∅)) "executive"
  = calculate_section_score
      (<["title" := VStr (lit "market strategy")]>
         (<["content" := VStr (lit "revenue and growth")]> ∅)) "executive".
Proof.
  apply (calculate_section_score_ignores_case _ _ "executive"
           (lit "MARKET Strategy") (lit "Revenue and GROWTH")
           (lit "market strategy") (lit "revenue and growth"));
    reflexivity.
Defined.

(** *** A section that matches nothing *)

Lemma count_from_absent p s : forall skip,
  Str.contains p s = false -> Str.count_from p skip s = 0%nat.
Proof.
  induction s as [|c s IH]; intros skip H; [reflexivity|].
  cbn [Str.contains] in H. apply orb_false_iff in H as [Hs Hc].
  cbn [Str.count_from]. destruct skip as [|k].
  - rewrite Hs. apply IH, Hc.
  - apply IH, Hc.
Qed.

(** [p in s] is false exactly when [s.count(p)] is 0. *)
Lemma count_absent p s : Str.contains p s = false <-> Str.count p s = 0%nat.
Proof.
  split.
  - intros H. destruct p as [|a p].
    + destruct s; discriminate.
    + unfold Str.count. apply count_from_absent, H.
  - destruct p as [|a p]; [discriminate|]. unfold Str.count.
    induction s as [|c s IH]; [reflexivity|].
    cbn [Str.contains Str.count_from].
    destruct (Str.startswith (a :: p) (c :: s)); [discriminate|].
    intros H. apply IH, H.
Qed.

Lemma title_score_absent kws t :
  forallb (fun k => negb (Str.contains (Str.lower k) t)) kws = true ->
  title_score kws t = 0%float.
Proof.
  unfold title_score. generalize 0%float as acc.
  induction kws as [|k kws IH]; intros acc H; [reflexivity|].
  simpl in H. apply andb_true_iff in H as [Hk Hrest].
  apply negb_true_iff in Hk. simpl. rewrite Hk. apply IH, Hrest.
Qed.

Lemma content_score_absent kws c :
  forallb (fun k => negb (Str.contains (Str.lower k) c)) kws = true ->
  content_score kws c = 0%float.
Proof.
  unfold content_score.
  assert (forall acc, acc = 0%float ->
            forallb (fun k => negb (Str.contains (Str.lower k) c)) kws = true ->
            fold_left
              (fun score keyword =>
                 (score
                  + Float64.min
                      (Float64.of_nat (Str.count (Str.lower keyword) c) * 0.1)
                      0.5)%float) kws acc = 0%float) as H.
  { induction kws as [|k kws IH]; intros acc Hacc H; [exact Hacc|].
    simpl in H. apply andb_true_iff in H as [Hk Hrest].
    apply negb_true_iff, count_absent in Hk. simpl. rewrite Hk.
    apply IH; [|exact Hrest]. subst acc. reflexivity. }
  apply H. reflexivity.
Qed.

(** Nothing found, nothing scored: a section in whose title and content no
    keyword of the persona occurs, and in whose title none of its priority
    phrases occurs, scores exactly 0.0. *)
Theorem calculate_section_score_no_match
    (section : dict) (persona : string) (cfg : persona_config)
    (title content : str) :
  personas !! persona = Some cfg ->
  section !! "title"%string = Some (VStr title) ->
  section !! "content"%string = Some (VStr content) ->
  (forall k, In k (keywords cfg) ->
     Str.contains (Str.lower k) (Str.lower title) = false
     /\ Str.contains (Str.lower k) (Str.lower content) = false) ->
  (forall p, In p (priority_sections cfg) ->
     Str.contains (Str.lower p) (Str.lower title) = false) ->
  calculate_section_score section persona = Ok 0%float.
Proof.
  intros Hcfg Ht Hc Hk Hp.
  rewrite (score_of_strings section persona _ _ Ht Hc), Hcfg.
  unfold total_score.
  rewrite title_score_absent, content_score_absent, priority_bonus_cases.
  - replace (existsb _ _) with false; [reflexivity|].
    symmetry. apply not_true_iff_false. intros H.
    apply existsb_exists in H as (p & Hin & Hm).
    unfold phrase_matches in Hm. rewrite (Hp p Hin) in Hm. discriminate.
  - apply forallb_forall. intros k Hin. apply negb_true_iff, Hk, Hin.
  - apply forallb_forall. intros k Hin. apply negb_true_iff, Hk, Hin.
Qed.

(** Witness: an appendix, scored for the technical persona. *)
Lemma calculate_section_score_no_match_witness :
  calculate_section_score
    (<["title" := VStr (lit "Appendix")]>
       (<["content" := VStr (lit "Tables and figures")]> ∅)) "technical"
  = Ok 0%float.
Proof.
  apply (calculate_section_score_no_match _ "technical" technical
           (lit "Appendix") (lit "Tables and figures")).
  - reflexivity.
  - reflexivity.
  - reflexivity.
  - intros k Hk. simpl in Hk.
    repeat (destruct Hk as [<-|Hk]; [split; reflexivity|]). destruct Hk.
  - intros p Hp. simpl in Hp.
    repeat (destruct Hp as [<-|Hp]; [reflexivity|]). destruct Hp.
Defined.

End ScorerCases.

(** ** The priority bonus in the score *)

Module ScorerBonus.
Import Scorer ScorerFacts.

(** No keyword of [cfg] occurs in the title or in the content. *)
Definition no_keyword (cfg : persona_config) (title content : str) : bool :=
  forallb
    (fun k =>
       negb (Str.contains (Str.lower k) (Str.lower title))
       && negb (Str.contains (Str.lower k) (Str.lower content)))
    (keywords cfg).

Lemma no_keyword_terms cfg title content :
  no_keyword cfg title content = true ->
  title_score (keywords cfg) (Str.lower title) = 0%float
  /\ content_score (keywords cfg) (Str.lower content) = 0%float.
Proof.
  unfold no_keyword. rewrite forallb_forall. intros H. split.
  - apply ScorerCases.title_score_absent. apply forallb_forall.
    intros k Hk. specialize (H k Hk). apply andb_true_iff in H. tauto.
  - apply ScorerCases.content_score_absent. apply forallb_forall.
    intros k Hk. specialize (H k Hk). apply andb_true_iff in H. tauto.
Qed.

(** Claim C5.  For a configured persona and a section with title and
    content strings, the score the scorer returns is the capped sum of the
    title term, the content term and one bonus: 0.2 when some priority
    phrase of the persona occurs, case-insensitively, in the title, and
    nothing otherwise, however many phrases occur.  So a section in which
    no keyword occurs scores exactly 0.2 when a phrase occurs in its title
    and 0.0 when none does.  The bonus of any list of phrases is 0.2 or
    0.0, never more; the phrases are scanned in their order and the scan
    ends at the first match: the bonus of a list is the bonus of its
    prefix up to that match, whatever follows. *)
Theorem priority_bonus_first_match
    (section : dict) (persona : string) (cfg : persona_config)
    (title content : str) :
  personas !! persona = Some cfg ->
  section !! "title"%string = Some (VStr title) ->
  section !! "content"%string = Some (VStr content) ->
  calculate_section_score section persona
  = Ok (Float64.min
          (title_score (keywords cfg) (Str.lower title)
           + content_score (keywords cfg) (Str.lower content)
           + (if existsb (phrase_matches (Str.lower title))
                   (priority_sections cfg)
              then 0.2 else 0))%float
          1%float)
  /\ (no_keyword cfg title content = true ->
      calculate_section_score section persona
      = Ok (if existsb (phrase_matches (Str.lower title))
                 (priority_sections cfg)
            then 0.2%float else 0%float))
  /\ (forall phrases,
        priority_bonus phrases (Str.lower title)
        = (if existsb (phrase_matches (Str.lower title)) phrases
           then 0.2%float else 0%float)
        /\ (priority_bonus phrases (Str.lower title) <=? 0.2)%float = true)
  /\ (forall before phrase after,
        existsb (phrase_matches (Str.lower title)) before = false ->
        phrase_matches (Str.lower title) phrase = true ->
        priority_bonus (before ++ phrase :: after) (Str.lower title)
        = priority_bonus (before ++ [phrase]) (Str.lower title)
        /\ priority_bonus (before ++ phrase :: after) (Str.lower title)
           = 0.2%float).
Proof.
  intros Hcfg Ht Hc.
  assert (Hscore : calculate_section_score section persona
                   = Ok (Float64.min
                           (title_score (keywords cfg) (Str.lower title)
                            + content_score (keywords cfg) (Str.lower content)
                            + (if existsb (phrase_matches (Str.lower title))
                                    (priority_sections cfg)
                               then 0.2 else 0))%float
                           1%float)).
  { rewrite (score_of_strings section persona title content Ht Hc), Hcfg.
    unfold total_score. rewrite priority_bonus_cases. reflexivity. }
  split; [exact Hscore|]. split; [|split].
  - intros Hno. rewrite Hscore.
    destruct (no_keyword_terms cfg title content Hno) as [-> ->].
    destruct (existsb _ _); reflexivity.
  - intros phrases. rewrite priority_bonus_cases.
    split; [reflexivity|].
    destruct (existsb (phrase_matches (Str.lower title)) phrases);
      reflexivity.
  - intros before phrase after Hb Hp.
    rewrite !priority_bonus_cases, !existsb_app. simpl.
    rewrite Hb, Hp. simpl. split; reflexivity.
Qed.

(** A title in which two priority phrases of the executive persona occur,
    and no keyword. *)
Definition two_phrase_section : dict :=
  <["title" := VStr (lit "Executive Summary and Financial Projections")]>
    (<["content" := VStr (lit "An overview of the year.")]> ∅).

(** Witness for C5: two phrases occur in the title, and the score is one
    bonus, 0.2. *)
Lemma priority_bonus_first_match_witness :
  calculate_section_score two_phrase_section "executive" = Ok 0.2%float.
Proof.
  rewrite (proj1 (proj2 (priority_bonus_first_match two_phrase_section
                           "executive" executive
                           (lit "Executive Summary and Financial Projections")
                           (lit "An overview of the year.")
                           eq_refl eq_refl eq_refl)) eq_refl).
  reflexivity.
Defined.

End ScorerBonus.

(** ** More on the ranker *)

Module RankerCases.
Import Ranker RankerFacts.

(** *** Stored scores have two decimals *)

(** On the unit interval [round2] returns its argument, a zero, or an
    entry of the table of hundredths. *)
Lemma round2_cases x :
  FloatFacts.in_unit x = true ->
  (exists s, Prim2SF x = S754_zero s /\ Float64.round2 x = x)
  \/ Float64.round2 x = FloatFacts.round_table (FloatFacts.hundredths_of x).
Proof.
  intros H. pose proof (FloatFacts.in_unit_small x H) as Hs.
  pose proof (FloatFacts.in_unit_value x H) as Hv.
  pose proof (Prim2SF_valid x) as Hvalid.
  unfold Float64.round2, FloatFacts.hundredths_of, FloatFacts.value,
    FloatFacts.small in *.
  destruct (Prim2SF x) as [s|s| |s m e] eqn:Ex; try discriminate.
  - left. exists s. split; reflexivity.
  - right. destruct s; [discriminate|]. simpl FloatFacts.sf_value in *.
    apply FloatFacts.valid_finite in Hvalid as (L & U & N).
    assert (Hk : 0 < 2 ^ (e + 1074)) by (apply Z.pow_pos_nonneg; lia).
    assert (He : e < 0).
    { destruct N as [N|N]; [lia|].
      destruct (Z.lt_ge_cases e 0) as [|Hge]; [assumption|exfalso].
      assert (2 ^ 1074 <= 2 ^ (e + 1074)) by (apply Z.pow_le_mono_r; lia).
      assert (2 ^ 52 * 2 ^ (e + 1074) <= Z.pos m * 2 ^ (e + 1074))
        by (apply Z.mul_le_mono_nonneg_r; lia).
      assert (2 * 2 ^ (e + 1074) <= 2 ^ 52 * 2 ^ (e + 1074))
        by (apply Z.mul_le_mono_nonneg_r; lia).
      lia. }
    destruct e as [|p|p]; try lia.
    assert (Hh : Float64.hundredths m (Z.neg p)
                 = Float64.div_half_even (100 * (Z.pos m * 2 ^ (Z.neg p + 1074)))
                     (2 ^ 1074)).
    { unfold Float64.hundredths.
      rewrite <- (FloatFacts.div_half_even_scale (100 * Z.pos m) (2 ^ Z.pos p)
                    (2 ^ (Z.neg p + 1074)))
        by (try apply Z.pow_pos_nonneg; lia).
      f_equal; [ring|].
      rewrite <- Z.pow_add_r by lia. f_equal. lia. }
    rewrite Hh.
    destruct (Float64.div_half_even _ _); reflexivity.
Qed.

(** Each entry of the table is the quotient Python computes for
    [n / 100]. *)
Lemma round_table_quotients :
  forallb
    (fun n =>
       PrimFloat.eqb (FloatFacts.round_table n)
         (Float64.of_nat (Z.to_nat n) / 100)%float)
    FloatFacts.hundred = true.
Proof. vm_compute. reflexivity. Qed.

Lemma round2_hundredth x :
  FloatFacts.in_unit x = true ->
  exists n : nat,
    (n <= 100)%nat
    /\ (Float64.round2 x =? Float64.of_nat n / 100)%float = true.
Proof.
  intros H. destruct (round2_cases x H) as [(s & Ex & ->)| ->].
  - exists 0%nat. split; [lia|]. rewrite FloatAxioms.eqb_spec, Ex.
    destruct s; vm_compute; reflexivity.
  - pose proof (FloatFacts.hundredths_of_bounds x H) as Hb.
    exists (Z.to_nat (FloatFacts.hundredths_of x)). split; [lia|].
    pose proof round_table_quotients as T. rewrite forallb_forall in T.
    apply T, FloatFacts.hundred_spec, Hb.
Qed.

(** Every section the ranker returns carries a relevance score of two
    decimals: a float between 0 and 1 that equals [n / 100] for a whole
    number [n] of hundredths. *)
Theorem prioritize_sections_two_decimals
    (sections : list ref) (persona : string) (h : heap) (ds : list dict) :
  Forall2 (fun r d => h !! r = Some d) sections ds ->
  Forall has_text ds ->
  exists out h',
    prioritize_sections sections persona h = Ok (out, h')
    /\ forall r, In r out ->
         exists d score (n : nat),
           h' !! r = Some d
           /\ d !! "relevance_score"%string = Some (VFloat score)
           /\ (0 <=? score)%float = true
           /\ (score <=? 1)%float = true
           /\ (n <= 100)%nat
           /\ (score =? Float64.of_nat n / 100)%float = true.
Proof.
  intros H1 Htext.
  destruct (scores_exist persona ds Htext) as (ss & H2 & Hunit).
  destruct (prioritize_sections_run sections persona h ds ss H1 H2)
    as (h' & Hrun & _ & _ & Hranked).
  eexists _, h'. split; [exact Hrun|].
  intros r Hr. apply list_elem_of_In, list_elem_of_lookup in Hr as [k Hk].
  rewrite list_lookup_fmap in Hk.
  destruct (sort_desc _ !! k) as [[s r']|] eqn:E; [|discriminate].
  simpl in Hk. injection Hk as <-.
  destruct (Hranked k s r' E) as (i & d & _ & _ & Hs & Hh).
  assert (Hu : FloatFacts.in_unit s = true).
  { rewrite List.Forall_forall in Hunit. apply Hunit.
    apply list_elem_of_In. eapply list_elem_of_lookup_2. exact Hs. }
  pose proof (FloatFacts.round2_in_unit s Hu) as Hr2.
  unfold FloatFacts.in_unit in Hr2. apply andb_true_iff in Hr2 as [Hlo Hhi].
  destruct (round2_hundredth s Hu) as (n & Hn & Hq).
  exists (ranked_copy d s k), (Float64.round2 s), n.
  split; [exact Hh|]. split; [apply ranked_copy_fields|]. auto.
Qed.

(** Witness: the two sections of the sample heap. *)
Lemma prioritize_sections_two_decimals_witness :
  exists out h',
    prioritize_sections [0; 1]%nat "executive" sample_heap = Ok (out, h')
    /\ forall r, In r out ->
         exists d score (n : nat),
           h' !! r = Some d
           /\ d !! "relevance_score"%string = Some (VFloat score)
           /\ (0 <=? score)%float = true
           /\ (score <=? 1)%float = true
           /\ (n <= 100)%nat
           /\ (score =? Float64.of_nat n / 100)%float = true.
Proof.
  apply (prioritize_sections_two_decimals [0; 1]%nat "executive" sample_heap
           sample_heap).
  - repeat constructor.
  - exact sample_heap_text.
Defined.

(** *** A section that cannot be scored *)

Lemma score_loop_raises persona e r d post pre :
  forall ds ss scored h,
  Forall2 (fun r d => h !! r = Some d) pre ds ->
  Forall2 (fun d s => Scorer.calculate_section_score d persona = Ok s) ds ss ->
  h !! r = Some d ->
  Scorer.calculate_section_score d persona = Raise e ->
  score_loop persona (pre ++ r :: post) scored h = Raise e.
Proof.
  induction pre as [|r0 pre IH]; intros ds ss scored h H1 H2 Hr He.
  - simpl. unfold Heap.read. rewrite Hr. simpl. rewrite He. reflexivity.
  - inversion H1 as [|? d0 ? ds' Hr0 Hrest]; subst.
    inversion H2 as [|? s0 ? ss' Hs0 Hss]; subst.
    simpl. unfold Heap.read at 1. rewrite Hr0. simpl. rewrite Hs0. simpl.
    rewrite alloc_setitem. simpl.
    apply (IH ds' ss').
    + eapply Forall2_impl; [exact Hrest|].
      intros r' d' Hd'. apply lookup_app_l_Some. exact Hd'.
    + exact Hss.
    + apply lookup_app_l_Some. exact Hr.
    + exact He.
Qed.

(** The ranker handles no exception: what the scorer raises on the first
    section it cannot score (a missing title, say) is what the whole call
    raises, and no list is returned. *)
Theorem prioritize_sections_raises
    (pre post : list ref) (r : ref) (persona : string) (h : heap)
    (ds : list dict) (d : dict) (e : exn) :
  Forall2 (fun r d => h !! r = Some d) pre ds ->
  Forall has_text ds ->
  h !! r = Some d ->
  Scorer.calculate_section_score d persona = Raise e ->
  prioritize_sections (pre ++ r :: post) persona h = Raise e.
Proof.
  intros H1 Htext Hr He.
  destruct (scores_exist persona ds Htext) as (ss & H2 & _).
  unfold prioritize_sections.
  rewrite (score_loop_raises persona e r d post pre ds ss [] h H1 H2 Hr He).
  reflexivity.
Qed.

(** Two sections, the second without title. *)
Definition untitled_heap : heap :=
  [ScorerFacts.summary_section;
   <["content" := VStr (lit "growth of the market and revenue")]> ∅].

(** Witness: the second section has no title. *)
Lemma prioritize_sections_raises_witness :
  prioritize_sections [0; 1]%nat "executive" untitled_heap
  = Raise (KeyError "title").
Proof.
  apply (prioritize_sections_raises [0%nat] [] 1%nat "executive" untitled_heap
           [ScorerFacts.summary_section]
           (<["content" := VStr (lit "growth of the market and revenue")]> ∅)).
  - repeat constructor.
  - repeat constructor.
    exists (lit "Executive Summary"), (lit "strategy strategy strategy market").
    split; reflexivity.
  - reflexivity.
  - reflexivity.
Defined.

(** *** Ranking a ranked list *)

Lemma score_ranked_copy d s k persona :
  Scorer.calculate_section_score (ranked_copy d s k) persona
  = Scorer.calculate_section_score d persona.
Proof.
  unfold Scorer.calculate_section_score, getitem.
  destruct (ranked_copy_fields d s k) as (_ & _ & Hkeep).
  rewrite !Hkeep by discriminate. reflexivity.
Qed.

Lemma ranked_copy_twice d s k :
  ranked_copy (ranked_copy d s k) s k = ranked_copy d s k.
Proof.
  apply map_eq. intros key. unfold ranked_copy, scored_copy.
  destruct (decide (key = "relevance_score"%string)) as [->|H1].
  - rewrite !lookup_insert_eq. reflexivity.
  - rewrite (lookup_insert_ne _ "relevance_score"%string key) by congruence.
    rewrite (lookup_insert_ne _ "relevance_score"%string key) by congruence.
    destruct (decide (key = "importance_rank"%string)) as [->|H2].
    + rewrite !lookup_insert_eq. reflexivity.
    + rewrite !lookup_insert_ne by congruence. reflexivity.
Qed.

(** Not increasing: no element is smaller than a later one. *)
Definition not_below (x y : float * ref) : Prop :=
  PrimFloat.ltb (fst x) (fst y) = false.

Lemma sort_desc_of_sorted l :
  StronglySorted not_below l -> sort_desc l = l.
Proof.
  unfold sort_desc.
  assert (H : forall acc,
            StronglySorted not_below (acc ++ l) ->
            fold_left (fun sorted x => insert_desc x sorted) l acc = acc ++ l).
  { induction l as [|x l IH]; intros acc Hs.
    - simpl. rewrite app_nil_r. reflexivity.
    - simpl. rewrite insert_desc_tied.
      + rewrite IH; rewrite <- app_assoc; [reflexivity|exact Hs].
      + clear IH. induction acc as [|a acc IHa]; [constructor|].
        simpl in Hs. apply StronglySorted_inv in Hs as [Hs Ha].
        constructor; [|apply IHa, Hs].
        rewrite List.Forall_forall in Ha. apply Ha.
        apply in_or_app. right. left. reflexivity. }
  intros Hs. apply (H [] Hs).
Qed.

Lemma precedes_not_below x y :
  small_key x -> small_key y -> precedes x y -> not_below x y.
Proof.
  unfold small_key, precedes, not_below. intros Sx Sy H.
  rewrite (FloatFacts.ltb_value _ _ Sx Sy). apply Z.ltb_ge. lia.
Qed.

Lemma strongly_sorted_impl {A : Type} (R S : A -> A -> Prop) (P : A -> Prop) l :
  (forall x y, P x -> P y -> R x y -> S x y) ->
  Forall P l -> StronglySorted R l -> StronglySorted S l.
Proof.
  intros HRS. induction l as [|a l IH]; intros HP Hs; [constructor|].
  apply List.Forall_cons_iff in HP as [Pa Pl].
  apply StronglySorted_inv in Hs as [Hs Ha].
  constructor; [apply IH; assumption|].
  rewrite List.Forall_forall in *. intros y Hy. apply HRS; auto.
Qed.

Lemma keyed_from_not_below (keyed : list (float * ref)) : forall base,
  StronglySorted not_below keyed ->
  StronglySorted not_below (keyed_from base (List.map fst keyed)).
Proof.
  induction keyed as [|x keyed IH]; intros base Hs; [constructor|].
  apply StronglySorted_inv in Hs as [Hs Hx].
  simpl. constructor; [apply IH, Hs|].
  rewrite List.Forall_forall in *. intros [s r] Hy.
  apply list_elem_of_In, list_elem_of_lookup in Hy as [i Hi].
  apply keyed_from_lookup in Hi as [_ Hi].
  rewrite list_lookup_fmap in Hi.
  destruct (keyed !! i) as [y|] eqn:Ey; [|discriminate].
  simpl in Hi. injection Hi as <-.
  specialize (Hx y). unfold not_below in *. simpl. apply Hx.
  apply list_elem_of_In. eapply list_elem_of_lookup_2. exact Ey.
Qed.

Lemma lookups_exist (h : heap) (rs : list ref) :
  (forall r, In r rs -> exists d, h !! r = Some d) ->
  exists ds, Forall2 (fun r d => h !! r = Some d) rs ds.
Proof.
  induction rs as [|r rs IH]; intros H.
  - exists []. constructor.
  - destruct (H r (or_introl eq_refl)) as [d Hd].
    destruct IH as [ds Hds]; [intros r' Hr'; apply H; right; exact Hr'|].
    exists (d :: ds). constructor; assumption.
Qed.

(** Ranking is settled after one pass.  When the list the ranker returned
    is ranked once more for the same persona, the second pass keeps the
    order, and each of its copies holds exactly what the section it was
    copied from holds: title, content, page, rank and stored score. *)
Theorem prioritize_sections_again
    (sections : list ref) (persona : string) (h : heap) (ds : list dict) :
  Forall2 (fun r d => h !! r = Some d) sections ds ->
  Forall has_text ds ->
  exists out h1 out2 h2,
    prioritize_sections sections persona h = Ok (out, h1)
    /\ prioritize_sections out persona h1 = Ok (out2, h2)
    /\ List.length out2 = List.length out
    /\ forall k r, out !! k = Some r ->
         exists r2 d, out2 !! k = Some r2
                      /\ h1 !! r = Some d /\ h2 !! r2 = Some d.
Proof.
  intros H1 Htext.
  destruct (scores_exist persona ds Htext) as (ss & H2 & Hunit).
  destruct (prioritize_sections_run sections persona h ds ss H1 H2)
    as (h1 & Hrun & _ & _ & Hranked).
  set (keyed := sort_desc (keyed_from (List.length h) ss)) in *.
  set (out := List.map snd keyed) in *.
  assert (Hsmall : Forall small_key keyed).
  { unfold keyed. rewrite sort_desc_perm. apply keyed_from_small, Hunit. }
  assert (Hsorted : StronglySorted not_below keyed).
  { apply (strongly_sorted_impl precedes not_below small_key);
      [apply precedes_not_below|exact Hsmall|].
    apply sort_desc_sorted; [apply keyed_from_small, Hunit|].
    apply keyed_from_sorted. }
  destruct (lookups_exist h1 out) as [ds2 Hds2].
  { intros r Hr. apply list_elem_of_In, list_elem_of_lookup in Hr as [k Hk].
    unfold out in Hk. rewrite list_lookup_fmap in Hk.
    destruct (keyed !! k) as [[s r']|] eqn:E; [|discriminate].
    simpl in Hk. injection Hk as <-.
    destruct (Hranked k s r' E) as (i & d & _ & _ & _ & Hh). eauto. }
  assert (Hcopy : forall k s r d2,
            keyed !! k = Some (s, r) -> ds2 !! k = Some d2 ->
            exists d, Scorer.calculate_section_score d persona = Ok s
                      /\ d2 = ranked_copy d s k /\ h1 !! r = Some d2).
  { intros k s r d2 E Hd2.
    destruct (Hranked k s r E) as (i & d & _ & Hd & Hs & Hh).
    assert (Hout : out !! k = Some r)
      by (unfold out; rewrite list_lookup_fmap, E; reflexivity).
    pose proof (Forall2_lookup_lr _ _ _ _ _ _ Hds2 Hout Hd2) as Hh2.
    exists d. split; [|split; congruence].
    exact (Forall2_lookup_lr _ _ _ _ _ _ H2 Hd Hs). }
  assert (Hlen2 : List.length ds2 = List.length keyed).
  { rewrite <- (Forall2_length _ _ _ Hds2). unfold out.
    apply length_map. }
  assert (H2' : Forall2
                  (fun d s => Scorer.calculate_section_score d persona = Ok s)
                  ds2 (List.map fst keyed)).
  { apply Forall2_same_length_lookup. split; [rewrite length_map; exact Hlen2|].
    intros k d2 s Hd2 Hs. rewrite list_lookup_fmap in Hs.
    destruct (keyed !! k) as [[s' r]|] eqn:E; [|discriminate].
    simpl in Hs. injection Hs as <-.
    destruct (Hcopy k s' r d2 E Hd2) as (d & Hsc & -> & _).
    rewrite score_ranked_copy. exact Hsc. }
  destruct (prioritize_sections_run out persona h1 ds2 (List.map fst keyed)
              Hds2 H2') as (h2 & Hrun2 & _ & _ & Hranked2).
  rewrite (sort_desc_of_sorted _ (keyed_from_not_below keyed _ Hsorted))
    in Hrun2, Hranked2.
  exists out, h1,
    (List.map snd (keyed_from (List.length h1) (List.map fst keyed))), h2.
  split; [exact Hrun|]. split; [exact Hrun2|]. split.
  - rewrite keyed_from_refs, length_seq, length_map. unfold out.
    rewrite length_map. reflexivity.
  - intros k r Hk.
    assert (Hk' := Hk). unfold out in Hk'. rewrite list_lookup_fmap in Hk'.
    destruct (keyed !! k) as [[s r']|] eqn:E; [|discriminate].
    simpl in Hk'. injection Hk' as ->.
    destruct (Forall2_lookup_l _ _ _ _ _ Hds2 Hk) as (d2 & Hd2 & Hh1).
    destruct (Hcopy k s r d2 E Hd2) as (d & _ & -> & _).
    assert (Ek : keyed_from (List.length h1) (List.map fst keyed) !! k
                 = Some (s, (List.length h1 + k)%nat)).
    { apply keyed_from_lookup. split; [reflexivity|].
      rewrite list_lookup_fmap, E. reflexivity. }
    destruct (Hranked2 k s _ Ek) as (i & d' & Hi & Hd' & _ & Hh2).
    assert (i = k) by lia. subst i.
    assert (d' = ranked_copy d s k) by congruence. subst d'.
    rewrite ranked_copy_twice in Hh2.
    exists (List.length h1 + k)%nat, (ranked_copy d s k).
    split; [|split; assumption].
    rewrite list_lookup_fmap, Ek. reflexivity.
Qed.

(** Witness: the sample heap, ranked twice. *)
Lemma prioritize_sections_again_witness :
  exists out h1 out2 h2,
    prioritize_sections [0; 1]%nat "executive" sample_heap = Ok (out, h1)
    /\ prioritize_sections out "executive" h1 = Ok (out2, h2)
    /\ List.length out2 = List.length out.
Proof.
  destruct (prioritize_sections_again [0; 1]%nat "executive" sample_heap
              sample_heap) as (out & h1 & out2 & h2 & E1 & E2 & L & _).
  - repeat constructor.
  - exact sample_heap_text.
  - exists out, h1, out2, h2. auto.
Defined.

End RankerCases.

(** ** The record against the two validators *)

Module RecordFacts.
Import Pipeline PipelineFacts.

(** *** Fields of a dumped dictionary *)

Lemma lookup_field_assoc (name : string) (l : list (string * pyval)) :
  NoDup (l.*1) ->
  JsonSchema.lookup_field name
    (List.map (fun kv => (fst kv, value_json (snd kv))) l)
  = value_json <$> (list_to_map l : dict) !! name.
Proof.
  induction l as [|[k v] l IH]; intros Hnd; [reflexivity|].
  simpl in Hnd. apply NoDup_cons in Hnd as [Hk Hnd].
  simpl. destruct (String.eqb k name) eqn:E.
  - apply String.eqb_eq in E. subst k. rewrite lookup_insert_eq. reflexivity.
  - apply String.eqb_neq in E. rewrite lookup_insert_ne by exact E.
    apply IH, Hnd.
Qed.

Lemma lookup_field_dict (name : string) (d : dict) :
  match dict_json d with
  | JObj fields => JsonSchema.lookup_field name fields = value_json <$> d !! name
  | _ => False
  end.
Proof.
  unfold dict_json.
  rewrite (lookup_field_assoc name (map_to_list d) (NoDup_fst_map_to_list d)).
  rewrite list_to_map_to_list. reflexivity.
Qed.

(** *** A section object that conforms *)

Definition well_formed (d : dict) : Prop :=
  exists title content page rank score,
    d !! "title"%string = Some (VStr title) /\ title <> []
    /\ d !! "content"%string = Some (VStr content) /\ content <> []
    /\ d !! "page_number"%string = Some (VInt page) /\ 1 <= page
    /\ d !! "importance_rank"%string = Some (VInt rank) /\ 1 <= rank
    /\ d !! "relevance_score"%string = Some (VFloat score)
    /\ FloatFacts.in_unit score = true.

Lemma in_unit_not_below score :
  FloatFacts.in_unit score = true ->
  JsonSchema.below 0 (JFloat score) = false
  /\ JsonSchema.above 1 (JFloat score) = false.
Proof.
  intros H. pose proof (FloatFacts.in_unit_small _ H) as Hs.
  pose proof (FloatFacts.in_unit_value _ H) as Hv.
  unfold JsonSchema.below, JsonSchema.above.
  change (PrimFloat.of_uint63 (Uint63.of_Z 0)) with 0%float.
  change (PrimFloat.of_uint63 (Uint63.of_Z 1)) with 1%float.
  rewrite (FloatFacts.ltb_value score 0 Hs eq_refl),
    (FloatFacts.ltb_value 1 score eq_refl Hs).
  rewrite FloatFacts.value_one.
  change (FloatFacts.value 0) with 0.
  split; apply Z.ltb_ge; lia.
Qed.

Lemma section_conforms (d : dict) (path : list path_step) :
  well_formed d ->
  JsonSchema.iter_errors JsonSchema.section_schema path (dict_json d) = [].
Proof.
  intros (title & content & page & rank & score
          & Ht & Hte & Hc & Hce & Hp & Hpe & Hr & Hre & Hs & Hse).
  pose proof (lookup_field_dict "title" d) as Lt.
  pose proof (lookup_field_dict "content" d) as Lc.
  pose proof (lookup_field_dict "page_number" d) as Lp.
  pose proof (lookup_field_dict "importance_rank" d) as Lr.
  pose proof (lookup_field_dict "relevance_score" d) as Ls.
  destruct (dict_json d) as [| | | | | |fields]; try contradiction.
  rewrite Ht in Lt. rewrite Hc in Lc. rewrite Hp in Lp. rewrite Hr in Lr.
  rewrite Hs in Ls. simpl in Lt, Lc, Lp, Lr, Ls.
  unfold JsonSchema.section_schema.
  cbn [JsonSchema.iter_errors JsonSchema.has_type negb JsonSchema.when
       List.filter List.map app].
  rewrite Lt, Lc, Lp, Lr, Ls.
  destruct (in_unit_not_below score Hse) as [Hlo Hhi]. rewrite Hlo, Hhi.
  unfold JsonSchema.below.
  replace (page <? 1) with false by (symmetry; apply Z.ltb_ge; lia).
  replace (rank <? 1) with false by (symmetry; apply Z.ltb_ge; lia).
  destruct title as [|c1 title]; [contradiction|].
  destruct content as [|c2 content]; [contradiction|].
  reflexivity.
Qed.

(** The schema's items, one after the other. *)
Lemma sections_conform (ds : list dict) (path : list path_step) :
  Forall well_formed ds ->
  JsonSchema.iter_errors
    (JsonSchema.Schema (Some JsonSchema.TArray) [] []
       (Some JsonSchema.section_schema) None None None None)
    path (JArr (List.map dict_json ds)) = [].
Proof.
  intros H.
  cbn [JsonSchema.iter_errors JsonSchema.has_type negb JsonSchema.when
       List.filter List.map app].
  rewrite app_nil_r. generalize 0%nat.
  induction H as [|d ds Hd _ IH]; intros i; [reflexivity|].
  cbn [List.map]. rewrite (section_conforms d _ Hd). apply IH.
Qed.

Lemma lit_inj (a b : string) : lit a = lit b -> a = b.
Proof.
  unfold lit. intros H.
  rewrite <- (string_of_list_ascii_of_string a),
    <- (string_of_list_ascii_of_string b), H. reflexivity.
Qed.

(** The persona is one of the four names of the schema's [enum]. *)
Definition in_enum (persona : string) : bool :=
  List.existsb (JsonSchema.str_eqb (lit persona))
    (List.map lit ["executive"; "technical"; "marketing"; "investor"]%string).

Lemma in_enum_known persona :
  in_enum persona = true <-> In persona ScorerFacts.known_personas.
Proof.
  unfold in_enum, ScorerFacts.known_personas. rewrite existsb_exists. split.
  - intros (x & Hx & E). unfold JsonSchema.str_eqb in E.
    apply bool_decide_eq_true in E. subst x.
    apply in_map_iff in Hx as (p & Hp & Hin). apply lit_inj in Hp. subst p.
    exact Hin.
  - intros H. exists (lit persona). split.
    + apply in_map. exact H.
    + unfold JsonSchema.str_eqb. apply bool_decide_eq_true. reflexivity.
Qed.

(** All violations of the schema by a record with well-formed sections:
    none, or the persona that is not in the [enum]. *)
Lemma record_errors (r : result_record) (top : list dict) :
  0 <= total_sections r ->
  Forall well_formed top ->
  JsonSchema.iter_errors JsonSchema.json_schema [] (record_json r top)
  = if in_enum (persona r) then []
    else [mk_schema_error [InProperty "persona"] KwEnum].
Proof.
  intros Hn Htop. unfold JsonSchema.json_schema, record_json.
  pose proof (sections_conform top [InProperty "sections"] Htop) as Hs.
  cbn [JsonSchema.iter_errors JsonSchema.has_type negb JsonSchema.when
       JsonSchema.leaf JsonSchema.lookup_field String.eqb Ascii.eqb
       Bool.eqb List.filter List.map app] in Hs |- *.
  rewrite Hs. unfold JsonSchema.below.
  replace (total_sections r <? 0) with false by (symmetry; apply Z.ltb_ge; lia).
  change (existsb _ _) with (in_enum (persona r)).
  destruct (in_enum (persona r)); reflexivity.
Qed.

(** *** The sections a run stores *)

(** [d] is the copy of an extracted section, ranked at position [k]. *)
Definition stored (text : str) (persona : string) (k : nat) (d : dict) : Prop :=
  exists s score,
    In s (Segmenter.extract_sections text)
    /\ Scorer.calculate_section_score (section_dict s) persona = Ok score
    /\ d = RankerFacts.ranked_copy (section_dict s) score k.

Lemma process_document_top
    (best_match : schema_error -> list schema_error -> schema_error)
    (name text now : str) (persona : string) (h : heap) :
  text <> [] ->
  exists out hr top section_errors json_errors,
    process_document best_match name text now persona h
    = Ok (ResultRecord
            (record_of name now persona
               (List.length (Segmenter.extract_sections text)) out)
            (section_errors ++ json_errors), hr)
    /\ Forall2 (fun r d => hr !! r = Some d) (take 10 out) top
    /\ (forall k d, top !! k = Some d -> stored text persona k d)
    /\ Validator.validate_sections top = Ok section_errors
    /\ JsonSchema.validate_json_structure best_match
         (record_json
            (record_of name now persona
               (List.length (Segmenter.extract_sections text)) out) top)
       = Ok json_errors
    /\ (forall r d, h !! r = Some d -> hr !! r = Some d).
Proof.
  intros Htext.
  destruct (process_document_run best_match name text now persona h Htext)
    as (out & hr & top & section_errors & json_errors
        & E & _ & _ & Htop & Esec & Ejson & Erun).
  exists out, hr, top, section_errors, json_errors.
  split; [exact Erun|]. split; [exact Htop|].
  cut ((forall k d, top !! k = Some d -> stored text persona k d)
       /\ (forall r d, h !! r = Some d -> hr !! r = Some d)); [tauto|].
  set (secs := Segmenter.extract_sections text) in *.
  set (dicts := List.map section_dict secs) in *.
  assert (Hlook : Forall2 (fun r d => (h ++ dicts) !! r = Some d)
                    (seq (List.length h) (List.length secs)) dicts).
  { apply Forall2_same_length_lookup. split.
    - rewrite length_seq. unfold dicts. rewrite length_map. reflexivity.
    - intros i r d Hr Hd. apply lookup_seq in Hr as [-> _].
      rewrite lookup_app_r by lia.
      replace (List.length h + i - List.length h)%nat with i by lia.
      exact Hd. }
  assert (Htext' : Forall RankerFacts.has_text dicts).
  { apply List.Forall_forall. intros d Hd.
    apply in_map_iff in Hd as (s & <- & _). apply section_dict_text. }
  destruct (RankerFacts.scores_exist persona dicts Htext') as (ss & H2 & _).
  destruct (RankerFacts.prioritize_sections_run _ persona _ dicts ss Hlook H2)
    as (h' & Hrun & _ & Hframe & Hranked).
  rewrite Hrun in E. injection E as <- <-.
  split; [|intros r d Hr; rewrite Hframe;
           [apply lookup_app_l_Some; exact Hr
           |rewrite length_app; apply lookup_lt_Some in Hr; lia]].
  intros k d Hk.
  destruct (Forall2_lookup_r _ _ _ _ _ Htop Hk) as (r & Hr & Hd).
  apply lookup_take_Some in Hr as [Hr _].
  rewrite list_lookup_fmap in Hr.
  destruct (Ranker.sort_desc _ !! k) as [[s0 r0]|] eqn:Ek; [|discriminate].
  simpl in Hr. injection Hr as ->.
  destruct (Hranked k s0 r Ek) as (i & d0 & _ & Hd0 & Hs0 & Hh).
  unfold dicts in Hd0. rewrite list_lookup_fmap in Hd0.
  destruct (secs !! i) as [s|] eqn:Es; [|discriminate].
  simpl in Hd0. injection Hd0 as <-.
  exists s, s0. split; [|split].
  - apply list_elem_of_In. eapply list_elem_of_lookup_2. exact Es.
  - refine (Forall2_lookup_lr _ _ _ _ _ _ H2 _ Hs0).
    unfold dicts. rewrite list_lookup_fmap, Es. reflexivity.
  - congruence.
Qed.

Lemma extracted_page_positive text s :
  In s (Segmenter.extract_sections text) -> 1 <= Segmenter.page_number s.
Proof.
  intros Hin. unfold Segmenter.extract_sections in Hin.
  apply List.filter_In in Hin as [Hin _].
  destruct (SegmenterShape.candidate_sections_pages text) as [_ Hb].
  rewrite List.Forall_forall in Hb.
  apply (Hb _ (in_map _ _ _ Hin)).
Qed.

Lemma stored_fields text persona k d :
  stored text persona k d ->
  exists s score,
    Segmenter.is_valid s = true
    /\ 1 <= Segmenter.page_number s
    /\ FloatFacts.in_unit score = true
    /\ d !! "title"%string = Some (VStr (Segmenter.title s))
    /\ d !! "content"%string = Some (VStr (Segmenter.content s))
    /\ d !! "page_number"%string = Some (VInt (Segmenter.page_number s))
    /\ d !! "importance_rank"%string = Some (VInt (Z.of_nat k + 1))
    /\ d !! "relevance_score"%string = Some (VFloat (Float64.round2 score)).
Proof.
  intros (s & score & Hin & Hscore & ->).
  exists s, score.
  destruct (RankerFacts.ranked_copy_fields (section_dict s) score k)
    as (Hrank & Hsc & Hkeep).
  split; [|split; [|split]].
  - unfold Segmenter.extract_sections in Hin.
    apply List.filter_In in Hin. tauto.
  - eapply extracted_page_positive. exact Hin.
  - destruct (ScorerFacts.score_in_unit (section_dict s) persona
                (Segmenter.title s) (Segmenter.content s) eq_refl eq_refl)
      as (score' & E & Hu).
    congruence.
  - rewrite !Hkeep by discriminate.
    repeat split; try reflexivity; assumption.
Qed.

Lemma valid_section_text s :
  Segmenter.is_valid s = true ->
  Segmenter.title s <> []
  /\ Str.is_empty (Str.strip (Segmenter.title s)) = false
  /\ ValidatorFacts.too_short 10 (Segmenter.content s) = false
  /\ Segmenter.content s <> [].
Proof.
  unfold Segmenter.is_valid, ValidatorFacts.too_short.
  rewrite !andb_true_iff, !negb_true_iff. intros [[Ht Hc] Hl].
  apply Nat.ltb_lt in Hl. repeat split.
  - intros E. rewrite E in Ht. discriminate.
  - exact Ht.
  - rewrite Hc. apply Nat.ltb_ge. lia.
  - intros E. rewrite E in Hl. simpl in Hl. lia.
Qed.

Lemma stored_well_formed text persona k d :
  stored text persona k d -> well_formed d.
Proof.
  intros H. apply stored_fields in H
    as (s & score & Hv & Hp & Hu & Ht & Hc & Hpg & Hr & Hs).
  destruct (valid_section_text s Hv) as (Hte & _ & _ & Hce).
  exists (Segmenter.title s), (Segmenter.content s),
    (Segmenter.page_number s), (Z.of_nat k + 1), (Float64.round2 score).
  repeat split; try assumption; try lia.
  apply FloatFacts.round2_in_unit, Hu.
Qed.

(** The only check of the section validator a stored section can fail. *)
Lemma stored_violation text persona k d msg :
  stored text persona k d ->
  ValidatorFacts.violation (S k) d msg <->
  exists title, d !! "title"%string = Some (VStr title)
                /\ List.length title = 1%nat
                /\ msg = Validator.TitleTooShort (S k).
Proof.
  intros H. apply stored_fields in H
    as (s & score & Hv & Hp & Hu & Ht & Hc & Hpg & Hr & Hs).
  destruct (valid_section_text s Hv) as (Hte & Hstrip & Hshort & Hce).
  split.
  - intros V. destruct V as [field Hin Hnone|v Hv' Hint|v Hv' Hnum
                            |v Hv' Hnum Hrange|v Hv' Hpos|t Ht' Hts|c Hc' Hcs].
    + exfalso. simpl in Hin.
      destruct Hin as [<-|[<-|[<-|[<-|[<-|[]]]]]]; congruence.
    + exfalso. rewrite Hr in Hv'. injection Hv' as <-. discriminate.
    + exfalso. rewrite Hs in Hv'. injection Hv' as <-. discriminate.
    + exfalso. rewrite Hs in Hv'. injection Hv' as <-.
      simpl in Hrange.
      pose proof (FloatFacts.round2_in_unit _ Hu) as Hu2.
      unfold FloatFacts.in_unit in Hu2. congruence.
    + exfalso. rewrite Hpg in Hv'. injection Hv' as <-.
      unfold ValidatorFacts.positive_integer in Hpos. simpl in Hpos.
      apply Z.leb_gt in Hpos. lia.
    + rewrite Ht in Ht'. injection Ht' as <-.
      exists (Segmenter.title s). split; [exact Ht|]. split; [|reflexivity].
      unfold ValidatorFacts.too_short in Hts. rewrite Hstrip in Hts.
      simpl in Hts. apply Nat.ltb_lt in Hts.
      destruct (Segmenter.title s) as [|c [|c' t']]; simpl in *;
        [contradiction|reflexivity|lia].
    + exfalso. rewrite Hc in Hc'. injection Hc' as <-. congruence.
  - intros (title & Ht' & Hlen & ->).
    apply (ValidatorFacts.title_too_short _ _ title Ht').
    unfold ValidatorFacts.too_short.
    replace (List.length title <? 2)%nat with true
      by (symmetry; apply Nat.ltb_lt; lia).
    apply orb_true_r.
Qed.

(** *** What a run can warn about *)

Lemma top_validation text persona top :
  (forall k d, top !! k = Some d -> stored text persona k d) ->
  Forall well_formed top
  /\ Forall ValidatorFacts.text_ok top
  /\ ValidatorFacts.rank_set top
     = Validator.expected_ranks (List.length top).
Proof.
  intros H. split; [|split].
  - apply List.Forall_forall. intros d Hd.
    apply list_elem_of_In, list_elem_of_lookup in Hd as [k Hk].
    eapply stored_well_formed. apply (H k d Hk).
  - apply List.Forall_forall. intros d Hd.
    apply list_elem_of_In, list_elem_of_lookup in Hd as [k Hk].
    destruct (H k d Hk) as (s & score & _ & _ & ->).
    apply ranked_copy_text_ok.
  - apply ValidatorFacts.rank_set_counted. intros k d Hk.
    apply H, stored_fields in Hk as (s & score & _ & _ & _ & _ & _ & _ & Hr & _).
    unfold ValidatorFacts.rank_of. rewrite Hr. reflexivity.
Qed.

Lemma section_errors_spec text persona top section_errors :
  (forall k d, top !! k = Some d -> stored text persona k d) ->
  Validator.validate_sections top = Ok section_errors ->
  forall msg,
    In msg section_errors <->
    exists k d title,
      top !! k = Some d
      /\ d !! "title"%string = Some (VStr title)
      /\ List.length title = 1%nat
      /\ msg = Validator.TitleTooShort (S k).
Proof.
  intros Hstored Esec msg.
  destruct (top_validation text persona top Hstored) as (_ & Hok & Hranks).
  destruct (ValidatorFacts.validate_sections_spec top Hok)
    as (errors & E & Hmsgs).
  assert (errors = section_errors) by congruence. subst errors.
  rewrite Hmsgs. split.
  - intros [(k & d & Hk & V)|[_ Hne]].
    + apply (stored_violation text persona k d msg (Hstored k d Hk)) in V
        as (title & Ht & Hlen & ->).
      exists k, d, title. auto.
    + exfalso. apply Hne. symmetry. exact Hranks.
  - intros (k & d & title & Hk & Ht & Hlen & ->). left.
    exists k, d. split; [exact Hk|].
    apply (stored_violation text persona k d _ (Hstored k d Hk)).
    exists title. auto.
Qed.

Lemma json_errors_spec best_match r top json_errors :
  0 <= total_sections r ->
  Forall well_formed top ->
  JsonSchema.validate_json_structure best_match (record_json r top)
  = Ok json_errors ->
  json_errors
  = if in_enum (persona r) then []
    else [Validator.JsonSchemaValidationError
            (best_match (mk_schema_error [InProperty "persona"] KwEnum) [])].
Proof.
  intros Hn Htop.
  unfold JsonSchema.validate_json_structure, JsonSchema.validate.
  rewrite (record_errors r top Hn Htop).
  destruct (in_enum (persona r)); intros [= <-]; reflexivity.
Qed.

(** For one of the four personas, a document with text always gives a
    record that conforms to the schema, and the one warning a run can
    print is that a title is too short: it is printed for exactly the
    stored sections whose title is a single character (a header such as
    [A:]), which the segmenter lets through and the section validator
    refuses. *)
Theorem process_document_warnings
    (best_match : schema_error -> list schema_error -> schema_error)
    (name text now : str) (persona : string) (h : heap) :
  text <> [] ->
  In persona ScorerFacts.known_personas ->
  exists record warnings ranked_heap top,
    process_document best_match name text now persona h
    = Ok (ResultRecord record warnings, ranked_heap)
    /\ Forall2 (fun r d => ranked_heap !! r = Some d) (sections record) top
    /\ JsonSchema.iter_errors JsonSchema.json_schema []
         (record_json record top) = []
    /\ forall msg,
         In msg warnings <->
         exists k d title,
           top !! k = Some d
           /\ d !! "title"%string = Some (VStr title)
           /\ List.length title = 1%nat
           /\ msg = Validator.TitleTooShort (S k).
Proof.
  intros Htext Hknown.
  destruct (process_document_top best_match name text now persona h Htext)
    as (out & hr & top & section_errors & json_errors
        & Erun & Htop & Hstored & Esec & Ejson & _).
  destruct (top_validation text persona top Hstored) as (Hwf & _ & _).
  set (record := record_of name now persona
                   (List.length (Segmenter.extract_sections text)) out) in *.
  assert (Hn : 0 <= total_sections record) by (simpl; lia).
  pose proof (json_errors_spec best_match record top json_errors Hn Hwf Ejson)
    as Hjson.
  pose proof (record_errors record top Hn Hwf) as Hrec.
  assert (Henum : in_enum (Pipeline.persona record) = true)
    by (apply in_enum_known; exact Hknown).
  rewrite Henum in Hjson, Hrec. subst json_errors.
  exists record, (section_errors ++ []), hr, top.
  split; [exact Erun|]. split; [exact Htop|]. split; [exact Hrec|].
  intros msg. rewrite app_nil_r.
  apply (section_errors_spec text persona top section_errors Hstored Esec).
Qed.

(** A document whose only header is a single letter. *)
Definition lettered_document : str :=
  lit "A:" ++ [Chars.newline]
  ++ lit "The strategy for growth in this market." ++ [Chars.newline].

(** Witness: the one section of the document is titled [A]. *)
Lemma process_document_warnings_witness :
  exists record warnings ranked_heap,
    process_document (fun e _ => e) (lit "report.pdf") lettered_document
      (lit "2024-05-01T10:00:00") "executive" []
    = Ok (ResultRecord record warnings, ranked_heap)
    /\ forall msg, In msg warnings -> exists k, msg = Validator.TitleTooShort k.
Proof.
  destruct (process_document_warnings (fun e _ => e) (lit "report.pdf")
              lettered_document (lit "2024-05-01T10:00:00") "executive" [])
    as (record & warnings & hr & top & E & _ & _ & H).
  - discriminate.
  - simpl. tauto.
  - exists record, warnings, hr. split; [exact E|].
    intros msg Hmsg. apply H in Hmsg as (k & _ & _ & _ & _ & _ & ->).
    exists (S k). reflexivity.
Defined.

(** For a persona that is not one of the four, the record of a document
    with text violates the schema in exactly one place, the [enum] of the
    persona, and that is the one schema message of the run; it comes
    behind the messages of the section validator. *)
Theorem process_document_unknown_persona
    (best_match : schema_error -> list schema_error -> schema_error)
    (name text now : str) (persona : string) (h : heap) :
  text <> [] ->
  ~ In persona ScorerFacts.known_personas ->
  exists record section_errors ranked_heap top,
    process_document best_match name text now persona h
    = Ok (ResultRecord record
            (section_errors
             ++ [Validator.JsonSchemaValidationError
                   (best_match
                      (mk_schema_error [InProperty "persona"] KwEnum) [])]),
          ranked_heap)
    /\ Forall2 (fun r d => ranked_heap !! r = Some d) (sections record) top
    /\ Validator.validate_sections top = Ok section_errors
    /\ JsonSchema.iter_errors JsonSchema.json_schema []
         (record_json record top)
       = [mk_schema_error [InProperty "persona"] KwEnum].
Proof.
  intros Htext Hunknown.
  destruct (process_document_top best_match name text now persona h Htext)
    as (out & hr & top & section_errors & json_errors
        & Erun & Htop & Hstored & Esec & Ejson & _).
  destruct (top_validation text persona top Hstored) as (Hwf & _ & _).
  set (record := record_of name now persona
                   (List.length (Segmenter.extract_sections text)) out) in *.
  assert (Hn : 0 <= total_sections record) by (simpl; lia).
  pose proof (json_errors_spec best_match record top json_errors Hn Hwf Ejson)
    as Hjson.
  pose proof (record_errors record top Hn Hwf) as Hrec.
  assert (Henum : in_enum (Pipeline.persona record) = false).
  { apply not_true_iff_false. intros H. apply Hunknown.
    apply in_enum_known. exact H. }
  rewrite Henum in Hjson, Hrec. subst json_errors.
  exists record, section_errors, hr, top. auto.
Qed.

(** Witness: the same document for a persona that is not configured. *)
Lemma process_document_unknown_persona_witness :
  exists record warnings ranked_heap,
    process_document (fun e _ => e) (lit "report.pdf") lettered_document
      (lit "2024-05-01T10:00:00") "auditor" []
    = Ok (ResultRecord record warnings, ranked_heap)
    /\ In (Validator.JsonSchemaValidationError
             (mk_schema_error [InProperty "persona"] KwEnum)) warnings.
Proof.
  destruct (process_document_unknown_persona (fun e _ => e) (lit "report.pdf")
              lettered_document (lit "2024-05-01T10:00:00") "auditor" [])
    as (record & errors & hr & top & E & _).
  - discriminate.
  - simpl. intros [H|[H|[H|[H|[]]]]]; discriminate.
  - eexists record, _, hr. split; [exact E|].
    apply in_or_app. right. left. reflexivity.
Defined.

End RecordFacts.

(** ** Properties of the reader and of the batch run *)

Module FilesFacts.
Import Pipeline PipelineFacts Files.

(** *** The reader *)

Definition is_some {A : Type} (o : option A) : bool :=
  match o with Some _ => true | None => false end.

(** The file opens, has a page, and every page gives its text. *)
Definition readable (file : pdf) : bool :=
  match file with
  | Some pages => negb (Nat.eqb (List.length pages) 0) && forallb is_some pages
  | None => false
  end.

Definition page_text (p : page) : str :=
  match p with Some t => t ++ [Chars.newline] | None => [] end.

Lemma read_pages_spec pages : forall text,
  read_pages pages text
  = if forallb is_some pages
    then Some (text ++ List.concat (List.map page_text pages))
    else None.
Proof.
  induction pages as [|p pages IH]; intros text.
  - simpl. rewrite app_nil_r. reflexivity.
  - destruct p as [t|]; [|reflexivity].
    simpl. rewrite IH. destruct (forallb is_some pages); [|reflexivity].
    rewrite <- !app_assoc. reflexivity.
Qed.

Lemma extract_text_readable file :
  readable file = true ->
  exists pages,
    file = Some pages
    /\ extract_text_from_pdf file = List.concat (List.map page_text pages)
    /\ extract_text_from_pdf file <> [].
Proof.
  destruct file as [pages|]; [|discriminate]. simpl.
  rewrite andb_true_iff. intros [Hne Hall].
  exists pages. rewrite read_pages_spec, Hall. simpl.
  split; [reflexivity|]. split; [reflexivity|].
  destruct pages as [|[t|] pages]; try discriminate.
  simpl. destruct t; discriminate.
Qed.

Lemma extract_text_unreadable file :
  readable file = false -> extract_text_from_pdf file = [].
Proof.
  destruct file as [pages|]; [|reflexivity]. simpl.
  rewrite read_pages_spec. rewrite andb_false_iff. intros [H|H].
  - apply negb_false_iff, Nat.eqb_eq in H.
    destruct pages; [|discriminate]. reflexivity.
  - rewrite H. reflexivity.
Qed.

(** The error result is kept for the file that gives no text at all: one
    that cannot be opened, has no page, or has a page whose text cannot be
    extracted.  Every other file gives a result record, and the call never
    raises: since each page adds a line feed, the text of a readable file is
    not empty even when no page holds any text. *)
Theorem process_document_error_result
    (best_match : schema_error -> list schema_error -> schema_error)
    (pdf_path : pdf_file) (now : str) (persona : string) (h : heap) :
  (readable (contents pdf_path) = false ->
   process_document best_match pdf_path now persona h
   = Ok (ErrorResult (name pdf_path), h))
  /\ (readable (contents pdf_path) = true ->
      exists record warnings h',
        process_document best_match pdf_path now persona h
        = Ok (ResultRecord record warnings, h')
        /\ document record = name pdf_path).
Proof.
  unfold process_document. split.
  - intros H. rewrite (extract_text_unreadable _ H). reflexivity.
  - intros H. destruct (extract_text_readable _ H) as (pages & _ & _ & Hne).
    destruct (process_document_run best_match (name pdf_path) _ now persona h
                Hne)
      as (out & hr & top & section_errors & json_errors
          & _ & _ & _ & _ & _ & _ & Erun).
    eexists _, _, _. split; [exact Erun|]. reflexivity.
Qed.

(** *** A file without text *)

Lemma concat_blank (pages : list page) :
  Forall (fun p => exists t, p = Some t /\ forallb Chars.is_space t = true)
         pages ->
  forallb is_some pages = true
  /\ forallb Chars.is_space (List.concat (List.map page_text pages)) = true.
Proof.
  induction 1 as [|p pages (t & -> & Ht) _ [IH1 IH2]]; [split; reflexivity|].
  split; [exact IH1|].
  simpl. rewrite <- app_assoc, !forallb_app, Ht, IH2. reflexivity.
Qed.

Lemma validate_no_sections : Validator.validate_sections [] = Ok [].
Proof. vm_compute. reflexivity. Qed.

(** A file whose pages hold no text, only whitespace or nothing (a scan,
    say), is not an error: for one of the four personas the run gives a
    record with [total_sections] 0 and no sections, prints no warning, and
    allocates nothing. *)
Theorem process_document_without_text
    (best_match : schema_error -> list schema_error -> schema_error)
    (pdf_path : pdf_file) (pages : list page) (now : str) (persona : string)
    (h : heap) :
  contents pdf_path = Some pages ->
  pages <> [] ->
  Forall (fun p => exists t, p = Some t /\ forallb Chars.is_space t = true)
         pages ->
  In persona ScorerFacts.known_personas ->
  process_document best_match pdf_path now persona h
  = Ok (ResultRecord
          (record_of (name pdf_path) now persona 0 []) [], h).
Proof.
  intros Hc Hne Hblank Hknown.
  destruct (concat_blank pages Hblank) as [Hall Hspace].
  assert (Hr : readable (contents pdf_path) = true).
  { rewrite Hc. simpl. rewrite Hall. destruct pages; [contradiction|reflexivity]. }
  destruct (extract_text_readable _ Hr) as (pages' & Hc' & Etext & Htext).
  assert (pages' = pages) by congruence. subst pages'.
  unfold process_document, Pipeline.process_document.
  rewrite Etext in *.
  destruct (List.concat (List.map page_text pages)) as [|c text] eqn:E;
    [contradiction|].
  cbn [Str.is_empty].
  assert (Hnone : Segmenter.extract_sections (c :: text) = []).
  { unfold Segmenter.extract_sections, Segmenter.candidate_sections,
      Str.split_lines.
    rewrite SegmenterShape.scan_lines_blank
      by (apply SegmenterShape.split_lines_from_blank;
          [reflexivity|exact Hspace]).
    reflexivity. }
  rewrite Hnone.
  cbn [List.map alloc_all List.length].
  change (Ranker.prioritize_sections [] persona h) with (@Ok (list ref * heap) ([], h)).
  cbn [mbind result_bind take read_all]. rewrite validate_no_sections.
  cbn [mbind result_bind].
  assert (Hj : JsonSchema.validate_json_structure best_match
                 (record_json (record_of (name pdf_path) now persona 0 []) [])
               = Ok []).
  { destruct (ValidatorFacts.validate_json_structure_spec best_match
                (record_json (record_of (name pdf_path) now persona 0 []) []))
      as (errors & Ej & _ & Hiff).
    rewrite Ej. f_equal. apply Hiff.
    rewrite RecordFacts.record_errors; [|simpl; lia|constructor].
    unfold record_of. cbn [Pipeline.persona].
    rewrite (proj2 (RecordFacts.in_enum_known persona) Hknown). reflexivity. }
  match goal with
  | |- ?run ≫= _ = _ =>
      replace run with (@Ok (list Validator.message) []);
        try (symmetry; exact Hj)
  end.
  reflexivity.
Qed.

(** Witness: a file of two pages, one empty and one of spaces. *)
Lemma process_document_without_text_witness :
  process_document (fun e _ => e)
    (mk_pdf_file (lit "scan.pdf") (Some [Some []; Some (lit "  ")]))
    (lit "2024-05-01T10:00:00") "investor" []
  = Ok (ResultRecord
          (record_of (lit "scan.pdf") (lit "2024-05-01T10:00:00") "investor"
             0 []) [], []).
Proof.
  apply (process_document_without_text (fun e _ => e)
           (mk_pdf_file (lit "scan.pdf") (Some [Some []; Some (lit "  ")]))
           [Some []; Some (lit "  ")]).
  - reflexivity.
  - discriminate.
  - repeat constructor; eexists; split; reflexivity.
  - simpl. tauto.
Defined.

(** *** The batch run *)

(** Every object of [h] is still there in [h'], unchanged. *)
Definition extends (h h' : heap) : Prop :=
  forall r d, h !! r = Some d -> h' !! r = Some d.

Lemma read_all_extends h h' rs : forall ds,
  read_all h rs = Ok ds -> extends h h' -> read_all h' rs = Ok ds.
Proof.
  induction rs as [|r rs IH]; intros ds H Hext; [exact H|].
  simpl in H. apply RankerFacts.bind_ok in H as (d & Hd & H).
  apply RankerFacts.bind_ok in H as (ds' & Hds & H). injection H as <-.
  apply RankerFacts.read_ok in Hd. simpl. unfold Heap.read.
  rewrite (Hext _ _ Hd). simpl. rewrite (IH ds' Hds Hext). reflexivity.
Qed.

Lemma dump_extends h h' o j :
  dump h o = Ok j -> extends h h' -> dump h' o = Ok j.
Proof.
  destruct o as [n|r w]; intros H Hext; [exact H|].
  simpl in H. apply RankerFacts.bind_ok in H as (ds & Hds & H).
  simpl. rewrite (read_all_extends _ _ _ _ Hds Hext). exact H.
Qed.

Lemma dump_all_extends h h' os : forall js,
  dump_all h os = Ok js -> extends h h' -> dump_all h' os = Ok js.
Proof.
  induction os as [|o os IH]; intros js H Hext; [exact H|].
  simpl in H. apply RankerFacts.bind_ok in H as (j & Hj & H).
  apply RankerFacts.bind_ok in H as (js' & Hjs & H). injection H as <-.
  simpl. rewrite (dump_extends _ _ _ _ Hj Hext). simpl.
  rewrite (IH js' Hjs Hext). reflexivity.
Qed.

Lemma dump_all_snoc h os o js j :
  dump_all h os = Ok js -> dump h o = Ok j ->
  dump_all h (os ++ [o]) = Ok (js ++ [j]).
Proof.
  revert js. induction os as [|o' os IH]; intros js H Hj.
  - injection H as <-. simpl. rewrite Hj. reflexivity.
  - simpl in H. apply RankerFacts.bind_ok in H as (j' & Hj' & H).
    apply RankerFacts.bind_ok in H as (js' & Hjs & H). injection H as <-.
    simpl. rewrite Hj'. simpl. rewrite (IH js' Hjs Hj). reflexivity.
Qed.

Lemma dump_all_each h os : forall js,
  dump_all h os = Ok js -> Forall2 (fun o j => dump h o = Ok j) os js.
Proof.
  induction os as [|o os IH]; intros js H.
  - injection H as <-. constructor.
  - simpl in H. apply RankerFacts.bind_ok in H as (j & Hj & H).
    apply RankerFacts.bind_ok in H as (js' & Hjs & H). injection H as <-.
    constructor; [exact Hj|apply IH, Hjs].
Qed.

Lemma read_all_lookups h rs ds :
  Forall2 (fun r d => h !! r = Some d) rs ds -> read_all h rs = Ok ds.
Proof.
  induction 1 as [|r d rs ds Hd _ IH]; [reflexivity|].
  simpl. unfold Heap.read. rewrite Hd. simpl. rewrite IH. reflexivity.
Qed.

(** The result is the one of its file. *)
Definition result_of (f : pdf_file) (o : outcome) : Prop :=
  match o with
  | ErrorResult n => n = name f /\ readable (contents f) = false
  | ResultRecord r _ => document r = name f /\ readable (contents f) = true
  end.

Lemma process_document_dump
    (best_match : schema_error -> list schema_error -> schema_error)
    (f : pdf_file) (now : str) (persona : string) (h : heap) :
  exists o h' j,
    process_document best_match f now persona h = Ok (o, h')
    /\ extends h h' /\ dump h' o = Ok j /\ result_of f o.
Proof.
  unfold process_document.
  destruct (readable (contents f)) eqn:Hr.
  - destruct (extract_text_readable _ Hr) as (pages & _ & _ & Hne).
    destruct (RecordFacts.process_document_top best_match (name f) _ now
                persona h Hne)
      as (out & hr & top & section_errors & json_errors
          & Erun & Htop & _ & _ & _ & Hframe).
    eexists _, hr, _. split; [exact Erun|]. split; [exact Hframe|].
    split.
    + simpl. rewrite (read_all_lookups _ _ _ Htop). reflexivity.
    + simpl. rewrite Hr. split; reflexivity.
  - rewrite (extract_text_unreadable _ Hr).
    exists (ErrorResult (name f)), h, (error_json (name f)).
    split; [reflexivity|]. split; [intros r d Hd; exact Hd|].
    split; [reflexivity|]. simpl. rewrite Hr. split; reflexivity.
Qed.

Definition output_files (pdf_files : list pdf_file) (persona : string)
    : list str :=
  List.map (fun f => output_file f persona) pdf_files.

(** The writes the system refuses nothing of. *)
Definition all_writable (can_write : written -> str -> json -> bool) : Prop :=
  forall files path j, can_write files path j = true.

(** What a run of the loop from [results], [h] and [files] comes to: it
    is done, with one more result and one more file per input, or a write
    to one of the output files was refused. *)
Definition loop_outcome (can_write : written -> str -> json -> bool)
    (pdf_files : list pdf_file) (persona : string)
    (results : list outcome) (h : heap) (files : written) (js : list json)
    (run : batch (list outcome * heap * written)) : Prop :=
  match run with
  | Done (all_results, h', all_files) =>
      exists rs dumps,
        all_results = results ++ rs
        /\ all_files = files ++ combine (output_files pdf_files persona) dumps
        /\ Forall2 result_of pdf_files rs
        /\ List.length dumps = List.length pdf_files
        /\ extends h h'
        /\ dump_all h' (results ++ rs) = Ok (js ++ dumps)
  | Abort (OSError path) =>
      In path (output_files pdf_files persona)
      /\ exists before j, can_write before path j = false
  | Abort (Raised _) => False
  end.

Lemma documents_loop_spec
    (best_match : schema_error -> list schema_error -> schema_error)
    (clock : nat -> str) (can_write : written -> str -> json -> bool)
    (persona : string) (pdf_files : list pdf_file) :
  forall i results h files js,
    dump_all h results = Ok js ->
    loop_outcome can_write pdf_files persona results h files js
      (documents_loop best_match clock can_write i pdf_files persona
         results h files).
Proof.
  induction pdf_files as [|f rest IH]; intros i results h files js Hjs.
  - simpl. exists [], []. simpl. rewrite !app_nil_r.
    repeat split; try assumption; try constructor.
    intros r d Hd. exact Hd.
  - destruct (process_document_dump best_match f (clock i) persona h)
      as (o & h1 & j & Erun & Hext & Hj & Ho).
    pose proof (dump_all_snoc _ _ _ _ _
                  (dump_all_extends _ _ _ _ Hjs Hext) Hj) as Hjs1.
    cbn [documents_loop]. rewrite Erun, Hj. unfold write.
    destruct (can_write files (output_file f persona) j) eqn:Ew.
    + specialize (IH (S i) (results ++ [o]) h1
                    (files ++ [(output_file f persona, j)]) (js ++ [j]) Hjs1).
      destruct (documents_loop best_match clock can_write (S i) rest persona
                  (results ++ [o]) h1 (files ++ [(output_file f persona, j)]))
        as [[[all_results h'] all_files]|[e|path]]; simpl in IH |- *.
      * destruct IH as (rs & dumps & -> & -> & Hrs & Hlen & Hext' & Hdumps).
        exists (o :: rs), (j :: dumps).
        rewrite <- !app_assoc in *. simpl.
        repeat split; try assumption.
        -- constructor; assumption.
        -- rewrite Hlen. reflexivity.
        -- intros r d Hd. apply Hext', Hext, Hd.
      * exact IH.
      * destruct IH as [Hin Hrefused]. split; [right; exact Hin|exact Hrefused].
    + simpl. split; [left; reflexivity|]. eauto.
Qed.

(** A whole run: done, or ended by a refused write. *)
Lemma process_all_documents_run
    (best_match : schema_error -> list schema_error -> schema_error)
    (clock : nat -> str) (can_write : written -> str -> json -> bool)
    (pdf_files : list pdf_file) (persona : string) (h : heap) :
  pdf_files <> [] ->
  match process_all_documents best_match clock can_write pdf_files persona h
  with
  | Done (results, h', files) =>
      exists dumps,
        files = combine (output_files pdf_files persona) dumps
                ++ [(combined_output persona, JArr dumps)]
        /\ Forall2 result_of pdf_files results
        /\ List.length dumps = List.length pdf_files
        /\ Forall2 (fun o j => dump h' o = Ok j) results dumps
  | Abort (OSError path) =>
      (In path (output_files pdf_files persona)
       \/ path = combined_output persona)
      /\ exists before j, can_write before path j = false
  | Abort (Raised _) => False
  end.
Proof.
  intros Hne.
  pose proof (documents_loop_spec best_match clock can_write persona pdf_files
                0 [] h [] [] eq_refl) as Hloop.
  unfold process_all_documents. destruct pdf_files as [|f rest];
    [contradiction|].
  destruct (documents_loop best_match clock can_write 0 (f :: rest) persona
              [] h []) as [[[results h'] files]|[e|path]]; simpl in Hloop.
  - destruct Hloop as (rs & dumps & -> & -> & Hrs & Hlen & _ & Hdumps).
    simpl in Hdumps |- *. rewrite Hdumps. unfold write.
    destruct (can_write _ (combined_output persona) (JArr dumps)) eqn:Ew.
    + exists dumps. repeat split; try assumption.
      apply dump_all_each, Hdumps.
    + split; [right; reflexivity|]. eauto.
  - exact Hloop.
  - destruct Hloop as [Hin Hrefused]. split; [left; exact Hin|exact Hrefused].
Qed.

Lemma process_all_documents_done
    (best_match : schema_error -> list schema_error -> schema_error)
    (clock : nat -> str) (can_write : written -> str -> json -> bool)
    (pdf_files : list pdf_file) (persona : string) (h : heap) :
  all_writable can_write ->
  exists results h' files,
    process_all_documents best_match clock can_write pdf_files persona h
    = Done (results, h', files).
Proof.
  intros Hall. destruct pdf_files as [|f rest]; [eexists _, _, _; reflexivity|].
  pose proof (process_all_documents_run best_match clock can_write (f :: rest)
                persona h ltac:(discriminate)) as H.
  destruct (process_all_documents best_match clock can_write (f :: rest)
              persona h) as [[[results h'] files]|[e|path]].
  - eexists _, _, _. reflexivity.
  - contradiction.
  - destruct H as (_ & before & j & Hrefused).
    rewrite Hall in Hrefused. discriminate.
Qed.

Lemma rfind_dot_pdf (base : str) :
  rfind_dot (base ++ lit ".pdf") = Some (List.length base).
Proof.
  induction base as [|c base IH]; [reflexivity|].
  cbn [app rfind_dot List.length]. rewrite IH. reflexivity.
Qed.

(** The stem of [base.pdf] is [base]. *)
Lemma stem_pdf (base : str) :
  base <> [] -> stem (base ++ lit ".pdf") = base.
Proof.
  intros Hne. unfold stem. rewrite rfind_dot_pdf, length_app.
  assert (Hlen : (0 < List.length base)%nat)
    by (destruct base; [contradiction|simpl; lia]).
  replace (0 <? List.length base)%nat with true
    by (symmetry; apply Nat.ltb_lt; exact Hlen).
  replace (List.length base <? List.length base + List.length (lit ".pdf") - 1)%nat
    with true by (symmetry; apply Nat.ltb_lt; simpl; lia).
  simpl andb. cbv iota. apply take_app_length.
Qed.

(** The one exception the batch run can raise is the [OSError] of a write
    the system refuses, for one of its output files; the pipeline itself
    raises nothing, and when every write is accepted the run returns.
    Without input files it returns at once and writes nothing.  A run that
    returns gives one result per file, in the order of the files, each the
    result of its file, and has written one file per input file, named
    after the stem of the input and the persona, and then the combined
    file, which holds the array of exactly the values written to the
    single files, in their order. *)
Theorem process_all_documents_outputs
    (best_match : schema_error -> list schema_error -> schema_error)
    (clock : nat -> str) (can_write : written -> str -> json -> bool)
    (pdf_files : list pdf_file) (persona : string) (h : heap) :
  match process_all_documents best_match clock can_write pdf_files persona h
  with
  | Done (results, h', files) =>
      Forall2 result_of pdf_files results
      /\ (pdf_files = [] -> files = [] /\ h' = h)
      /\ (pdf_files <> [] ->
          exists dumps,
            List.length dumps = List.length pdf_files
            /\ Forall2 (fun o j => dump h' o = Ok j) results dumps
            /\ files
               = combine (output_files pdf_files persona) dumps
                 ++ [(combined_output persona, JArr dumps)])
  | Abort (OSError path) =>
      pdf_files <> []
      /\ (In path (output_files pdf_files persona)
          \/ path = combined_output persona)
      /\ exists before j, can_write before path j = false
  | Abort (Raised _) => False
  end
  /\ (pdf_files = [] ->
      process_all_documents best_match clock can_write pdf_files persona h
      = Done ([], h, []))
  /\ (all_writable can_write ->
      exists results h' files,
        process_all_documents best_match clock can_write pdf_files persona h
        = Done (results, h', files))
  /\ (forall f base,
        In f pdf_files -> name f = base ++ lit ".pdf" -> base <> [] ->
        output_file f persona
        = base ++ lit "_" ++ lit persona ++ lit "_prioritized.json").
Proof.
  split; [|split; [|split]].
  - destruct pdf_files as [|f rest].
    + simpl. split; [constructor|]. split; [auto|]. intros H. contradiction.
    + pose proof (process_all_documents_run best_match clock can_write
                    (f :: rest) persona h ltac:(discriminate)) as H.
      destruct (process_all_documents best_match clock can_write (f :: rest)
                  persona h) as [[[results h'] files]|[e|path]].
      * destruct H as (dumps & -> & Hrs & Hlen & Hd).
        split; [exact Hrs|]. split; [discriminate|].
        intros _. exists dumps. auto.
      * exact H.
      * split; [discriminate|exact H].
  - intros ->. reflexivity.
  - apply process_all_documents_done.
  - intros f base _ Hname Hbase. unfold output_file.
    rewrite Hname, (stem_pdf base Hbase). reflexivity.
Qed.

(** *** What the files hold in the end *)

Lemma file_content_last (files : written) (path : str) (j : json) :
  file_content (files ++ [(path, j)]) path = Some j.
Proof.
  induction files as [|[p j'] files IH]; simpl.
  - rewrite bool_decide_eq_true_2 by reflexivity. reflexivity.
  - rewrite IH. reflexivity.
Qed.

Lemma file_content_written (files : written) : forall i path j,
  files !! i = Some (path, j) ->
  (forall k q j', (i < k)%nat -> files !! k = Some (q, j') -> q <> path) ->
  file_content files path = Some j.
Proof.
  induction files as [|[p j0] files IH]; intros i path j Hi Hlater;
    [discriminate|].
  destruct i as [|i].
  - simpl in Hi. injection Hi as -> ->. simpl.
    assert (Hnone : file_content files path = None).
    { assert (H : forall k q j', files !! k = Some (q, j') -> q <> path).
      { intros k q j' Hk. apply (Hlater (S k) q j'); [lia|exact Hk]. }
      clear -H. induction files as [|[q j'] files IH]; [reflexivity|].
      simpl. rewrite IH.
      - rewrite bool_decide_eq_false_2; [reflexivity|].
        apply (H 0%nat q j' eq_refl).
      - intros k q' j'' Hk. apply (H (S k) q' j'' Hk). }
    rewrite Hnone, bool_decide_eq_true_2 by reflexivity. reflexivity.
  - simpl in Hi. simpl. rewrite (IH i path j Hi); [reflexivity|].
    intros k q j' Hk Hq. apply (Hlater (S k) q j'); [lia|exact Hq].
Qed.

Lemma combined_output_stem (f : pdf_file) (persona : string) :
  stem (name f) = lit "all_documents" ->
  output_file f persona = combined_output persona.
Proof.
  intros H. unfold output_file, combined_output. rewrite H. reflexivity.
Qed.

(** When the batch run returns (no write was refused), the combined file
    holds the array of all results.  The file of an input holds the
    result of that input, provided no later input and not the combined
    file has the same name; an input whose stem is [all_documents] loses
    its own file to the combined one. *)
Theorem process_all_documents_files
    (best_match : schema_error -> list schema_error -> schema_error)
    (clock : nat -> str) (can_write : written -> str -> json -> bool)
    (pdf_files : list pdf_file) (persona : string) (h h' : heap)
    (results : list outcome) (files : written) :
  pdf_files <> [] ->
  process_all_documents best_match clock can_write pdf_files persona h
  = Done (results, h', files) ->
  exists dumps,
    Forall2 (fun o j => dump h' o = Ok j) results dumps
    /\ List.length dumps = List.length pdf_files
    /\ file_content files (combined_output persona) = Some (JArr dumps)
    /\ (forall f, In f pdf_files -> stem (name f) = lit "all_documents" ->
          file_content files (output_file f persona) = Some (JArr dumps))
    /\ (forall i f j,
          pdf_files !! i = Some f -> dumps !! i = Some j ->
          output_file f persona <> combined_output persona ->
          (forall k g, (i < k)%nat -> pdf_files !! k = Some g ->
                       output_file g persona <> output_file f persona) ->
          file_content files (output_file f persona) = Some j).
Proof.
  intros Hne E.
  pose proof (process_all_documents_run best_match clock can_write pdf_files
                persona h Hne) as H.
  rewrite E in H. destruct H as (dumps & -> & _ & Hlen & Hd).
  exists dumps. split; [exact Hd|].
  split; [exact Hlen|]. split; [apply file_content_last|]. split.
  - intros f _ Hstem. rewrite (combined_output_stem f persona Hstem).
    apply file_content_last.
  - intros i f j Hf Hj Hcomb Hlater.
    apply (file_content_written _ i).
    + apply lookup_app_l_Some.
      apply lookup_zip_with_Some. exists (output_file f persona), j.
      split; [reflexivity|]. split; [|exact Hj].
      unfold output_files. rewrite list_lookup_fmap, Hf. reflexivity.
    + intros k q j' Hik Hk.
      destruct (decide (k < List.length pdf_files)%nat) as [Hlt|Hge].
      * rewrite lookup_app_l in Hk
          by (rewrite List.length_combine; unfold output_files;
              rewrite length_map; lia).
        apply lookup_zip_with_Some in Hk as (q' & j'' & E' & Hq & _).
        injection E' as -> ->.
        unfold output_files in Hq. rewrite list_lookup_fmap in Hq.
        destruct (pdf_files !! k) as [g|] eqn:Eg; [|discriminate].
        injection Hq as <-. apply (Hlater k g Hik Eg).
      * rewrite lookup_app_r in Hk
          by (rewrite List.length_combine; unfold output_files;
              rewrite length_map; lia).
        destruct (k - _)%nat as [|n]; [|destruct n; discriminate].
        simpl in Hk. injection Hk as <- <-. congruence.
Qed.

(** An input directory of two files. *)
Definition sample_files : list pdf_file :=
  [mk_pdf_file (lit "all_documents.pdf")
     (Some [Some RecordFacts.lettered_document]);
   mk_pdf_file (lit "broken.pdf") None].

(** Witness: a directory that holds [all_documents.pdf] and a file that
    cannot be opened, on a system that accepts every write. *)
Lemma process_all_documents_files_witness :
  exists results h' files dumps,
    process_all_documents (fun e _ => e) (fun _ => lit "2024-05-01T10:00:00")
      (fun _ _ _ => true) sample_files "executive" []
    = Done (results, h', files)
    /\ List.length dumps = 2%nat
    /\ file_content files
         (output_file (mk_pdf_file (lit "all_documents.pdf")
                         (Some [Some RecordFacts.lettered_document]))
            "executive")
       = Some (JArr dumps).
Proof.
  destruct (process_all_documents_done (fun e _ => e)
              (fun _ => lit "2024-05-01T10:00:00") (fun _ _ _ => true)
              sample_files "executive" [])
    as (results & h' & files & E); [intros ws p j; reflexivity|].
  destruct (process_all_documents_files (fun e _ => e)
              (fun _ => lit "2024-05-01T10:00:00") (fun _ _ _ => true)
              sample_files "executive" [] h' results files)
    as (dumps & _ & Hlen & _ & Hlost & _).
  - unfold sample_files. discriminate.
  - exact E.
  - exists results, h', files, dumps.
    split; [exact E|]. split; [exact Hlen|].
    apply Hlost; [left; reflexivity|reflexivity].
Defined.

End FilesFacts.

(** ** What the normalizer keeps *)

Module NormalizerKeeps.
Import Normalizer.

(** The characters no pass touches: those of the allow-list that are not
    whitespace and not one of the marks [.], [!] and [?]. *)
Definition kept (c : ascii) : bool :=
  Chars.is_allowed c && negb (Chars.is_space c)
  && negb (Chars.eqb c Chars.dot) && negb (Chars.eqb c Chars.bang)
  && negb (Chars.eqb c Chars.question).

Section Passes.

Variable P : ascii -> bool.
Hypothesis P_not_space : forall c, P c = true -> Chars.is_space c = false.
Hypothesis P_allowed : forall c, P c = true -> Chars.is_allowed c = true.

Lemma P_space c : Chars.is_space c = true -> P c = false.
Proof.
  intros H. destruct (P c) eqn:E; [|reflexivity].
  rewrite (P_not_space c E) in H. discriminate.
Qed.

Lemma filter_sub_ws_runs b s :
  List.filter P (sub_ws_runs b s) = List.filter P s.
Proof.
  revert b. induction s as [|c s IH]; intros b; [reflexivity|].
  simpl. destruct (Chars.is_space c) eqn:E.
  - rewrite (P_space c E). destruct b; simpl; [apply IH|].
    rewrite (P_space Chars.space eq_refl). apply IH.
  - simpl. rewrite IH. reflexivity.
Qed.

Lemma filter_lstrip s : List.filter P (Str.lstrip s) = List.filter P s.
Proof.
  induction s as [|c s IH]; [reflexivity|].
  simpl. destruct (Chars.is_space c) eqn:E; [|reflexivity].
  rewrite (P_space c E). exact IH.
Qed.

Lemma filter_rstrip s : List.filter P (Str.rstrip s) = List.filter P s.
Proof.
  induction s as [|c s IH]; [reflexivity|].
  cbn [Str.rstrip]. destruct (Str.rstrip s) as [|r rs] eqn:Er.
  - simpl in IH. simpl. rewrite <- IH.
    destruct (Chars.is_space c) eqn:E; [rewrite (P_space c E)|]; reflexivity.
  - cbn [List.filter]. rewrite <- IH. reflexivity.
Qed.

Lemma filter_strip s : List.filter P (Str.strip s) = List.filter P s.
Proof. unfold Str.strip. rewrite filter_rstrip. apply filter_lstrip. Qed.

Lemma filter_remove_disallowed s :
  List.filter P (remove_disallowed s) = List.filter P s.
Proof.
  unfold remove_disallowed. induction s as [|c s IH]; [reflexivity|].
  simpl. destruct (Chars.is_allowed c) eqn:E.
  - simpl. rewrite IH. reflexivity.
  - destruct (P c) eqn:Ep; [|exact IH].
    rewrite (P_allowed c Ep) in E. discriminate.
Qed.

Lemma filter_collapse_marks m b s :
  P m = false ->
  List.filter P (collapse_marks m b s) = List.filter P s.
Proof.
  intros Hm. revert b. induction s as [|c s IH]; intros b; [reflexivity|].
  simpl. destruct (Chars.eqb c m) eqn:E.
  - apply CharFacts.eqb_eq in E. subst c. rewrite Hm.
    destruct b; simpl; [apply IH|]. rewrite Hm. apply IH.
  - simpl. rewrite IH. reflexivity.
Qed.

Lemma filter_remove_ws_before_punct s :
  List.filter P (remove_ws_before_punct s) = List.filter P s.
Proof.
  induction s as [|c s IH]; [reflexivity|].
  simpl. destruct (Chars.is_space c) eqn:E; simpl.
  - rewrite (P_space c E). destruct (punct_follows s); simpl;
      [|rewrite (P_space c E)]; exact IH.
  - rewrite IH. reflexivity.
Qed.

Lemma filter_limit_spaces b s :
  List.filter P (limit_spaces b s) = List.filter P s.
Proof.
  revert b. induction s as [|c s IH]; intros b; [reflexivity|].
  cbn [limit_spaces]. destruct (Chars.is_space c) eqn:E.
  - cbn [List.filter]. rewrite (P_space c E). destruct b; [apply IH|].
    destruct s as [|c' s']; [simpl; rewrite (P_space c E); reflexivity|].
    destruct (Chars.is_space c').
    + cbn [List.filter]. rewrite (P_space Chars.space eq_refl). apply IH.
    + cbn [List.filter]. rewrite (P_space c E). apply IH.
  - cbn [List.filter]. rewrite IH. reflexivity.
Qed.

Lemma filter_clean_text text :
  P Chars.dot = false -> P Chars.bang = false -> P Chars.question = false ->
  List.filter P (clean_text text) = List.filter P text.
Proof.
  intros Hd Hb Hq. unfold clean_text.
  destruct (Str.is_empty text) eqn:E; [destruct text; [reflexivity|discriminate]|].
  unfold collapse_all.
  rewrite filter_strip, filter_limit_spaces, filter_remove_ws_before_punct,
    !filter_collapse_marks, filter_remove_disallowed, filter_sub_ws_runs,
    filter_strip by assumption.
  reflexivity.
Qed.

End Passes.

Lemma kept_spec c :
  kept c = true ->
  Chars.is_space c = false /\ Chars.is_allowed c = true.
Proof.
  unfold kept. rewrite !andb_true_iff, !negb_true_iff. tauto.
Qed.

Lemma word_kept c : Chars.is_word c = true -> kept c = true.
Proof.
  destruct c as [[] [] [] [] [] [] [] []]; vm_compute; intros H;
    first [reflexivity|discriminate].
Qed.

(** Cleaning loses no word: the characters of the allow-list other than
    whitespace and the marks [.], [!] and [?] come out exactly as they
    went in, all of them and in their order; so do, among them, the
    letters, digits and underscores. *)
Theorem clean_text_keeps (text : str) :
  List.filter kept (clean_text text) = List.filter kept text
  /\ List.filter Chars.is_word (clean_text text)
     = List.filter Chars.is_word text.
Proof.
  split.
  - apply filter_clean_text; try reflexivity.
    + intros c H. apply kept_spec, H.
    + intros c H. apply kept_spec, H.
  - apply filter_clean_text; try reflexivity.
    + intros c H. apply kept_spec, word_kept, H.
    + intros c H. apply kept_spec, word_kept, H.
Qed.

End NormalizerKeeps.

(** ** More on the section validator *)

Module ValidatorRanks.
Import Validator ValidatorFacts.

(** The integer ranks of the sections that have one, in order. *)
Definition ranks_of (sections : list dict) : list Z :=
  omap rank_of sections.

Lemma rank_set_ranks_of sections :
  rank_set sections = list_to_set (ranks_of sections).
Proof.
  unfold ranks_of. induction sections as [|d rest IH]; [reflexivity|].
  cbn -[rank_of]. destruct (rank_of d) as [z|]; simpl; rewrite IH; reflexivity.
Qed.

Lemma ranks_of_length sections :
  (List.length (ranks_of sections) <= List.length sections)%nat.
Proof.
  unfold ranks_of. induction sections as [|d rest IH]; [simpl; lia|].
  cbn -[rank_of]. destruct (rank_of d); simpl; lia.
Qed.

Lemma ranks_of_all sections :
  List.length (ranks_of sections) = List.length sections ->
  Forall2 (fun d z => rank_of d = Some z) sections (ranks_of sections).
Proof.
  unfold ranks_of. induction sections as [|d rest IH]; intros H;
    [constructor|].
  pose proof (ranks_of_length rest) as Hle. unfold ranks_of in Hle.
  cbn -[rank_of] in *. destruct (rank_of d) as [z|] eqn:E; simpl in *; [|lia].
  constructor; [exact E|]. apply IH. lia.
Qed.

Lemma ranks_of_given sections ranks :
  Forall2 (fun d z => rank_of d = Some z) sections ranks ->
  ranks_of sections = ranks.
Proof.
  unfold ranks_of. induction 1 as [|d z ds zs Hd _ IH]; [reflexivity|].
  cbn -[rank_of]. rewrite Hd, IH. reflexivity.
Qed.

(** A set built from a list has no more elements than the list, and as
    many only when the list repeats nothing. *)
Lemma size_list_to_set_le (l : list Z) :
  (size (list_to_set l : gset Z) <= List.length l)%nat
  /\ (size (list_to_set l : gset Z) = List.length l -> NoDup l).
Proof.
  induction l as [|a l [IH1 IH2]].
  - split; [|constructor].
    change (size (∅ : gset Z) <= 0)%nat. rewrite size_empty. lia.
  - simpl. destruct (decide (a ∈ (list_to_set l : gset Z))) as [Hin|Hout].
    + assert (E : {[a]} ∪ (list_to_set l : gset Z) = list_to_set l)
        by set_solver.
      rewrite E. split; [lia|]. intros H. lia.
    + rewrite size_union by set_solver. rewrite size_singleton.
      split; [lia|]. intros H. constructor.
      * intros Ha. apply Hout. apply elem_of_list_to_set. exact Ha.
      * apply IH2. lia.
Qed.

Definition one_to (n : nat) : list Z := List.map Z.of_nat (seq 1 n).

Lemma one_to_nodup n : NoDup (one_to n).
Proof.
  unfold one_to. apply NoDup_fmap_2; [|apply NoDup_seq].
  intros a b H. lia.
Qed.

(** The check of the ranks compares sets, so it sees neither the order
    of the ranks nor which section has which; but among N sections it
    passes only when every section has an integer rank and the ranks are
    the numbers 1..N, each exactly once: the message about the ranks is
    absent exactly when the ranks are a permutation of 1..N. *)
Theorem validate_sections_ranks_permutation
    (sections : list dict) (errors : list message) :
  Forall text_ok sections ->
  validate_sections sections = Ok errors ->
  (~ In RanksNotSequential errors <->
   exists ranks,
     Forall2 (fun d z => rank_of d = Some z) sections ranks
     /\ Permutation ranks (one_to (List.length sections))).
Proof.
  intros Hok E.
  destruct (validate_sections_spec sections Hok) as (errors' & E' & Hmsgs).
  assert (errors' = errors) by congruence. subst errors'.
  assert (Hseq : In RanksNotSequential errors <->
                 expected_ranks (List.length sections) <> rank_set sections).
  { rewrite Hmsgs. split.
    - intros [(k & d & _ & V)|[_ H]]; [inversion V|exact H].
    - intros H. right. split; [reflexivity|exact H]. }
  rewrite Hseq. rewrite rank_set_ranks_of.
  change (expected_ranks (List.length sections))
    with (list_to_set (one_to (List.length sections)) : gset Z).
  split.
  - intros Hnn.
    assert (Heq : (list_to_set (one_to (List.length sections)) : gset Z)
                  = list_to_set (ranks_of sections)).
    { destruct (decide ((list_to_set (one_to (List.length sections)) : gset Z)
                        = list_to_set (ranks_of sections))) as [H|H];
        [exact H|contradiction]. }
    pose proof (size_list_to_set (C := gset Z)
                  (one_to (List.length sections)) (one_to_nodup _)) as Hsize.
    unfold one_to in Hsize at 2. rewrite length_map, length_seq in Hsize.
    rewrite Heq in Hsize.
    destruct (size_list_to_set_le (ranks_of sections)) as [Hle Hnd].
    pose proof (ranks_of_length sections) as Hlen.
    exists (ranks_of sections). split.
    + apply ranks_of_all. lia.
    + apply NoDup_Permutation; [apply Hnd; lia|apply one_to_nodup|].
      intros z. rewrite <- (elem_of_list_to_set (C := gset Z) z (ranks_of _)),
        <- (elem_of_list_to_set (C := gset Z) z (one_to _)), Heq.
      reflexivity.
  - intros (ranks & Hall & Hperm) Hne. apply Hne.
    rewrite (ranks_of_given _ _ Hall).
    apply set_eq. intros z. rewrite !elem_of_list_to_set.
    rewrite Hperm. reflexivity.
Qed.

(** Two sections whose ranks are swapped. *)
Definition swapped : list dict :=
  [<["importance_rank" := VInt 2]> short_section;
   <["importance_rank" := VInt 1]> short_section].

Lemma swapped_text_ok : Forall text_ok swapped.
Proof.
  repeat constructor; intros v Hv; vm_compute in Hv;
    injection Hv as <-; eexists; reflexivity.
Qed.

(** Witness: ranks 2 and 1, in this order, pass the check. *)
Lemma validate_sections_ranks_permutation_witness :
  exists errors,
    validate_sections swapped = Ok errors /\ ~ In RanksNotSequential errors.
Proof.
  destruct (validate_sections_spec swapped swapped_text_ok)
    as (errors & E & _).
  exists errors. split; [exact E|].
  apply (proj2 (validate_sections_ranks_permutation swapped errors
                  swapped_text_ok E)).
  exists [2; 1]. split.
  - repeat constructor.
  - apply perm_swap.
Defined.

End ValidatorRanks.

(** ** The definitions on concrete inputs *)

Module Examples.

(** [" a b  ".strip()], ["aaaaa".count("aa")] and ["ab\n\nc".split("\n")]. *)
Example strip_spaces : Str.strip (lit "  a b  ") = lit "a b".
Proof. reflexivity. Qed.

Example count_without_overlap : Str.count (lit "aa") (lit "aaaaa") = 2%nat.
Proof. reflexivity. Qed.

Example split_keeps_empty_lines :
  Str.split_lines (lit "ab" ++ [Chars.newline; Chars.newline] ++ lit "c")
  = [lit "ab"; []; lit "c"].
Proof. reflexivity. Qed.

Example rstrip_all_colons : Str.rstrip_colons (lit "Scope:::") = lit "Scope".
Proof. reflexivity. Qed.

Example isupper_ignores_digits : Str.isupper (lit "PART 2") = true.
Proof. reflexivity. Qed.

(** Each substitution of the normalizer at work. *)
Example clean_text_sample :
  Normalizer.clean_text
    (lit "  Hello   world  !!  How @@ are   you ?? ok...  ")
  = lit "Hello world! How are you? ok.".
Proof. vm_compute. reflexivity. Qed.

(** The four header shapes, and a line that is none of them. *)
Example header_upper_case : Segmenter.is_header (lit "OVERVIEW") = true.
Proof. reflexivity. Qed.

Example header_numbered : Segmenter.is_header (lit "12. Next steps") = true.
Proof. reflexivity. Qed.

Example header_capitalized : Segmenter.is_header (lit "Summary of things:") = true.
Proof. reflexivity. Qed.

Example header_short_colon : Segmenter.is_header (lit "see also:") = true.
Proof. reflexivity. Qed.

Example not_a_header : Segmenter.is_header (lit "The market grew.") = false.
Proof. reflexivity. Qed.

Example extract_sections_sample :
  Segmenter.extract_sections SegmenterFacts.sample_text
  = [Segmenter.mk_section (lit "OVERVIEW")
       (lit "The market strategy, in brief.") 1].
Proof. vm_compute. reflexivity. Qed.

(** Binary64 arithmetic and [round(x, 2)] as Python computes them. *)
Example three_tenths_thrice : (0.3 + 0.3 + 0.3 = 0.8999999999999999)%float.
Proof. reflexivity. Qed.

Example three_times_a_tenth :
  (Float64.of_nat 3 * 0.1 = 0.30000000000000004)%float.
Proof. reflexivity. Qed.

Example round2_ties_to_even : Float64.round2 0.125 = 0.12%float.
Proof. reflexivity. Qed.

Example round2_of_inexact_half : Float64.round2 2.675 = 2.67%float.
Proof. reflexivity. Qed.

Example round2_below_nine_tenths :
  Float64.round2 0.8999999999999999 = 0.9%float.
Proof. reflexivity. Qed.

Example min_keeps_the_first_of_equals : Float64.min 0.5 0.5 = 0.5%float.
Proof. reflexivity. Qed.

(** The stable sort: the two keys 0.5 keep their order. *)
Example sort_desc_sample :
  Ranker.sort_desc
    [(0.5%float, 0%nat); (0.9%float, 1%nat); (0.5%float, 2%nat);
     (1%float, 3%nat)]
  = [(1%float, 3%nat); (0.9%float, 1%nat); (0.5%float, 0%nat);
     (0.5%float, 2%nat)].
Proof. reflexivity. Qed.

End Examples.
